(** * Guided-prayer bot agent: scheduler, retry wrapper and generation pipeline

    A shallow embedding of [src/components/BotAgent.tsx] (the [BotAgent]
    component: [checkSchedule], [findNextLongBatchJob], [findNextShortJob],
    [generateAndSaveKit], [runAutomatedLongVideoBatch],
    [runAutomatedShortVideoJob]) and of the retry helper [callWithRetry] of the
    generation service, together with the properties the specification
    states about them. *)

From stdpp Require Import base numbers list strings pretty gmap.
From Stdlib Require Import ZArith Lia Sorted Permutation.

Local Open Scope Z_scope.

(** ** JavaScript [Date], as far as the agent uses it

    A date is its time value: milliseconds since the epoch, as returned by
    [getTime()] and [Date.now()].  A reading taken at one instant
    ([getHours], [getMinutes]) depends on the zone through [tz] alone, the
    offset of local time in force at that instant, in minutes east of UTC;
    the operations that move a date ([setDate], [setHours]) take the whole
    zone, clock changes included.  Dates are taken in the range where
    [toISOString] does not throw. *)
Module JsDate.

Definition msPerMinute : Z := 60000.
Definition msPerHour : Z := 3600000.
Definition msPerDay : Z := 86400000.

(** Local wall-clock reading of the instant [t], in milliseconds. *)
Definition localMs (tz t : Z) : Z := t + tz * msPerMinute.

(** [d.getHours()] and [d.getMinutes()]: local hour and minute. *)
Definition getHours (tz t : Z) : Z := (localMs tz t mod msPerDay) / msPerHour.
Definition getMinutes (tz t : Z) : Z := (localMs tz t mod msPerHour) / msPerMinute.

(** The time zone of the machine, as [Date] sees it, in milliseconds.
    [offsetAt t] is the offset of local time from UTC in force at the instant
    [t]; [offsetOfLocal local] is the offset by which the wall-clock reading
    [local] is turned back into an instant.  Where clocks are set forward or
    back the two differ from one moment to the next, and a reading that is
    skipped or that occurs twice is read with one of the two offsets of the
    change. *)
Record Zone := {
  offsetAt : Z → Z;
  offsetOfLocal : Z → Z;
}.

(** A zone without clock changes, [tz] minutes ahead of UTC. *)
Definition fixedZone (tz : Z) : Zone :=
  {| offsetAt := λ _, tz * msPerMinute; offsetOfLocal := λ _, tz * msPerMinute |}.

(** The wall-clock reading of the instant [t], and the instant of a
    wall-clock reading. *)
Definition localTime (zone : Zone) (t : Z) : Z := t + offsetAt zone t.
Definition utcOfLocal (zone : Zone) (local : Z) : Z := local - offsetOfLocal zone local.

(** [c = new Date(d); c.setDate(d.getDate() + n)]: the wall-clock reading of
    [d] moved [n] calendar days on, at the same time of day, and read in the
    zone again. *)
Definition addDays (zone : Zone) (t n : Z) : Z :=
  utcOfLocal zone (localTime zone t + n * msPerDay).

(** [d.setHours(h, m, 0, 0)]: the local day of [d], at [h]:[m]:00.000 on the
    wall clock, read in the zone. *)
Definition setHours (zone : Zone) (t h m : Z) : Z :=
  let local := localTime zone t in
  utcOfLocal zone (local - local mod msPerDay + h * msPerHour + m * msPerMinute).

(** Civil date (year, month, day) of a day count since 1970-01-01, in the
    proleptic Gregorian calendar that [toISOString] prints. *)
Definition civilFromDays (days : Z) : Z * Z * Z :=
  let z := days + 719468 in
  let era := z / 146097 in
  let doe := z - era * 146097 in
  let yoe := (doe - doe / 1460 + doe / 36524 - doe / 146096) / 365 in
  let doy := doe - (365 * yoe + yoe / 4 - yoe / 100) in
  let mp := (5 * doy + 2) / 153 in
  let d := doy - (153 * mp + 2) / 5 + 1 in
  let m := if mp <? 10 then mp + 3 else mp - 9 in
  let y := yoe + era * 400 + (if m <=? 2 then 1 else 0) in
  (y, m, d).

(** Decimal digits of [n], left-padded with zeros to [width] characters. *)
Fixpoint zeros (k : nat) : string :=
  match k with O => "" | S k' => "0" +:+ zeros k' end.
Definition padStart (width : nat) (n : Z) : string :=
  let s := pretty (Z.abs n) in
  zeros (width - String.length s) +:+ s.

Definition isoYear (y : Z) : string :=
  if (0 <=? y) && (y <=? 9999) then padStart 4 y
  else (if y <? 0 then "-" else "+") +:+ padStart 6 y.

(** [d.toISOString().split('T')[0]]: the UTC calendar date of [t]. *)
Definition toISODate (t : Z) : string :=
  let '(y, m, d) := civilFromDays (t / msPerDay) in
  isoYear y +:+ "-" +:+ padStart 2 m +:+ "-" +:+ padStart 2 d.

End JsDate.

(** ** Tracks, schedules and slot keys *)

Inductive Lang := pt | en | es.
Inductive JobType := long | short.

#[global] Instance Lang_eq_dec : EqDecision Lang.
Proof. solve_decision. Defined.
#[global] Instance JobType_eq_dec : EqDecision JobType.
Proof. solve_decision. Defined.

Definition langCode (l : Lang) : string :=
  match l with pt => "pt" | en => "en" | es => "es" end.

Definition jobTypeCode (ty : JobType) : string :=
  match ty with long => "long" | short => "short" end.

(** The [schedules] and [offsets] tables of the effect body. *)
Definition schedules (l : Lang) (ty : JobType) : list Z :=
  match l, ty with
  | pt, long => [6; 12; 18] | pt, short => [9; 12; 18]
  | en, long => [7; 13; 19] | en, short => [9; 12; 18]
  | es, long => [8; 14; 20] | es, short => [9; 12; 18]
  end.

Definition offsets (l : Lang) : Z :=
  match l with pt => 0 | en => 20 | es => 40 end.

(** [arr.slice(0, cadence)] for an integer [cadence]: a negative end counts
    from the end of the array, an end past the length takes everything. *)
Definition slice0 {A} (cadence : Z) (arr : list A) : list A :=
  let len := Z.of_nat (length arr) in
  let stop := if cadence <? 0 then Z.max (len + cadence) 0 else cadence in
  take (Z.to_nat stop) arr.

(** The two key templates:
    [`${todayStr}_pt_long_batch_${hour}:${minute}`] and
    [`${todayStr}_${lang}_short_${hour}:${minute}`]. *)
Definition longKeySuffix (hour minute : Z) : string :=
  "_pt_long_batch_" +:+ pretty hour +:+ ":" +:+ pretty minute.
Definition shortKeySuffix (lang : Lang) (hour minute : Z) : string :=
  "_" +:+ langCode lang +:+ "_short_" +:+ pretty hour +:+ ":" +:+ pretty minute.

Definition jobKeyLong (todayStr : string) (hour minute : Z) : string :=
  todayStr +:+ longKeySuffix hour minute.
Definition jobKeyShort (todayStr : string) (lang : Lang) (hour minute : Z) : string :=
  todayStr +:+ shortKeySuffix lang hour minute.

(** ** The run ledger [lastRuns]

    [lastRuns : { [key: string]: number }] maps a slot key to the
    [Date.now()] reading taken when the slot was launched. *)
Abbreviation Store := (gmap string Z).

(** Truthiness of [lastRuns[jobKey]]: [undefined] (no entry) and [0] are
    falsy, every other number is truthy. *)
Definition truthy (v : option Z) : bool :=
  match v with Some n => negb (n =? 0) | None => false end.

(** The updater passed to [setLastRuns]:
    [prev => ({ ...prev, [jobKey]: Date.now() })]. *)
Definition markConsumed (jobKey : string) (whenMillis : Z) (prev : Store) : Store :=
  <[jobKey := whenMillis]> prev.

(** Data invariant of the ledger: every entry is a clock reading other than
    the epoch instant itself, as [Date.now()] is at any launch. *)
Definition storeOk (lastRuns : Store) : Prop :=
  ∀ k v, lastRuns !! k = Some v → v ≠ 0.

(** ** The due test of [checkSchedule] *)

Definition catchUpWindow : Z := 3.

(** [isTime]: in the scheduled hour at or after the minute, or in one of the
    [catchUpWindow] following hours. *)
Definition isTime (currentHour currentMinute hour minute : Z) : bool :=
  ((currentHour =? hour) && (minute <=? currentMinute))
  || ((hour <? currentHour) && (currentHour <=? hour + catchUpWindow)).

(** [isTime && !lastRuns[jobKey]], the condition guarding each launch. *)
Definition isSlotDue (lastRuns : Store) (jobKey : string)
    (currentHour currentMinute hour minute : Z) : bool :=
  isTime currentHour currentMinute hour minute && negb (truthy (lastRuns !! jobKey)).

(** ** The schedule check

    One launch of [checkSchedule]: the slot key it logs and marks through
    [setLastRuns], and the job it starts without awaiting it. *)
Inductive Job := LongBatch | ShortJob (lang : Lang).

Record Launch := { launch_key : string; launch_job : Job }.

(** Operator settings the effect closes over. *)
Record Config := {
  isAgentLongActive : bool;
  isAgentShortActive : bool;
  longVideoCadence : Z;
  shortVideoCadence : Z;
}.

(** Long video batch check (triggered by the PT schedule). *)
Definition checkLong (cfg : Config) (todayStr : string)
    (currentHour currentMinute : Z) (lastRuns : Store) : list Launch :=
  if isAgentLongActive cfg then
    let scheduleHours := slice0 (longVideoCadence cfg) (schedules pt long) in
    let minute := offsets pt in
    (λ hour, {| launch_key := jobKeyLong todayStr hour minute;
                launch_job := LongBatch |})
    <$> filter (λ hour, isSlotDue lastRuns (jobKeyLong todayStr hour minute)
                          currentHour currentMinute hour minute)
               scheduleHours
  else [].

(** Short video jobs check, one language after the other. *)
Definition checkShortLang (cfg : Config) (todayStr : string)
    (currentHour currentMinute : Z) (lastRuns : Store) (lang : Lang) : list Launch :=
  let scheduleHours := slice0 (shortVideoCadence cfg) (schedules lang short) in
  let minute := offsets lang in
  (λ hour, {| launch_key := jobKeyShort todayStr lang hour minute;
              launch_job := ShortJob lang |})
  <$> filter (λ hour, isSlotDue lastRuns (jobKeyShort todayStr lang hour minute)
                        currentHour currentMinute hour minute)
             scheduleHours.

Definition checkShort (cfg : Config) (todayStr : string)
    (currentHour currentMinute : Z) (lastRuns : Store) : list Launch :=
  if isAgentShortActive cfg then
    [pt; en; es] ≫= checkShortLang cfg todayStr currentHour currentMinute lastRuns
  else [].

(** [checkSchedule], run at the instant [now] in the zone [tz] with the
    [lastRuns] value its closure holds: the launches it makes, in order.
    Every due test reads that same [lastRuns]; the updates go through
    [setLastRuns] and are visible from the next render on. *)
Definition checkSchedule (cfg : Config) (tz now : Z) (lastRuns : Store) : list Launch :=
  let todayStr := JsDate.toISODate now in
  let currentHour := JsDate.getHours tz now in
  let currentMinute := JsDate.getMinutes tz now in
  checkLong cfg todayStr currentHour currentMinute lastRuns
  ++ checkShort cfg todayStr currentHour currentMinute lastRuns.

(** The [setLastRuns] updaters of one check, applied in order to the ledger
    they find; [dateNow k] is the [Date.now()] reading the updater of key [k]
    takes. *)
Definition applyLaunches (dateNow : string → Z) (launches : list Launch)
    (prev : Store) : Store :=
  foldl (λ st l, markConsumed (launch_key l) (dateNow (launch_key l)) st) prev launches.

(** Modelled from the spec: [usePersistentState] (hooks/usePersistentState,
    not part of the sources at hand) keeps the value under a durable key:
    every [setLastRuns] update is written through to storage, and a freshly
    started process reads the stored value back. *)
Record AgentState := {
  lastRuns : Store;          (* the React state the next closure will hold *)
  persisted : Store;         (* what durable storage holds under 'agent_lastRuns' *)
  jobsInProgress : list string;
}.

Definition setLastRuns (f : Store → Store) (st : AgentState) : AgentState :=
  {| lastRuns := f (lastRuns st); persisted := f (lastRuns st);
     jobsInProgress := jobsInProgress st |}.

Definition restart (st : AgentState) : AgentState :=
  {| lastRuns := persisted st; persisted := persisted st; jobsInProgress := [] |}.

(** What can happen to the agent between and at polls: a schedule check with
    the settings, the instant and the clock readings of that moment, a change
    of the in-flight job list by a pipeline, or a restart of the process. *)
Record Tick := {
  tick_cfg : Config;
  tick_tz : Z;
  tick_now : Z;
  tick_dateNow : string → Z;
}.

Inductive Event :=
| Check (t : Tick)
| JobsChanged (jobs : list string)
| Restart.

Definition launchesOf (t : Tick) (st : AgentState) : list Launch :=
  checkSchedule (tick_cfg t) (tick_tz t) (tick_now t) (lastRuns st).

(** What [checkSchedule] does for a due slot besides starting the job:
    [setLastRuns(prev => ({ ...prev, [jobKey]: Date.now() }))]. *)
Definition markLaunch (dateNow : string → Z) (st : AgentState) (l : Launch) : AgentState :=
  setLastRuns (markConsumed (launch_key l) (dateNow (launch_key l))) st.

Definition step (st : AgentState) (ev : Event) : AgentState * list Launch :=
  match ev with
  | Check t =>
      let ls := launchesOf t st in
      (foldl (markLaunch (tick_dateNow t)) st ls, ls)
  | JobsChanged jobs =>
      ({| lastRuns := lastRuns st; persisted := persisted st;
          jobsInProgress := jobs |}, [])
  | Restart => (restart st, [])
  end.

(** A whole history of the agent: the final state and every launch made. *)
Fixpoint run (st : AgentState) (evs : list Event) : AgentState * list Launch :=
  match evs with
  | [] => (st, [])
  | ev :: evs' =>
      let '(st1, ls1) := step st ev in
      let '(st2, ls2) := run st1 evs' in
      (st2, ls1 ++ ls2)
  end.

(** ** The next pending slot, for the status line

    [closestJob] starts as [{ time: Infinity, details: '' }], rendered here as
    [None]; once a slot is chosen it holds the slot's time and its status
    text.  The record keeps, next to the time, the key and the job of the
    chosen slot, from which the text is built. *)
Record Slot := {
  slot_time : Z;        (* jobTime.getTime() *)
  slot_key : string;    (* jobKey *)
  slot_job : Job;
  slot_hour : Z;
  slot_day : Z;         (* 0 for today, 1 for tomorrow *)
}.

(** The test and assignment in the innermost loop:
    [jobTime > now && jobTime < closestJob.time && !lastRuns[jobKey]]. *)
Definition consider (now : Z) (lastRuns : Store)
    (closestJob : option Slot) (s : Slot) : option Slot :=
  if (now <? slot_time s)
     && match closestJob with None => true | Some c => slot_time s <? slot_time c end
     && negb (truthy (lastRuns !! slot_key s))
  then Some s else closestJob.

(** The slots one pass of the hour loop looks at, for day [d] of the scan. *)
Definition longSlots (zone : JsDate.Zone) (now cadence d : Z) : list Slot :=
  let checkDate := JsDate.addDays zone now d in
  let todayStr := JsDate.toISODate checkDate in
  let scheduleHours := slice0 cadence (schedules pt long) in
  (λ hour,
     let minute := offsets pt in
     {| slot_time := JsDate.setHours zone checkDate hour minute;
        slot_key := jobKeyLong todayStr hour minute;
        slot_job := LongBatch; slot_hour := hour; slot_day := d |})
  <$> scheduleHours.

Definition shortSlots (zone : JsDate.Zone) (now cadence : Z) (lang : Lang) (d : Z)
  : list Slot :=
  let checkDate := JsDate.addDays zone now d in
  let todayStr := JsDate.toISODate checkDate in
  let scheduleHours := slice0 cadence (schedules lang short) in
  (λ hour,
     let minute := offsets lang in
     {| slot_time := JsDate.setHours zone checkDate hour minute;
        slot_key := jobKeyShort todayStr lang hour minute;
        slot_job := ShortJob lang; slot_hour := hour; slot_day := d |})
  <$> scheduleHours.

(** [findNextLongBatchJob]: today, then tomorrow only if today gave nothing
    ([if (closestJob.time !== Infinity) break]). *)
Definition closestLongBatchJob (zone : JsDate.Zone) (now cadence : Z)
    (lastRuns : Store) : option Slot :=
  let today := foldl (consider now lastRuns) None (longSlots zone now cadence 0) in
  match today with
  | Some _ => today
  | None => foldl (consider now lastRuns) today (longSlots zone now cadence 1)
  end.

(** [findNextShortJob]: every language, today and tomorrow, no early exit. *)
Definition shortScan (zone : JsDate.Zone) (now cadence : Z) : list Slot :=
  [pt; en; es] ≫= λ lang, [0; 1] ≫= λ d, shortSlots zone now cadence lang d.

Definition closestShortJob (zone : JsDate.Zone) (now cadence : Z)
    (lastRuns : Store) : option Slot :=
  foldl (consider now lastRuns) None (shortScan zone now cadence).

Section StatusText.

(** The text of an idle status line for a job at a time: built in the source
    from the translation table [t] and [toLocaleTimeString], which belong to
    the interface layer. *)
Variable statusIdle : Job → Z → string.

Definition detailsOf (closestJob : option Slot) : string :=
  match closestJob with
  | None => ""
  | Some s => statusIdle (slot_job s) (slot_time s)
  end.

Definition findNextLongBatchJob (zone : JsDate.Zone) (now cadence : Z)
    (lastRuns : Store) : string :=
  detailsOf (closestLongBatchJob zone now cadence lastRuns).

Definition findNextShortJob (zone : JsDate.Zone) (now cadence : Z)
    (lastRuns : Store) : string :=
  detailsOf (closestShortJob zone now cadence lastRuns).

End StatusText.

(** ** Auxiliary notions for the scheduler properties *)

(** The key suffixes of every slot in the tables: no two slots share one. *)
Definition allSuffixes : list string :=
  ((λ hour, longKeySuffix hour (offsets pt)) <$> schedules pt long)
  ++ ([pt; en; es] ≫= λ lang,
        (λ hour, shortKeySuffix lang hour (offsets lang)) <$> schedules lang short).

(** The process keeps the React state and the stored value in step. *)
Definition coherent (st : AgentState) : Prop := lastRuns st = persisted st.

(** The clock never reads the epoch instant when an updater runs. *)
Definition clockOk (ev : Event) : Prop :=
  match ev with
  | Check t => ∀ k, tick_dateNow t k ≠ 0
  | _ => True
  end.

Definition newYear0905 : Tick :=
  {| tick_cfg := {| isAgentLongActive := true; isAgentShortActive := true;
                    longVideoCadence := 3; shortVideoCadence := 3 |};
     tick_tz := -180;
     tick_now := 1704110700000;           (* 2024-01-01 09:05 at UTC-3 *)
     tick_dateNow := λ _, 1704110700003 |}.

Definition newYear0935 : Tick :=
  {| tick_cfg := tick_cfg newYear0905;
     tick_tz := -180;
     tick_now := 1704112500000;           (* 2024-01-01 09:35 at UTC-3 *)
     tick_dateNow := λ _, 1704112500002 |}.

(** Two checks of one evening at UTC-3: 18:05 and 21:05 local time on
    2024-01-01, that is 21:05 UTC and 00:05 UTC of the next day. *)
Definition evening1805 : Tick :=
  {| tick_cfg := tick_cfg newYear0905;
     tick_tz := -180;
     tick_now := 1704143100000;
     tick_dateNow := λ _, 1704143100004 |}.

Definition evening2105 : Tick :=
  {| tick_cfg := tick_cfg newYear0905;
     tick_tz := -180;
     tick_now := 1704153900000;
     tick_dateNow := λ _, 1704153900004 |}.

Definition freshAgent : AgentState :=
  {| lastRuns := ∅; persisted := ∅; jobsInProgress := [] |}.

(** The calendar date on the wall clock at the instant [t], printed as
    [toISOString] prints a date. *)
Definition localDate (tz t : Z) : string := JsDate.toISODate (JsDate.localMs tz t).




(** * Asynchronous code: outcomes, errors and the retry wrapper *)

(** The values the error test of [callWithRetry] may find in the [status]
    and [code] fields of a thrown value. *)
Inductive JsVal :=
| JsUndefined
| JsNumber (n : Z)
| JsString (s : string).

#[global] Instance JsVal_eq_dec : EqDecision JsVal.
Proof. solve_decision. Defined.

(** A thrown value, as far as the code looks at it.  [new Error(msg)] has
    neither [status] nor [code]; a thrown [null] or [undefined] reads as
    [undefined] in both fields through the optional chaining. *)
Record JsError := {
  err_status : JsVal;
  err_code : JsVal;
  err_message : string;
}.

Definition newError (message : string) : JsError :=
  {| err_status := JsUndefined; err_code := JsUndefined; err_message := message |}.

(** The result of awaiting a promise: fulfilled with a value or rejected. *)
Inductive outcome (A : Type) : Type :=
| Ok (a : A)
| Throw (error : JsError).
Arguments Ok {A} a.
Arguments Throw {A} error.

(** An async function over a state [Σ]: it runs to its end from a state and
    leaves a fulfilled or rejected result and the state it reached. *)
Definition Async (Σ A : Type) : Type := Σ → outcome A * Σ.

#[global] Instance Async_ret {Σ} : MRet (Async Σ) := λ A a s, (Ok a, s).

#[global] Instance Async_bind {Σ} : MBind (Async Σ) := λ A B k m s,
  match m s with
  | (Ok a, s') => k a s'
  | (Throw error, s') => (Throw error, s')
  end.

Definition throw {Σ A} (error : JsError) : Async Σ A := λ s, (Throw error, s).

(** [try { body } catch (error) { handler }]. *)
Definition tryCatch {Σ A} (body : Async Σ A) (handler : JsError → Async Σ A)
  : Async Σ A := λ s,
  match body s with
  | (Ok a, s') => (Ok a, s')
  | (Throw error, s') => handler error s'
  end.

(** [try { body } finally { cleanup }], for a cleanup that does not throw. *)
Definition tryFinally {Σ A} (body : Async Σ A) (cleanup : Σ → Σ) : Async Σ A := λ s,
  let '(r, s') := body s in (r, cleanup s').

(** A pure state change, such as a React state setter. *)
Definition modify {Σ} (f : Σ → Σ) : Async Σ () := λ s, (Ok (), f s).

(** [x === y] on the values above. *)
Definition strictEq (x y : JsVal) : bool := bool_decide (x = y).

(** The rate-limit test of [callWithRetry]:
    [error?.status === 429 || error?.status === 'RESOURCE_EXHAUSTED'
     || error?.code === 429]. *)
Definition isRateLimit (error : JsError) : bool :=
  strictEq (err_status error) (JsNumber 429)
  || strictEq (err_status error) (JsString "RESOURCE_EXHAUSTED")
  || strictEq (err_code error) (JsNumber 429).

(** The integers that the numbers of the source hold exactly
    ([Number.isSafeInteger]): on them [retries - 1], [retries > 0] and
    [delay * 2] are the arithmetic of the integers. *)
Definition isSafeInteger (n : Z) : Prop := Z.abs n ≤ 2 ^ 53 - 1.

(** [callWithRetry(fn, retries = 3, delay = 2000)], over any state with a way
    to wait ([await new Promise(resolve => setTimeout(resolve, delay))]).
    [retries] is a whole number of retries and [delay] a whole number of
    milliseconds, both taken among the safe integers, every doubled delay
    included; the default policy lies well inside that range. *)
Fixpoint callWithRetry {Σ T} (sleep : Z → Async Σ ()) (fn : Async Σ T)
    (retries : nat) (delay : Z) : Async Σ T :=
  tryCatch fn (λ error,
    match retries with
    | S retries' =>
        if isRateLimit error then
          _ ← sleep delay;
          callWithRetry sleep fn retries' (delay * 2)
        else throw error
    | O => throw error
    end).

Definition defaultRetries : nat := 3.
Definition defaultDelay : Z := 2000.

(** A bench for the wrapper: the state of the wrapped operation, together
    with the number of times the operation was invoked and the waits made. *)
Record Bench (W : Type) := {
  bench_world : W;
  bench_invocations : nat;
  bench_waits : list Z;
}.
Arguments bench_world {W} _.
Arguments bench_invocations {W} _.
Arguments bench_waits {W} _.

Definition benchSleep {W} (delay : Z) : Async (Bench W) () :=
  modify (λ b, {| bench_world := bench_world b;
                  bench_invocations := bench_invocations b;
                  bench_waits := bench_waits b ++ [delay] |}).

(** The operation [fn], counted each time it is invoked. *)
Definition benchInvoke {W T} (fn : Async W T) : Async (Bench W) T := λ b,
  let '(r, w') := fn (bench_world b) in
  (r, {| bench_world := w';
         bench_invocations := S (bench_invocations b);
         bench_waits := bench_waits b |}).

(** The rate-limit class of the specification: status 429, status
    'RESOURCE_EXHAUSTED', or code 429. *)
Definition RateLimitError (error : JsError) : Prop :=
  err_status error = JsNumber 429
  ∨ err_status error = JsString "RESOURCE_EXHAUSTED"
  ∨ err_code error = JsNumber 429.

(** An operation that is rejected with the errors of [failures], one per
    invocation, and fulfilled with [v] from then on. *)
Definition failsThen {T} (failures : list JsError) (v : T) : Async nat T := λ n,
  match failures !! n with
  | Some error => (Throw error, S n)
  | None => (Ok v, S n)
  end.

Definition quotaError : JsError :=
  {| err_status := JsString "RESOURCE_EXHAUSTED"; err_code := JsNumber 429;
     err_message := "quota exceeded" |}.

Definition tooManyRequests : JsError :=
  {| err_status := JsNumber 429; err_code := JsUndefined;
     err_message := "too many requests" |}.

Definition totalWait {W} (b : Bench W) : Z := foldr Z.add 0 (bench_waits b).

Definition freshBench : Bench nat :=
  {| bench_world := 0%nat; bench_invocations := 0; bench_waits := [] |}.

(** * The generation pipeline *)

(** ** Data *)

Definition Bytes := list Z.

Record Blob := { blob_type : string; blob_bytes : Bytes }.

Record SocialMediaPost := {
  sm_title : string;
  sm_description : string;
  sm_hashtags : list string;
}.

Record YouTubeLongPost := {
  yt_title : string;
  yt_description : string;
  yt_hashtags : list string;
  yt_timestamps : string;
  yt_tags : list string;
}.

(** [post: SocialMediaPost | YouTubeLongPost]. *)
Inductive Post :=
| ShortPost (p : SocialMediaPost)
| LongPost (p : YouTubeLongPost).

Definition post_title (post : Post) : string :=
  match post with ShortPost p => sm_title p | LongPost p => yt_title p end.
Definition post_description (post : Post) : string :=
  match post with ShortPost p => sm_description p | LongPost p => yt_description p end.

(** [{ speakers: [{ name, voice }, ...] }]. *)
Definition MultiSpeakerConfig := list (string * string).

Record MarketingHistoryItem := {
  item_id : string;
  item_timestamp : Z;
  item_type : JobType;
  item_language : string;
  item_prompt : string;
  item_subthemes : list string;
  item_prayer : string;
  item_socialPost : option SocialMediaPost;
  item_longPost : option YouTubeLongPost;
  item_audioBlobKey : string;
  item_imageBlobKey : string;
  item_isDownloaded : bool;
}.

(** ** The collaborators

    The generation service, the audio utilities, the blob store and the clock
    are used through their signatures only.  Each remote function is an async
    function over the state [W] of the outside world; it may be fulfilled or
    rejected, differently at each call.  A text that comes back absent is
    rendered as the empty string, a JSON value that parses to [null] as
    [None]: both are falsy. *)
Record Services (W : Type) := {
  getTrendingTopic : string → JobType → Async W (string * list string);
  generateGuidedPrayer : string → string → Async W string;
  generateShortPrayer : string → string → Async W string;
  generateYouTubeLongPost : string → list string → string → Async W (option YouTubeLongPost);
  generateSocialMediaPost : string → string → Async W (option SocialMediaPost);
  generateSpeech : string → option MultiSpeakerConfig → Async W string;
  createThumbnailPromptFromPost : string → string → string → string → Async W string;
  createMediaPromptFromPrayer : string → Async W string;
  generateImageFromPrayer : string → string → string → Async W string;
  (** [decode] and [createWavFile] of utils/audio *)
  decode : string → outcome Bytes;
  createWavFile : Bytes → Z → Z → Z → Blob;
  (** [(await fetch(url)).blob()] *)
  fetchBlob : string → Async W Blob;
  (** the backend of [idb.set(key, blob)] *)
  idbWrite : string → Blob → Async W ();
  (** [Date.now()] *)
  dateNow : W → Z * W;
}.
Arguments getTrendingTopic {W} _.
Arguments generateGuidedPrayer {W} _.
Arguments generateShortPrayer {W} _.
Arguments generateYouTubeLongPost {W} _.
Arguments generateSocialMediaPost {W} _.
Arguments generateSpeech {W} _.
Arguments createThumbnailPromptFromPost {W} _.
Arguments createMediaPromptFromPrayer {W} _.
Arguments generateImageFromPrayer {W} _.
Arguments decode {W} _.
Arguments createWavFile {W} _.
Arguments fetchBlob {W} _.
Arguments idbWrite {W} _.
Arguments dateNow {W} _.

(** The calls a run makes to its collaborators, with their arguments. *)
Inductive Call :=
| GetTrendingTopic (language : string) (contentType : JobType)
| GenerateGuidedPrayer (prompt language : string)
| GenerateShortPrayer (prompt language : string)
| GenerateYouTubeLongPost (theme : string) (subthemes : list string) (language : string)
| GenerateSocialMediaPost (prayerText language : string)
| GenerateSpeech (text : string) (multiSpeakerConfig : option MultiSpeakerConfig)
| CreateThumbnailPromptFromPost (title description prayerText language : string)
| CreateMediaPromptFromPrayer (prayerText : string)
| GenerateImageFromPrayer (prompt aspectRatio modelName : string)
| Fetch (url : string)
| IdbSet (key : string)
| SetHistory (newHistoryItem : MarketingHistoryItem).

(** The state a run works on: the outside world, the component state it can
    reach, and a record of what it did.  A run is followed from its start to
    its end on its own; what other tasks do while it awaits is not part of
    what it does. *)
Record Sys (W : Type) := {
  world : W;
  calls : list Call;                      (* calls made, oldest first *)
  sleeps : list Z;                        (* timeouts awaited, oldest first *)
  idb : gmap string Blob;                 (* the blobs in the store *)
  history : list MarketingHistoryItem;    (* the history collection *)
  inProgress : list string;               (* jobsInProgress *)
  ledger : Store;                         (* lastRuns *)
  consoleErrors : list (string * JsError);
}.
Arguments world {W} _.
Arguments calls {W} _.
Arguments sleeps {W} _.
Arguments idb {W} _.
Arguments history {W} _.
Arguments inProgress {W} _.
Arguments ledger {W} _.
Arguments consoleErrors {W} _.

Section Pipeline.

Context {W : Type} (svc : Services W).

Definition withWorld (w : W) (s : Sys W) : Sys W :=
  {| world := w; calls := calls s; sleeps := sleeps s; idb := idb s;
     history := history s; inProgress := inProgress s; ledger := ledger s;
     consoleErrors := consoleErrors s |}.

Definition logCall (c : Call) (s : Sys W) : Sys W :=
  {| world := world s; calls := calls s ++ [c]; sleeps := sleeps s; idb := idb s;
     history := history s; inProgress := inProgress s; ledger := ledger s;
     consoleErrors := consoleErrors s |}.

Definition logSleep (delay : Z) (s : Sys W) : Sys W :=
  {| world := world s; calls := calls s; sleeps := sleeps s ++ [delay]; idb := idb s;
     history := history s; inProgress := inProgress s; ledger := ledger s;
     consoleErrors := consoleErrors s |}.

Definition putBlob (key : string) (blob : Blob) (s : Sys W) : Sys W :=
  {| world := world s; calls := calls s; sleeps := sleeps s;
     idb := <[key := blob]> (idb s);
     history := history s; inProgress := inProgress s; ledger := ledger s;
     consoleErrors := consoleErrors s |}.

Definition updateHistory (f : list MarketingHistoryItem → list MarketingHistoryItem)
    (s : Sys W) : Sys W :=
  {| world := world s; calls := calls s; sleeps := sleeps s; idb := idb s;
     history := f (history s); inProgress := inProgress s; ledger := ledger s;
     consoleErrors := consoleErrors s |}.

Definition setJobsInProgress (f : list string → list string) (s : Sys W) : Sys W :=
  {| world := world s; calls := calls s; sleeps := sleeps s; idb := idb s;
     history := history s; inProgress := f (inProgress s); ledger := ledger s;
     consoleErrors := consoleErrors s |}.

Definition consoleError (message : string) (error : JsError) (s : Sys W) : Sys W :=
  {| world := world s; calls := calls s; sleeps := sleeps s; idb := idb s;
     history := history s; inProgress := inProgress s; ledger := ledger s;
     consoleErrors := consoleErrors s ++ [(message, error)] |}.

(** A call to a remote function: noted, then run on the outside world. *)
Definition remote {A} (c : Call) (op : Async W A) : Async (Sys W) A := λ s,
  let '(r, w') := op (world s) in (r, withWorld w' (logCall c s)).

(** [await new Promise(resolve => setTimeout(resolve, delay))]. *)
Definition sleep (delay : Z) : Async (Sys W) () := modify (logSleep delay).

Definition now : Async (Sys W) Z := λ s,
  let '(t, w') := dateNow svc (world s) in (Ok t, withWorld w' s).

Definition liftOutcome {A} (r : outcome A) : Async (Sys W) A := λ s, (r, s).

(** [idb.set(key, blob)]: the blob is in the store once the write succeeds. *)
Definition idbSet (key : string) (blob : Blob) : Async (Sys W) () := λ s,
  match remote (IdbSet key) (idbWrite svc key blob) s with
  | (Ok _, s') => (Ok (), putBlob key blob s')
  | (Throw error, s') => (Throw error, s')
  end.

(** [await Promise.all([p, q])] for two promises already started: both run,
    and the first rejection, if any, is the result. *)
Definition promiseAll2 (p q : Async (Sys W) ()) : Async (Sys W) () := λ s,
  let '(rp, s1) := p s in
  let '(rq, s2) := q s1 in
  match rp, rq with
  | Ok _, Ok _ => (Ok (), s2)
  | Throw error, _ => (Throw error, s2)
  | Ok _, Throw error => (Throw error, s2)
  end.

(** [arr.sort(compare)]: a stable sort by a comparator, for which a negative
    or zero result keeps the first argument first. *)
Fixpoint sortInsert {A} (compare : A → A → Z) (x : A) (sorted : list A) : list A :=
  match sorted with
  | [] => [x]
  | y :: rest =>
      if compare x y <=? 0 then x :: y :: rest
      else y :: sortInsert compare x rest
  end.

Definition jsSort {A} (compare : A → A → Z) (arr : list A) : list A :=
  foldr (sortInsert compare) [] arr.

(** [(a, b) => b.timestamp - a.timestamp]. *)
Definition byTimestampDesc (a b : MarketingHistoryItem) : Z :=
  item_timestamp b - item_timestamp a.

Definition imageModel : string := "imagen-4.0-generate-001".

Definition dialogueSpeakers : MultiSpeakerConfig :=
  [("Roberta Erickson", "Aoede"); ("Milton Dilts", "Enceladus")].

Definition isEmpty (s : string) : bool := bool_decide (s = "").

(** ** [generateAndSaveKit] *)

(** 1. Generate the text assets, one call after the other. *)
Definition generateTextAssets (jobLang : string) (jobType : JobType)
    (theme : string) (subthemes : list string) : Async (Sys W) (string * Post) :=
  '(prayer, post) ←
    match jobType with
    | long =>
        prayer ← remote (GenerateGuidedPrayer theme jobLang)
                    (generateGuidedPrayer svc theme jobLang);
        _ ← sleep 1000;
        post ← remote (GenerateYouTubeLongPost theme subthemes jobLang)
                  (generateYouTubeLongPost svc theme subthemes jobLang);
        mret (prayer, LongPost <$> post)
    | short =>
        prayer ← remote (GenerateShortPrayer theme jobLang)
                    (generateShortPrayer svc theme jobLang);
        _ ← sleep 1000;
        post ← remote (GenerateSocialMediaPost prayer jobLang)
                  (generateSocialMediaPost svc prayer jobLang);
        mret (prayer, ShortPost <$> post)
    end;
  match post with
  | Some post =>
      if isEmpty prayer
      then throw (newError ("Failed to generate text assets for " +:+ jobLang +:+ "."))
      else mret (prayer, post)
  | None => throw (newError ("Failed to generate text assets for " +:+ jobLang +:+ "."))
  end.

(** 2. Generate the media assets: the audio, then the image unless one is
    shared. *)
Definition generateAudio (jobType : JobType) (prayer : string) : Async (Sys W) Blob :=
  let config := match jobType with long => Some dialogueSpeakers | short => None end in
  audioB64 ← remote (GenerateSpeech prayer config) (generateSpeech svc prayer config);
  if isEmpty audioB64 then throw (newError "Audio generation failed")
  else
    pcmData ← liftOutcome (decode svc audioB64);
    mret (createWavFile svc pcmData 1 24000 16).

(** [`data:image/png;base64,${imageB64}`]. *)
Definition dataUrl (imageB64 : string) : string := "data:image/png;base64," +:+ imageB64.

Definition aspectRatioOf (jobType : JobType) : string :=
  match jobType with short => "9:16" | long => "16:9" end.

Definition resolveImage (jobLang : string) (jobType : JobType)
    (prayer : string) (post : Post) (sharedImageBlob : option Blob) : Async (Sys W) Blob :=
  match sharedImageBlob with
  | Some blob => mret blob
  | None =>
      visualPrompt ←
        remote (CreateThumbnailPromptFromPost (post_title post) (post_description post)
                  prayer jobLang)
          (createThumbnailPromptFromPost svc (post_title post) (post_description post)
             prayer jobLang);
      let aspectRatio := aspectRatioOf jobType in
      imageB64 ← remote (GenerateImageFromPrayer visualPrompt aspectRatio imageModel)
                    (generateImageFromPrayer svc visualPrompt aspectRatio imageModel);
      if isEmpty imageB64 then throw (newError "Image generation failed")
      else remote (Fetch (dataUrl imageB64)) (fetchBlob svc (dataUrl imageB64))
  end.

(** Everything before the first write: the generation stages. *)
Definition generateAssets (jobLang : string) (jobType : JobType)
    (theme : string) (subthemes : list string) (sharedImageBlob : option Blob)
  : Async (Sys W) (string * Post * Blob * Blob) :=
  '(prayer, post) ← generateTextAssets jobLang jobType theme subthemes;
  audioBlob ← generateAudio jobType prayer;
  imageBlob ← resolveImage jobLang jobType prayer post sharedImageBlob;
  mret (prayer, post, audioBlob, imageBlob).

(** 3. Save to the history: both blobs under keys made from the id, then the
    item, put in front and the collection sorted latest first.  The post of
    a short job is a [SocialMediaPost], that of a long job a
    [YouTubeLongPost]; the item keeps it in the field of its kind. *)
Definition saveToHistory (jobLang : string) (jobType : JobType)
    (theme : string) (subthemes : list string)
    (prayer : string) (post : Post) (audioBlob imageBlob : Blob) : Async (Sys W) () :=
  t ← now;
  let id := pretty t +:+ "-" +:+ jobLang +:+ "-" +:+ jobTypeCode jobType in
  let audioBlobKey := "history_audio_" +:+ id in
  let imageBlobKey := "history_image_" +:+ id in
  _ ← promiseAll2 (idbSet audioBlobKey audioBlob) (idbSet imageBlobKey imageBlob);
  timestamp ← now;
  let newHistoryItem :=
    {| item_id := id;
       item_timestamp := timestamp;
       item_type := jobType;
       item_language := jobLang;
       item_prompt := theme;
       item_subthemes := subthemes;
       item_prayer := prayer;
       item_socialPost := match post with ShortPost p => Some p | LongPost _ => None end;
       item_longPost := match post with LongPost p => Some p | ShortPost _ => None end;
       item_audioBlobKey := audioBlobKey;
       item_imageBlobKey := imageBlobKey;
       item_isDownloaded := false |} in
  modify (λ s, updateHistory (λ prev, jsSort byTimestampDesc (newHistoryItem :: prev))
                 (logCall (SetHistory newHistoryItem) s)).

Definition generateAndSaveKit (jobLang : string) (jobType : JobType)
    (theme : string) (subthemes : list string) (sharedImageBlob : option Blob)
  : Async (Sys W) () :=
  '(prayer, post, audioBlob, imageBlob) ←
    generateAssets jobLang jobType theme subthemes sharedImageBlob;
  saveToHistory jobLang jobType theme subthemes prayer post audioBlob imageBlob.

(** ** The launching jobs *)

(** The [try] block of [runAutomatedLongVideoBatch]. *)
Definition longVideoBatchBody : Async (Sys W) () :=
  (* 1. Research topic *)
  '(theme, subthemes) ← remote (GetTrendingTopic "pt" long) (getTrendingTopic svc "pt" long);
  (* 2. Generate shared image asset *)
  ptPrayerForVisual ← remote (GenerateGuidedPrayer theme "pt")
                         (generateGuidedPrayer svc theme "pt");
  visualPrompt ← remote (CreateMediaPromptFromPrayer ptPrayerForVisual)
                    (createMediaPromptFromPrayer svc ptPrayerForVisual);
  imageB64 ← remote (GenerateImageFromPrayer visualPrompt "16:9" imageModel)
                (generateImageFromPrayer svc visualPrompt "16:9" imageModel);
  if isEmpty imageB64 then throw (newError "Failed to generate shared image asset.")
  else
    imageBlob ← remote (Fetch (dataUrl imageB64)) (fetchBlob svc (dataUrl imageB64));
    (* [if (!imageBlob) throw ...]: a Blob is an object, never falsy *)
    (* 3. Run generation sequentially for each language *)
    _ ← generateAndSaveKit "pt" long theme subthemes (Some imageBlob);
    _ ← sleep 2000;
    _ ← generateAndSaveKit "en" long theme subthemes (Some imageBlob);
    _ ← sleep 2000;
    generateAndSaveKit "es" long theme subthemes (Some imageBlob).

Definition longJobIdentifiers : list string := ["pt-long"; "en-long"; "es-long"].

Definition runAutomatedLongVideoBatch : Async (Sys W) () :=
  _ ← modify (setJobsInProgress (λ prev, prev ++ longJobIdentifiers));
  tryFinally
    (tryCatch longVideoBatchBody
       (λ error, modify (consoleError "Autonomous agent long video batch failed:" error)))
    (setJobsInProgress (filter (λ job, job ∉ longJobIdentifiers))).

Definition runAutomatedShortVideoJob (jobLang : string) : Async (Sys W) () :=
  let jobIdentifier := jobLang +:+ "-short" in
  _ ← modify (setJobsInProgress (λ prev, prev ++ [jobIdentifier]));
  tryFinally
    (tryCatch
       ('(theme, subthemes) ← remote (GetTrendingTopic jobLang short)
                                 (getTrendingTopic svc jobLang short);
        generateAndSaveKit jobLang short theme subthemes None)
       (λ error, modify (consoleError
                           ("Autonomous agent job failed for " +:+ jobLang +:+ "/short:")
                           error)))
    (setJobsInProgress (filter (λ job, job ≠ jobIdentifier))).

End Pipeline.

(** ** Notions for the pipeline properties *)

(** The calls of a run that ask for an image to be generated. *)
Definition isImageCall (c : Call) : bool :=
  match c with GenerateImageFromPrayer _ _ _ => true | _ => false end.

Definition imageCalls (cs : list Call) : list Call := List.filter isImageCall cs.

(** The calls that write to the blob store or to the history collection. *)
Definition isRecordingCall (c : Call) : bool :=
  match c with IdbSet _ | SetHistory _ => true | _ => false end.

(** The calls that ask for a guided prayer. *)
Definition isGuidedPrayerCall (c : Call) : bool :=
  match c with GenerateGuidedPrayer _ _ => true | _ => false end.

Definition guidedPrayerCalls (cs : list Call) : list Call :=
  List.filter isGuidedPrayerCall cs.

(** A call that neither writes a record nor asks for an image. *)
Definition plainCall (c : Call) : Prop :=
  isRecordingCall c = false ∧ isImageCall c = false.

(** The history items a sequence of calls has recorded. *)
Definition recordedItems (cs : list Call) : list MarketingHistoryItem :=
  omap (λ c, match c with SetHistory item => Some item | _ => None end) cs.

(** A collection ordered latest first. *)
Definition timestampDescending (l : list MarketingHistoryItem) : Prop :=
  Sorted (λ a b, item_timestamp b ≤ item_timestamp a) l.

(** A stretch of a run that only generates: it adds the calls [new] and
    leaves the blob store, the history, the in-flight list, the ledger and
    the console untouched. *)
Definition generates {W} (s s' : Sys W) (new : list Call) : Prop :=
  calls s' = calls s ++ new
  ∧ idb s' = idb s ∧ history s' = history s ∧ inProgress s' = inProgress s
  ∧ ledger s' = ledger s ∧ consoleErrors s' = consoleErrors s.

(** The provenance of the text of an item recorded by a long-form batch that
    started in the world [w0] and made the calls [new].  The batch opens with
    the five calls of the shared-image stage: the topic, a first
    [generateGuidedPrayer] for Portuguese whose answer [p1] goes into the
    visual prompt, the prompt, the image and its blob.  The text of the item
    is the answer to another [generateGuidedPrayer] call, logged among the
    calls [kits] that follow that stage; for the Portuguese item it is the
    first of them, made in the world the image stage left.  All in all the
    batch asks for a guided prayer once for the image and then once for each
    language whose run it starts. *)
Definition generatedApart {W} (svc : Services W) (w0 : W) (new : list Call)
    (item : MarketingHistoryItem) : Prop :=
  ∃ theme subthemes w1 p1 w2 visualPrompt w3 imageB64 w4 imageBlob w5 kits,
    getTrendingTopic svc "pt" long w0 = (Ok (theme, subthemes), w1)
    ∧ generateGuidedPrayer svc theme "pt" w1 = (Ok p1, w2)
    ∧ createMediaPromptFromPrayer svc p1 w2 = (Ok visualPrompt, w3)
    ∧ generateImageFromPrayer svc visualPrompt "16:9" imageModel w3 = (Ok imageB64, w4)
    ∧ fetchBlob svc (dataUrl imageB64) w4 = (Ok imageBlob, w5)
    ∧ new = [GetTrendingTopic "pt" long;
             GenerateGuidedPrayer theme "pt";
             CreateMediaPromptFromPrayer p1;
             GenerateImageFromPrayer visualPrompt "16:9" imageModel;
             Fetch (dataUrl imageB64)] ++ kits
    ∧ (∃ n, (1 ≤ n)%nat
         ∧ guidedPrayerCalls new
           = GenerateGuidedPrayer theme "pt"
             :: take n [GenerateGuidedPrayer theme "pt";
                        GenerateGuidedPrayer theme "en";
                        GenerateGuidedPrayer theme "es"])
    ∧ ∃ before after w w',
        kits = before ++ GenerateGuidedPrayer theme (item_language item) :: after
        ∧ generateGuidedPrayer svc theme (item_language item) w
          = (Ok (item_prayer item), w')
        ∧ (item_language item = "pt" → before = [] ∧ w = w5).

(** The guided-prayer calls a batch can have made: none, if it stopped
    before asking; otherwise the call made for the image, followed by the
    opening calls of the runs it started, Portuguese first. *)
Definition batchPrayerCalls (new : list Call) : Prop :=
  guidedPrayerCalls new = []
  ∨ ∃ theme n,
      guidedPrayerCalls new
      = GenerateGuidedPrayer theme "pt"
        :: take n [GenerateGuidedPrayer theme "pt";
                   GenerateGuidedPrayer theme "en";
                   GenerateGuidedPrayer theme "es"].

(** The shared-image stage of a batch that starts in the world [w0] is
    fulfilled: the topic, the first Portuguese prayer [p1], the visual prompt
    made from it, the image, which is not empty, and its blob are all there,
    and the world is [w5] when the first language run starts. *)
Definition sharedImageReady {W} (svc : Services W) (w0 : W) (theme : string)
    (subthemes : list string) (p1 visualPrompt imageB64 : string) (imageBlob : Blob)
    (w5 : W) : Prop :=
  ∃ w1 w2 w3 w4,
    getTrendingTopic svc "pt" long w0 = (Ok (theme, subthemes), w1)
    ∧ generateGuidedPrayer svc theme "pt" w1 = (Ok p1, w2)
    ∧ createMediaPromptFromPrayer svc p1 w2 = (Ok visualPrompt, w3)
    ∧ generateImageFromPrayer svc visualPrompt "16:9" imageModel w3 = (Ok imageB64, w4)
    ∧ imageB64 ≠ ""
    ∧ fetchBlob svc (dataUrl imageB64) w4 = (Ok imageBlob, w5).

(** The five calls of that stage. *)
Definition sharedImageCalls (theme p1 visualPrompt imageB64 : string) : list Call :=
  [GetTrendingTopic "pt" long;
   GenerateGuidedPrayer theme "pt";
   CreateMediaPromptFromPrayer p1;
   GenerateImageFromPrayer visualPrompt "16:9" imageModel;
   Fetch (dataUrl imageB64)].

(** ** A scripted world, for running the pipeline on examples

    The world is the number of operations made on it so far.  Operation
    number [n] is rejected with [failAt n] if that is an error; otherwise it
    is fulfilled with a value that names [n]. *)
Definition scripted {A} (failAt : nat → option JsError) (value : nat → A)
  : Async nat A := λ n,
  match failAt n with
  | Some error => (Throw error, S n)
  | None => (Ok (value n), S n)
  end.

Definition numbered (label : string) (n : nat) : string := label +:+ "#" +:+ pretty n.

Definition scriptedServices (failAt : nat → option JsError) : Services nat := {|
  getTrendingTopic := λ language contentType,
    scripted failAt (λ _, ("hope", ["faith"; "trust"; "rest"]));
  generateGuidedPrayer := λ prompt language,
    scripted failAt (numbered ("guided prayer " +:+ language));
  generateShortPrayer := λ prompt language,
    scripted failAt (numbered ("short prayer " +:+ language));
  generateYouTubeLongPost := λ theme subthemes language,
    scripted failAt (λ n, Some {| yt_title := numbered "title" n;
                                  yt_description := "description";
                                  yt_hashtags := ["#prayer"];
                                  yt_timestamps := "chapters";
                                  yt_tags := ["prayer"] |});
  generateSocialMediaPost := λ prayerText language,
    scripted failAt (λ n, Some {| sm_title := numbered "title" n;
                                  sm_description := "description";
                                  sm_hashtags := ["#prayer"] |});
  generateSpeech := λ text multiSpeakerConfig, scripted failAt (numbered "audio");
  createThumbnailPromptFromPost := λ title description prayerText language,
    scripted failAt (numbered "thumbnail prompt");
  createMediaPromptFromPrayer := λ prayerText, scripted failAt (numbered "media prompt");
  generateImageFromPrayer := λ prompt aspectRatio modelName,
    scripted failAt (numbered "image");
  decode := λ base64, Ok [82; 73; 70; 70];
  createWavFile := λ pcmData numChannels sampleRate bitsPerSample,
    {| blob_type := "audio/wav"; blob_bytes := pcmData |};
  fetchBlob := λ url,
    scripted failAt (λ n, {| blob_type := "image/png"; blob_bytes := [Z.of_nat n] |});
  idbWrite := λ key blob, scripted failAt (λ _, ());
  dateNow := λ n, (1704110700000 + Z.of_nat n, S n);
|}.

Definition neverFails : nat → option JsError := λ _, None.

Definition failsAt (k : nat) (error : JsError) : nat → option JsError :=
  λ n, if decide (n = k) then Some error else None.

Definition malformedResponse : JsError := newError "Unexpected token in JSON".

Definition freshSys : Sys nat :=
  {| world := 0%nat; calls := []; sleeps := []; idb := ∅; history := [];
     inProgress := []; ledger := ∅; consoleErrors := [] |}.

(** A state whose history holds two earlier items, oldest first. *)
Definition earlierItem (id : string) (timestamp : Z) : MarketingHistoryItem :=
  {| item_id := id; item_timestamp := timestamp; item_type := short;
     item_language := "pt"; item_prompt := "gratitude"; item_subthemes := [];
     item_prayer := "an earlier prayer"; item_socialPost := None; item_longPost := None;
     item_audioBlobKey := "history_audio_" +:+ id;
     item_imageBlobKey := "history_image_" +:+ id; item_isDownloaded := true |}.

Definition oldestFirstSys : Sys nat :=
  {| world := 0%nat; calls := []; sleeps := []; idb := ∅;
     history := [earlierItem "1704000000000-pt-short" 1704000000000;
                 earlierItem "1704100000000-pt-short" 1704100000000];
     inProgress := ["pt-short"]; ledger := ∅; consoleErrors := [] |}.

(** The Portuguese item of the scripted batch in which nothing fails. *)
Definition scriptedPtItem : MarketingHistoryItem :=
  {| item_id := "1704110700008-pt-long";
     item_timestamp := 1704110700011;
     item_type := long;
     item_language := "pt";
     item_prompt := "hope";
     item_subthemes := ["faith"; "trust"; "rest"];
     item_prayer := "guided prayer pt#5";
     item_socialPost := None;
     item_longPost := Some {| yt_title := "title#6"; yt_description := "description";
                              yt_hashtags := ["#prayer"]; yt_timestamps := "chapters";
                              yt_tags := ["prayer"] |};
     item_audioBlobKey := "history_audio_1704110700008-pt-long";
     item_imageBlobKey := "history_image_1704110700008-pt-long";
     item_isDownloaded := false |}.

(** * Further parts of the component and of the generation service *)

(** ** JavaScript strings, as far as the code uses them

    A text is the sequence of its code units; the texts considered are those
    whose code units are all below 256. *)
Module JsString.

Abbreviation ascii := Ascii.ascii.

(** The code unit numbered [n]. *)
Definition codeUnit (n : N) : ascii := Ascii.ascii_of_N n.

Definition chars (s : string) : list ascii := String.list_ascii_of_string s.
Definition ofChars (l : list ascii) : string := String.string_of_list_ascii l.

(** White space and line terminators among the code units below 256: TAB,
    LF, VT, FF, CR, space and no-break space. *)
Definition isWhiteSpace (c : ascii) : bool :=
  let n := Ascii.N_of_ascii c in
  (((9 <=? n) && (n <=? 13)) || (n =? 32) || (n =? 160))%N.

Fixpoint dropWhile {A} (p : A → bool) (l : list A) : list A :=
  match l with
  | [] => []
  | x :: l' => if p x then dropWhile p l' else l
  end.

(** [s.trimStart()], [s.trimEnd()] and [s.trim()]. *)
Definition trimStart (s : string) : string :=
  ofChars (dropWhile isWhiteSpace (chars s)).
Definition trimEnd (s : string) : string :=
  ofChars (reverse (dropWhile isWhiteSpace (reverse (chars s)))).
Definition trim (s : string) : string := trimEnd (trimStart s).

(** [s.startsWith(searchString)]. *)
Fixpoint startsWith (searchString s : string) : bool :=
  match searchString, s with
  | EmptyString, _ => true
  | String a rest, String b s' => bool_decide (a = b) && startsWith rest s'
  | String _ _, EmptyString => false
  end.

(** [s.substring(indexStart, indexEnd)]: both indices are clamped to the
    text, and exchanged when the first is the larger. *)
Definition substring (s : string) (indexStart indexEnd : Z) : string :=
  let len := Z.of_nat (String.length s) in
  let a := Z.min (Z.max indexStart 0) len in
  let b := Z.min (Z.max indexEnd 0) len in
  let first := Z.min a b in
  let last := Z.max a b in
  ofChars (take (Z.to_nat (last - first)) (drop (Z.to_nat first) (chars s))).

(** [s.split(separator)[0]] for a separator of one code unit: the text
    before its first occurrence, all of [s] when there is none. *)
Fixpoint splitFirst (separator : ascii) (s : string) : string :=
  match s with
  | EmptyString => EmptyString
  | String c s' =>
      if bool_decide (c = separator) then EmptyString
      else String c (splitFirst separator s')
  end.

(** [s.replace(/[...]/g, '')]: every code unit of the class is removed. *)
Fixpoint removeAll (class : ascii → bool) (s : string) : string :=
  match s with
  | EmptyString => EmptyString
  | String c s' =>
      if class c then removeAll class s' else String c (removeAll class s')
  end.

(** [arr.join(separator)] for an array of texts. *)
Fixpoint join (separator : string) (arr : list string) : string :=
  match arr with
  | [] => ""
  | x :: rest =>
      match rest with
      | [] => x
      | _ :: _ => x +:+ separator +:+ join separator rest
      end
  end.

(** No code unit of the class occurs in the text. *)
Definition free (class : ascii → bool) (s : string) : Prop :=
  Forall (λ c, class c = false) (chars s).

(** Code units that neither start nor end with white space, and a text made
    of such. *)
Definition tight (l : list ascii) : Prop :=
  (∀ c rest, l = c :: rest → isWhiteSpace c = false)
  ∧ (∀ c front, l = front ++ [c] → isWhiteSpace c = false).

Definition trimmed (s : string) : Prop := tight (chars s).

(** The text is made of white space only. *)
Definition blank (s : string) : Prop :=
  Forall (λ c, isWhiteSpace c = true) (chars s).

End JsString.

(** ** The key form, [ApiKeySelector] *)
Module ApiKeySelector.

(** The two pieces of component state. *)
Record State := { inputKey : string; error : string }.

Definition initial : State := {| inputKey := ""; error := "" |}.

(** [onChange] of the input: [setInputKey(e.target.value)]. *)
Definition onChange (value : string) (st : State) : State :=
  {| inputKey := value; error := error st |}.

(** [handleSubmit]: the state it leaves and the key it hands to
    [onKeySelected], if it calls it. *)
Definition handleSubmit (st : State) : State * option string :=
  if isEmpty (JsString.trim (inputKey st)) then
    ({| inputKey := inputKey st; error := "Please enter a valid API Key" |}, None)
  else
    (st, Some (JsString.trim (inputKey st))).

(** What the user does with the form. *)
Inductive Event :=
| Change (value : string)
| Submit.

(** A session with the form: the final state and the keys handed to
    [onKeySelected], oldest first. *)
Fixpoint run (st : State) (evs : list Event) : State * list string :=
  match evs with
  | [] => (st, [])
  | Change value :: evs' => run (onChange value st) evs'
  | Submit :: evs' =>
      let '(st1, selected) := handleSubmit st in
      let '(st2, keys) := run st1 evs' in
      (st2, option_list selected ++ keys)
  end.

End ApiKeySelector.

(** ** The generation service *)
Module geminiService.

(** Where [getApiKey] looks: [localStorage.getItem('USER_API_KEY')], which
    is [null] or a text, and [process.env.API_KEY]. *)
Record Env := {
  USER_API_KEY : option string;
  API_KEY : option string;
}.

(** A text that is there and not empty: the truthy values among texts,
    [null] and [undefined]. *)
Definition nonEmpty (v : option string) : option string :=
  match v with
  | Some s => if isEmpty s then None else Some s
  | None => None
  end.

Definition getApiKey (env : Env) : outcome string :=
  match nonEmpty (USER_API_KEY env) with
  | Some storedKey => Ok storedKey
  | None =>
      match nonEmpty (API_KEY env) with
      | Some key => Ok key
      | None => Throw (newError "API Key not found. Please set it in the app.")
      end
  end.

(** A [TypeError] raised by the language itself, such as reading a property
    of [undefined]: it carries neither [status] nor [code]; its message is
    the engine's. *)
Definition TypeError (message : string) : JsError := newError message.

(** *** What the client library is asked and what it answers *)

Inductive SpeechConfig :=
| MultiSpeakerVoiceConfig (speakerVoiceConfigs : list (string * string))
| VoiceConfig (voiceName : string).

Record GenerateContentParameters := {
  content_model : string;
  content_text : string;
  content_responseModalities : list string;
  content_speechConfig : SpeechConfig;
}.

Record GenerateImagesParameters := {
  images_model : string;
  images_prompt : string;
  images_numberOfImages : Z;
  images_outputMimeType : string;
  images_aspectRatio : string;
}.

Record GenerateVideosParameters := {
  videos_model : string;
  videos_prompt : string;
  videos_numberOfVideos : Z;
  videos_resolution : string;
  videos_aspectRatio : string;
}.

(** Answers, with every member that may be missing as an option. *)
Record InlineData := { inlineData_data : option string }.
Record Part := { part_inlineData : option InlineData }.
Record Content := { content_parts : option (list Part) }.
Record Candidate := { candidate_content : option Content }.
Record GenerateContentResponse := { response_candidates : option (list Candidate) }.

Record Image := { image_imageBytes : option string }.
Record GeneratedImage := { generatedImage_image : option Image }.
Record GenerateImagesResponse := {
  response_generatedImages : option (list GeneratedImage);
}.

Record Video := { video_uri : option string }.
Record GeneratedVideo := { generatedVideo_video : option Video }.
Record GenerateVideosResponse := {
  response_generatedVideos : option (list GeneratedVideo);
}.
Record GenerateVideosOperation := {
  operation_name : string;
  operation_done : bool;
  operation_response : option GenerateVideosResponse;
}.

(** [new GoogleGenAI({ apiKey })], as far as the service uses it: each
    method is an async function over the state [W] of the outside world. *)
Record GoogleGenAI (W : Type) := {
  models_generateContent : GenerateContentParameters → Async W GenerateContentResponse;
  models_generateImages : GenerateImagesParameters → Async W GenerateImagesResponse;
  models_generateVideos : GenerateVideosParameters → Async W GenerateVideosOperation;
  operations_getVideosOperation :
    GenerateVideosOperation → Async W GenerateVideosOperation;
}.
Arguments models_generateContent {W} _.
Arguments models_generateImages {W} _.
Arguments models_generateVideos {W} _.
Arguments operations_getVideosOperation {W} _.

(** The requests sent through the client. *)
Inductive Request :=
| GenerateContent (params : GenerateContentParameters)
| GenerateImages (params : GenerateImagesParameters)
| GenerateVideos (params : GenerateVideosParameters)
| GetVideosOperation (operation : GenerateVideosOperation).

(** The state a service function works on: the outside world, the requests
    sent so far and the timeouts awaited so far, oldest first. *)
Record Net (W : Type) := {
  net_world : W;
  net_requests : list Request;
  net_waits : list Z;
}.
Arguments net_world {W} _.
Arguments net_requests {W} _.
Arguments net_waits {W} _.

(** [response.candidates?.[0]?.content?.parts?.[0]?.inlineData?.data]. *)
Definition firstInlineData (response : GenerateContentResponse) : option string :=
  candidates ← response_candidates response;
  candidate ← head candidates;
  content ← candidate_content candidate;
  parts ← content_parts content;
  part ← head parts;
  inlineData ← part_inlineData part;
  inlineData_data inlineData.

(** [response.generatedImages[0].image.imageBytes]: reading a member of a
    missing value raises a [TypeError]. *)
Definition firstImageBytes (response : GenerateImagesResponse) : outcome (option string) :=
  match response_generatedImages response with
  | None => Throw (TypeError "Cannot read properties of undefined (reading '0')")
  | Some generatedImages =>
      match head generatedImages with
      | None => Throw (TypeError "Cannot read properties of undefined (reading 'image')")
      | Some generated =>
          match generatedImage_image generated with
          | None =>
              Throw (TypeError "Cannot read properties of undefined (reading 'imageBytes')")
          | Some image => Ok (image_imageBytes image)
          end
      end
  end.

(** [operation.response?.generatedVideos?.[0]?.video?.uri]. *)
Definition downloadLinkOf (operation : GenerateVideosOperation) : option string :=
  response ← operation_response operation;
  generatedVideos ← response_generatedVideos response;
  generated ← head generatedVideos;
  video ← generatedVideo_video generated;
  video_uri video.

(** The line feed. *)
Definition newline : string := String (JsString.codeUnit 10) "".

(** The preamble of every text sent to be spoken, line by line. *)
Definition emotionalDirectives : string :=
  newline
  +:+ "    [SYSTEM INSTRUCTION:" +:+ newline
  +:+ "    Perform this reading with deep emotional intelligence." +:+ newline
  +:+ "    - Tone: Compassionate, hypnotic, therapeutic, and rhythmic." +:+ newline
  +:+ "    - Pacing: Respect the ellipses (...) for long, thoughtful pauses. " +:+ newline
  +:+ "    - Dynamics: Whisper slightly during intimate moments, speak firmly during declarations of faith."
  +:+ newline
  +:+ "    - Goal: Create a 'State of Grace' and Rapport with the listener.]" +:+ newline
  +:+ "    ".

(** The voice set-up and the text [generateSpeech] settles on before it
    sends anything: a dialogue when two speakers or more are given, a single
    voice otherwise. *)
Definition speechConfigOf (multiSpeakerConfig : option MultiSpeakerConfig) : SpeechConfig :=
  match multiSpeakerConfig with
  | Some speakers =>
      if (1 <? length speakers)%nat then
        MultiSpeakerVoiceConfig ((λ speaker, (speaker.1, speaker.2)) <$> speakers)
      else VoiceConfig "Kore"
  | None => VoiceConfig "Kore"
  end.

Definition textToSynthesizeOf (text : string)
    (multiSpeakerConfig : option MultiSpeakerConfig) : string :=
  let single :=
    emotionalDirectives +:+ newline +:+ newline
    +:+ "Read the following prayer aloud in a reverent, healing, and peaceful voice:"
    +:+ newline +:+ newline +:+ text in
  match multiSpeakerConfig with
  | Some speakers =>
      if (1 <? length speakers)%nat then
        let speakerNames := JsString.join " and " (fst <$> speakers) in
        emotionalDirectives +:+ newline +:+ newline
        +:+ "TTS the following dialogue between " +:+ speakerNames +:+ ":"
        +:+ newline +:+ newline +:+ text
      else single
  | None => single
  end.

Definition speechParameters (text : string)
    (multiSpeakerConfig : option MultiSpeakerConfig) : GenerateContentParameters :=
  {| content_model := "gemini-2.5-flash-preview-tts";
     content_text := textToSynthesizeOf text multiSpeakerConfig;
     content_responseModalities := ["AUDIO"];
     content_speechConfig := speechConfigOf multiSpeakerConfig |}.

Definition imagesParameters (prompt aspectRatio modelName : string)
  : GenerateImagesParameters :=
  {| images_model := modelName;
     images_prompt := prompt;
     images_numberOfImages := 1;
     images_outputMimeType := "image/png";
     images_aspectRatio := aspectRatio |}.

Definition videosParameters (prompt aspectRatio : string) : GenerateVideosParameters :=
  {| videos_model := "veo-3.1-fast-generate-preview";
     videos_prompt := prompt;
     videos_numberOfVideos := 1;
     videos_resolution := "720p";
     videos_aspectRatio := aspectRatio |}.

(** The title put into the thumbnail prompt by
    [createThumbnailPromptFromPost]:
    [title.split('|')[0].trim().replace(/[#*]/g, '')]. *)
Definition isHashOrStar (c : Ascii.ascii) : bool :=
  bool_decide (c = JsString.codeUnit 35) || bool_decide (c = JsString.codeUnit 42).

Definition cleanTitle (title : string) : string :=
  JsString.removeAll isHashOrStar (JsString.trim (JsString.splitFirst (JsString.codeUnit 124) title)).

(** The text [getTrendingTopic] hands to [JSON.parse]: the answer trimmed,
    and, when it opens with a code fence, cut after the fence and three code
    units before its end, and trimmed again. *)
Definition jsonStrOf (text : string) : string :=
  let jsonStr := JsString.trim text in
  if JsString.startsWith "```json" jsonStr then
    JsString.trim
      (JsString.substring jsonStr 7 (Z.of_nat (String.length jsonStr) - 3))
  else if JsString.startsWith "```" jsonStr then
    JsString.trim
      (JsString.substring jsonStr 3 (Z.of_nat (String.length jsonStr) - 3))
  else jsonStr.

Section Service.

Context {W : Type} (env : Env) (newGoogleGenAI : string → GoogleGenAI W).

(** [getGenAI]: the client for the key found, or the rejection of
    [getApiKey]. *)
Definition getGenAI : outcome (GoogleGenAI W) :=
  match getApiKey env with
  | Ok apiKey => Ok (newGoogleGenAI apiKey)
  | Throw error => Throw error
  end.

(** A request: noted, then answered by the outside world. *)
Definition send {A} (r : Request) (op : Async W A) : Async (Net W) A := λ n,
  let '(result, w') := op (net_world n) in
  (result, {| net_world := w';
              net_requests := net_requests n ++ [r];
              net_waits := net_waits n |}).

(** [await new Promise(resolve => setTimeout(resolve, delay))]. *)
Definition wait (delay : Z) : Async (Net W) () :=
  modify (λ n, {| net_world := net_world n;
                  net_requests := net_requests n;
                  net_waits := net_waits n ++ [delay] |}).

Definition settle {A} (r : outcome A) : Async (Net W) A := λ n, (r, n).

(** One attempt of [generateSpeech], the function given to [callWithRetry]. *)
Definition speechAttempt (params : GenerateContentParameters) : Async (Net W) string :=
  ai ← settle getGenAI;
  response ← send (GenerateContent params) (models_generateContent ai params);
  match nonEmpty (firstInlineData response) with
  | Some base64Audio => mret base64Audio
  | None => throw (newError "No audio data returned from API.")
  end.

Definition generateSpeech (text : string)
    (multiSpeakerConfig : option MultiSpeakerConfig) : Async (Net W) string :=
  callWithRetry wait (speechAttempt (speechParameters text multiSpeakerConfig))
    defaultRetries defaultDelay.

(** One attempt of [generateImageFromPrayer]. *)
Definition imageAttempt (params : GenerateImagesParameters) : Async (Net W) string :=
  ai ← settle getGenAI;
  response ← send (GenerateImages params) (models_generateImages ai params);
  imageBytes ← settle (firstImageBytes response);
  match nonEmpty imageBytes with
  | Some base64Image => mret base64Image
  | None => throw (newError "No image data returned from API.")
  end.

Definition generateImageFromPrayer (prompt aspectRatio modelName : string)
  : Async (Net W) string :=
  callWithRetry wait (imageAttempt (imagesParameters prompt aspectRatio modelName))
    defaultRetries defaultDelay.

(** The polling loop of [generateVideo], entered with [operation], for at
    most [fuel] rounds: [None] when the loop is still running after them. *)
Fixpoint pollOperation (ai : GoogleGenAI W) (fuel : nat)
    (operation : GenerateVideosOperation)
  : Async (Net W) (option GenerateVideosOperation) :=
  if operation_done operation then mret (Some operation)
  else
    match fuel with
    | O => mret None
    | S fuel' =>
        _ ← wait 10000;
        operation' ← send (GetVideosOperation operation)
                        (operations_getVideosOperation ai operation);
        pollOperation ai fuel' operation'
    end.

(** [generateVideo], its loop followed for at most [fuel] rounds. *)
Definition generateVideo (fuel : nat) (prompt aspectRatio : string)
  : Async (Net W) (option string) :=
  ai ← settle getGenAI;
  let params := videosParameters prompt aspectRatio in
  operation ← callWithRetry wait
                 (send (GenerateVideos params) (models_generateVideos ai params))
                 defaultRetries defaultDelay;
  polled ← pollOperation ai fuel operation;
  match polled with
  | None => mret None
  | Some operation =>
      match nonEmpty (downloadLinkOf operation) with
      | Some downloadLink => mret (Some downloadLink)
      | None =>
          throw (newError "Video generation completed but no download link was found.")
      end
  end.

End Service.

(** The polls an operation goes through in the outside world until it is
    reported done: [pollsTo ai operation w polled final w'] when polling
    from [operation] in the world [w] asks about the operations [polled], one
    after the other, each answer being the operation asked about next, and
    stops with [final], the first one that is done, in the world [w']. *)
Inductive pollsTo {W : Type} (ai : GoogleGenAI W)
  : GenerateVideosOperation → W → list GenerateVideosOperation
    → GenerateVideosOperation → W → Prop :=
| polls_done (operation : GenerateVideosOperation) (w : W) :
    operation_done operation = true →
    pollsTo ai operation w [] operation w
| polls_again (operation : GenerateVideosOperation) (w : W)
    (operation1 : GenerateVideosOperation) (w1 : W)
    (polled : list GenerateVideosOperation) (final : GenerateVideosOperation) (w' : W) :
    operation_done operation = false →
    operations_getVideosOperation ai operation w = (Ok operation1, w1) →
    pollsTo ai operation1 w1 polled final w' →
    pollsTo ai operation w (operation :: polled) final w'.

End geminiService.

(** ** Notions for the further properties *)

(** The waits of a retry wrapper that retried [k] times from [delay]:
    [delay], [2 * delay], and so on, one for each retry. *)
Fixpoint backoff (k : nat) (delay : Z) : list Z :=
  match k with
  | O => []
  | S k' => delay :: backoff k' (delay * 2)
  end.

#[global] Instance Job_eq_dec : EqDecision Job.
Proof. solve_decision. Defined.

(** The launches of a check for one kind of job. *)
Definition launchesFor (job : Job) (launches : list Launch) : list Launch :=
  filter (λ l, launch_job l = job) launches.

(** The calls a fulfilled run makes for its texts and for its audio. *)
Definition textCalls (jobLang : string) (jobType : JobType) (theme : string)
    (subthemes : list string) (prayer : string) : list Call :=
  match jobType with
  | long => [GenerateGuidedPrayer theme jobLang;
             GenerateYouTubeLongPost theme subthemes jobLang]
  | short => [GenerateShortPrayer theme jobLang;
              GenerateSocialMediaPost prayer jobLang]
  end.

Definition speechCall (jobType : JobType) (prayer : string) : Call :=
  GenerateSpeech prayer
    match jobType with long => Some dialogueSpeakers | short => None end.

(** A stretch of a run that only asks and waits: it adds the calls
    [newCalls] and the timeouts [newSleeps], and leaves the blob store, the
    history, the in-flight list, the ledger and the console untouched. *)
Definition advances {W} (s s' : Sys W) (newCalls : list Call) (newSleeps : list Z) : Prop :=
  calls s' = calls s ++ newCalls ∧ sleeps s' = sleeps s ++ newSleeps
  ∧ idb s' = idb s ∧ history s' = history s ∧ inProgress s' = inProgress s
  ∧ ledger s' = ledger s ∧ consoleErrors s' = consoleErrors s.

(** The [newHistoryItem] of a run, from what the run has at hand when it
    builds it: [t] is the clock reading taken for the id, [timestamp] the one
    taken for the item. *)
Definition historyItemOf (jobLang : string) (jobType : JobType) (theme : string)
    (subthemes : list string) (prayer : string) (post : Post) (t timestamp : Z)
  : MarketingHistoryItem :=
  let id := pretty t +:+ "-" +:+ jobLang +:+ "-" +:+ jobTypeCode jobType in
  {| item_id := id;
     item_timestamp := timestamp;
     item_type := jobType;
     item_language := jobLang;
     item_prompt := theme;
     item_subthemes := subthemes;
     item_prayer := prayer;
     item_socialPost := match post with ShortPost p => Some p | LongPost _ => None end;
     item_longPost := match post with LongPost p => Some p | ShortPost _ => None end;
     item_audioBlobKey := "history_audio_" +:+ id;
     item_imageBlobKey := "history_image_" +:+ id;
     item_isDownloaded := false |}.

(** The calls of the image stage of a run that was fulfilled. *)
Definition imageStageCalls (jobLang : string) (jobType : JobType) (prayer : string)
    (post : Post) (visualPrompt imageB64 : string) : list Call :=
  [CreateThumbnailPromptFromPost (post_title post) (post_description post) prayer jobLang;
   GenerateImageFromPrayer visualPrompt (aspectRatioOf jobType) imageModel;
   Fetch (dataUrl imageB64)].

(** The image a run without a shared image makes for itself: the thumbnail
    prompt is made from the title and the description of the post and from
    the prayer, the image is generated from that prompt at the aspect ratio
    of the job type, and the blob is what fetching the data URL of the image
    gives. *)
Definition imageMadeFor {W} (svc : Services W) (jobLang : string) (jobType : JobType)
    (prayer : string) (post : Post) (visualPrompt imageB64 : string) (imageBlob : Blob)
  : Prop :=
  ∃ w0 w1 w2 w3,
    createThumbnailPromptFromPost svc (post_title post) (post_description post)
      prayer jobLang w0 = (Ok visualPrompt, w1)
    ∧ generateImageFromPrayer svc visualPrompt (aspectRatioOf jobType) imageModel w1
      = (Ok imageB64, w2)
    ∧ fetchBlob svc (dataUrl imageB64) w2 = (Ok imageBlob, w3).

(** The post a history item keeps, in the field of its type. *)
Definition postOfItem (item : MarketingHistoryItem) : option Post :=
  match item_type item with
  | short => ShortPost <$> item_socialPost item
  | long => LongPost <$> item_longPost item
  end.

(** The kind of post a job type comes with. *)
Definition postOfType (jobType : JobType) (post : Post) : Prop :=
  match jobType, post with
  | long, LongPost _ | short, ShortPost _ => True
  | _, _ => False
  end.

(** A stretch of a run that may record items: it adds the calls [new]; the
    history it leaves holds the items recorded and the items it found, and
    is ordered latest first as soon as one item was recorded. *)
Definition records {W} (s s' : Sys W) (new : list Call) : Prop :=
  calls s' = calls s ++ new
  ∧ history s' ≡ₚ recordedItems new ++ history s
  ∧ (recordedItems new = [] → history s' = history s)
  ∧ (recordedItems new ≠ [] → timestampDescending (history s')).

(** A state whose history holds two earlier items, latest first. *)
Definition latestFirstSys : Sys nat :=
  {| world := 0%nat; calls := []; sleeps := []; idb := ∅;
     history := [earlierItem "1704100000000-pt-short" 1704100000000;
                 earlierItem "1704000000000-pt-short" 1704000000000];
     inProgress := []; ledger := ∅; consoleErrors := [] |}.

(** The offsets of a zone stay within [spread] milliseconds of one another,
    whichever moments are compared: its clock changes, taken together, never
    shift local time by more. *)
Definition steadyWithin (spread : Z) (zone : JsDate.Zone) : Prop :=
  ∀ t local,
    Z.abs (JsDate.offsetAt zone t - JsDate.offsetOfLocal zone local) ≤ spread.

(** Central Europe around the end of summer time in 2024: two hours ahead
    of UTC until 01:00 UTC of 2024-10-27, one hour from then on; on the wall
    clock, readings before 03:00 of that day are summer time. *)
Definition berlinAutumn2024 : JsDate.Zone :=
  {| JsDate.offsetAt := λ t, if t <? 1729990800000 then 7200000 else 3600000;
     JsDate.offsetOfLocal :=
       λ local, if local <? 1729998000000 then 7200000 else 3600000 |}.

(** A check at 12:05 local time, at UTC-3. *)
Definition newYear1205 : Tick :=
  {| tick_cfg := tick_cfg newYear0905;
     tick_tz := -180;
     tick_now := 1704121500000;
     tick_dateNow := λ _, 1704121500001 |}.

(** ** A scripted client, for running the service on examples *)

Definition audioResponse (data : option string) : geminiService.GenerateContentResponse :=
  {| geminiService.response_candidates :=
       Some [ {| geminiService.candidate_content :=
                   Some {| geminiService.content_parts :=
                             Some [ {| geminiService.part_inlineData :=
                                         Some {| geminiService.inlineData_data := data |} |} ]
                        |} |} ] |}.

Definition imagesResponse (bytes : list (option string))
  : geminiService.GenerateImagesResponse :=
  {| geminiService.response_generatedImages :=
       Some ((λ b, {| geminiService.generatedImage_image :=
                        Some {| geminiService.image_imageBytes := b |} |}) <$> bytes) |}.

Definition videoOperation (name : string) (uri : option string)
  : geminiService.GenerateVideosOperation :=
  {| geminiService.operation_name := name;
     geminiService.operation_done := bool_decide (is_Some uri);
     geminiService.operation_response :=
       (λ u, {| geminiService.response_generatedVideos :=
                  Some [ {| geminiService.generatedVideo_video :=
                              Some {| geminiService.video_uri := Some u |} |} ] |})
       <$> uri |}.

(** The client of the scripted world: request number [n] is rejected with
    [failAt n] if that is an error; a video operation is reported done from
    request number [doneAt] on. *)
Definition scriptedGenAI (failAt : nat → option JsError) (doneAt : nat)
    (apiKey : string) : geminiService.GoogleGenAI nat := {|
  geminiService.models_generateContent := λ params,
    scripted failAt (λ n, audioResponse (Some (numbered "audio" n)));
  geminiService.models_generateImages := λ params,
    scripted failAt (λ n, imagesResponse [Some (numbered "image" n)]);
  geminiService.models_generateVideos := λ params,
    scripted failAt (λ n, videoOperation "operation" None);
  geminiService.operations_getVideosOperation := λ operation,
    scripted failAt (λ n, videoOperation (geminiService.operation_name operation)
                            (if decide (doneAt ≤ n)%nat
                             then Some (numbered "https://video" n) else None));
|}.

Definition storedKeyEnv : geminiService.Env :=
  {| geminiService.USER_API_KEY := Some "stored-key";
     geminiService.API_KEY := None |}.

Definition noKeyEnv : geminiService.Env :=
  {| geminiService.USER_API_KEY := Some ""; geminiService.API_KEY := None |}.

Definition freshNet : geminiService.Net nat :=
  {| geminiService.net_world := 0%nat;
     geminiService.net_requests := [];
     geminiService.net_waits := [] |}.

(** The pipeline wired to the service: speech and images come from the
    service functions above, over the scripted client; the other
    collaborators are the scripted ones, run on the world of the net. *)
Definition onNet {A} (op : Async nat A) : Async (geminiService.Net nat) A := λ n,
  let '(r, w') := op (geminiService.net_world n) in
  (r, {| geminiService.net_world := w';
         geminiService.net_requests := geminiService.net_requests n;
         geminiService.net_waits := geminiService.net_waits n |}).

Definition wiredServices (env : geminiService.Env) (failAt : nat → option JsError)
  : Services (geminiService.Net nat) := {|
  getTrendingTopic := λ language contentType,
    onNet (getTrendingTopic (scriptedServices failAt) language contentType);
  generateGuidedPrayer := λ prompt language,
    onNet (generateGuidedPrayer (scriptedServices failAt) prompt language);
  generateShortPrayer := λ prompt language,
    onNet (generateShortPrayer (scriptedServices failAt) prompt language);
  generateYouTubeLongPost := λ theme subthemes language,
    onNet (generateYouTubeLongPost (scriptedServices failAt) theme subthemes language);
  generateSocialMediaPost := λ prayerText language,
    onNet (generateSocialMediaPost (scriptedServices failAt) prayerText language);
  generateSpeech := geminiService.generateSpeech env (scriptedGenAI failAt 0);
  createThumbnailPromptFromPost := λ title description prayerText language,
    onNet (createThumbnailPromptFromPost (scriptedServices failAt)
             title description prayerText language);
  createMediaPromptFromPrayer := λ prayerText,
    onNet (createMediaPromptFromPrayer (scriptedServices failAt) prayerText);
  generateImageFromPrayer := geminiService.generateImageFromPrayer env
                               (scriptedGenAI failAt 0);
  decode := decode (scriptedServices failAt);
  createWavFile := createWavFile (scriptedServices failAt);
  fetchBlob := λ url, onNet (fetchBlob (scriptedServices failAt) url);
  idbWrite := λ key blob, onNet (idbWrite (scriptedServices failAt) key blob);
  dateNow := λ n,
    let '(t, w') := dateNow (scriptedServices failAt) (geminiService.net_world n) in
    (t, {| geminiService.net_world := w';
           geminiService.net_requests := geminiService.net_requests n;
           geminiService.net_waits := geminiService.net_waits n |});
|}.

Definition wiredSys : Sys (geminiService.Net nat) :=
  {| world := freshNet; calls := []; sleeps := []; idb := ∅; history := [];
     inProgress := []; ledger := ∅; consoleErrors := [] |}.

(** * Properties of the scheduler *)

(** ** The due window *)

Lemma isTime_spec (currentHour currentMinute hour minute : Z) :
  isTime currentHour currentMinute hour minute = true
  ↔ (currentHour = hour ∧ minute ≤ currentMinute)
    ∨ (hour < currentHour ∧ currentHour ≤ hour + 3).
Proof.
  unfold isTime, catchUpWindow.
  rewrite orb_true_iff, !andb_true_iff.
  rewrite Z.eqb_eq, Z.ltb_lt, !Z.leb_le. reflexivity.
Qed.

Lemma isSlotDue_spec (lastRuns : Store) (jobKey : string)
    (currentHour currentMinute hour minute : Z) :
  isSlotDue lastRuns jobKey currentHour currentMinute hour minute = true
  ↔ isTime currentHour currentMinute hour minute = true
    ∧ truthy (lastRuns !! jobKey) = false.
Proof.
  unfold isSlotDue. rewrite andb_true_iff, negb_true_iff. reflexivity.
Qed.

Lemma truthy_absent (lastRuns : Store) (k : string) :
  lastRuns !! k = None → truthy (lastRuns !! k) = false.
Proof. intros ->. reflexivity. Qed.


Lemma truthy_false_absent (lastRuns : Store) (k : string) :
  storeOk lastRuns → truthy (lastRuns !! k) = false → lastRuns !! k = None.
Proof.
  intros Hok Hf. destruct (lastRuns !! k) as [v|] eqn:Hv; [|done].
  simpl in Hf. apply negb_false_iff, Z.eqb_eq in Hf.
  by destruct (Hok k v Hv).
Qed.



(** C2, as the text has it, fails at 9:00: the hour-6 slot of an empty ledger
    is still due then, because the catch-up test compares hours only
    ([currentHour <= hour + catchUpWindow]). *)
Lemma hour6_slot_due_at_9_00 :
  (∅ : Store) !! jobKeyLong "2024-01-01" 6 (offsets pt) = None
  ∧ isSlotDue ∅ (jobKeyLong "2024-01-01" 6 (offsets pt)) 9 0 6 (offsets pt) ≠ false.
Proof. split; [apply lookup_empty | vm_compute; discriminate]. Qed.

(** C2 (amended): a slot scheduled at hour 6, minute [minute], whose key has
    no entry in the ledger is due exactly from 6:[minute] through 9:59: in
    hour 6 from the scheduled minute on, and throughout hours 7, 8 and 9.  It
    is not due at 10:00 or later, nor before its scheduled minute. *)
Theorem hour6_slot_due_window (lastRuns : Store) (jobKey : string)
    (currentHour currentMinute minute : Z) :
  lastRuns !! jobKey = None →
  (isSlotDue lastRuns jobKey currentHour currentMinute 6 minute = true
   ↔ (currentHour = 6 ∧ minute ≤ currentMinute) ∨ (7 ≤ currentHour ≤ 9))
  ∧ (10 ≤ currentHour →
     isSlotDue lastRuns jobKey currentHour currentMinute 6 minute = false).
Proof.
  intros Habs.
  assert (isSlotDue lastRuns jobKey currentHour currentMinute 6 minute = true
          ↔ (currentHour = 6 ∧ minute ≤ currentMinute) ∨ (7 ≤ currentHour ≤ 9)) as Hiff.
  { rewrite isSlotDue_spec, isTime_spec, (truthy_absent _ _ Habs). split.
    - intros [[H|H] _]; [by left | right; lia].
    - intros [H|H]; (split; [|done]); [by left | right; lia]. }
  split; [exact Hiff|].
  intros Hlate. apply not_true_is_false. rewrite Hiff. lia.
Qed.

Lemma hour6_slot_due_window_witness :
  isSlotDue ∅ (jobKeyLong "2024-01-01" 6 0) 9 59 6 0 = true
  ∧ isSlotDue ∅ (jobKeyLong "2024-01-01" 6 0) 10 0 6 0 = false.
Proof.
  destruct (hour6_slot_due_window ∅ (jobKeyLong "2024-01-01" 6 0) 9 59 0
              (lookup_empty _)) as [Hiff _].
  destruct (hour6_slot_due_window ∅ (jobKeyLong "2024-01-01" 6 0) 10 0 0
              (lookup_empty _)) as [_ Hlate].
  split.
  - apply Hiff. right. lia.
  - apply Hlate. lia.
Defined.

(** ** What a check launches *)

Lemma elem_of_checkLong (cfg : Config) (todayStr : string) (h m : Z)
    (lastRuns : Store) (l : Launch) :
  l ∈ checkLong cfg todayStr h m lastRuns
  ↔ isAgentLongActive cfg = true
    ∧ ∃ hour, hour ∈ slice0 (longVideoCadence cfg) (schedules pt long)
        ∧ isSlotDue lastRuns (jobKeyLong todayStr hour (offsets pt)) h m hour (offsets pt) = true
        ∧ l = {| launch_key := jobKeyLong todayStr hour (offsets pt);
                 launch_job := LongBatch |}.
Proof.
  unfold checkLong. destruct (isAgentLongActive cfg).
  - rewrite list_elem_of_fmap. setoid_rewrite list_elem_of_filter.
    split.
    + intros (hour & -> & Hdue & Hin). split; [done|].
      exists hour. split_and!; [done | by apply Is_true_true | done].
    + intros (_ & hour & Hin & Hdue & ->). exists hour.
      split_and!; [done | by apply Is_true_true | done].
  - rewrite elem_of_nil. split; [done | by intros [? _]].
Qed.

Lemma elem_of_checkShort (cfg : Config) (todayStr : string) (h m : Z)
    (lastRuns : Store) (l : Launch) :
  l ∈ checkShort cfg todayStr h m lastRuns
  ↔ isAgentShortActive cfg = true
    ∧ ∃ lang hour, hour ∈ slice0 (shortVideoCadence cfg) (schedules lang short)
        ∧ isSlotDue lastRuns (jobKeyShort todayStr lang hour (offsets lang))
            h m hour (offsets lang) = true
        ∧ l = {| launch_key := jobKeyShort todayStr lang hour (offsets lang);
                 launch_job := ShortJob lang |}.
Proof.
  unfold checkShort. destruct (isAgentShortActive cfg).
  - rewrite list_elem_of_bind. unfold checkShortLang.
    setoid_rewrite list_elem_of_fmap. setoid_rewrite list_elem_of_filter.
    split.
    + intros (lang & (hour & -> & Hdue & Hin) & _). split; [done|].
      exists lang, hour. split_and!; [done | by apply Is_true_true | done].
    + intros (_ & lang & hour & Hin & Hdue & ->). exists lang. split.
      * exists hour. split_and!; [done | by apply Is_true_true | done].
      * destruct lang; set_solver.
  - rewrite elem_of_nil. split; [done | by intros [? _]].
Qed.

(** Every launch of a check passed the due test, on the [lastRuns] value the
    check was run with. *)
Lemma checkSchedule_launch_due (cfg : Config) (tz now : Z) (lastRuns : Store)
    (l : Launch) :
  l ∈ checkSchedule cfg tz now lastRuns →
  ∃ hour minute,
    isSlotDue lastRuns (launch_key l) (JsDate.getHours tz now)
      (JsDate.getMinutes tz now) hour minute = true.
Proof.
  unfold checkSchedule. rewrite elem_of_app, elem_of_checkLong, elem_of_checkShort.
  intros [(_ & hour & _ & Hdue & ->) | (_ & lang & hour & _ & Hdue & ->)]; eauto.
Qed.

Lemma checkSchedule_launch_falsy (cfg : Config) (tz now : Z) (lastRuns : Store)
    (l : Launch) :
  l ∈ checkSchedule cfg tz now lastRuns → truthy (lastRuns !! launch_key l) = false.
Proof.
  intros (hour & minute & Hdue)%checkSchedule_launch_due.
  by apply isSlotDue_spec in Hdue as [_ ?].
Qed.

(** ** C4: a consumed slot is never due *)



(** ** C5: marking a slot twice *)

(** C5, as the text has it, fails: the second [markConsumed] for a key
    replaces the stored reading with the later one, so the ledger changes. *)
Lemma markConsumed_twice_changes_store :
  markConsumed "2024-01-01_pt_long_batch_6:0" 1704099630000
    (markConsumed "2024-01-01_pt_long_batch_6:0" 1704099600000 ∅)
  ≠ markConsumed "2024-01-01_pt_long_batch_6:0" 1704099600000 ∅.
Proof.
  unfold markConsumed. intros Heq.
  apply (f_equal (λ m : Store, m !! "2024-01-01_pt_long_batch_6:0")) in Heq.
  rewrite !lookup_insert_eq in Heq. discriminate.
Qed.

(** C5 (amended): a second [markConsumed] for the same key leaves the set of
    keys in the ledger and every other entry unchanged; it only replaces the
    reading stored under that key by the new one, and so is a no-op exactly
    when both calls carry the same reading. *)
Theorem markConsumed_twice (jobKey : string) (when1 when2 : Z) (prev : Store) :
  let once := markConsumed jobKey when1 prev in
  let twice := markConsumed jobKey when2 once in
  dom twice = dom once
  ∧ (∀ k, k ≠ jobKey → twice !! k = once !! k)
  ∧ twice !! jobKey = Some when2
  ∧ (twice = once ↔ when2 = when1).
Proof.
  unfold markConsumed. simpl. split_and!.
  - rewrite insert_insert_eq, !dom_insert_L. done.
  - intros k Hk. by rewrite insert_insert_eq, !lookup_insert_ne.
  - apply lookup_insert_eq.
  - rewrite insert_insert_eq. split.
    + intros Heq. apply (f_equal (λ m : Store, m !! jobKey)) in Heq.
      rewrite !lookup_insert_eq in Heq. congruence.
    + by intros ->.
Qed.

(** ** The ledger and the launches *)

Lemma allSuffixes_NoDup : NoDup allSuffixes.
Proof. apply (bool_decide_unpack _). by vm_compute. Qed.

Lemma slice0_sublist {A} (cadence : Z) (arr : list A) :
  slice0 cadence arr `sublist_of` arr.
Proof. apply sublist_take. Qed.

(** The keys of one check are the date followed by distinct suffixes. *)
Lemma checkSchedule_keys (cfg : Config) (tz now : Z) (lastRuns : Store) :
  ∃ suffixes, suffixes `sublist_of` allSuffixes
    ∧ launch_key <$> checkSchedule cfg tz now lastRuns
      = String.append (JsDate.toISODate now) <$> suffixes.
Proof.
  unfold checkSchedule.
  set (todayStr := JsDate.toISODate now).
  set (h := JsDate.getHours tz now). set (m := JsDate.getMinutes tz now).
  assert (∃ sl, sl `sublist_of` ((λ hour, longKeySuffix hour (offsets pt)) <$> schedules pt long)
            ∧ launch_key <$> checkLong cfg todayStr h m lastRuns
              = String.append todayStr <$> sl) as (sl & Hsl & Hl).
  { unfold checkLong. destruct (isAgentLongActive cfg).
    - exists ((λ hour, longKeySuffix hour (offsets pt))
               <$> filter (λ hour, isSlotDue lastRuns
                             (jobKeyLong todayStr hour (offsets pt)) h m hour (offsets pt))
                     (slice0 (longVideoCadence cfg) (schedules pt long))).
      split; [|rewrite <-!list_fmap_compose; reflexivity].
      apply fmap_sublist. etrans; [apply sublist_filter | apply slice0_sublist].
    - exists []. split; [apply sublist_nil_l | done]. }
  assert (∀ lang, ∃ ss,
            ss `sublist_of` ((λ hour, shortKeySuffix lang hour (offsets lang))
                              <$> schedules lang short)
            ∧ launch_key <$> checkShortLang cfg todayStr h m lastRuns lang
              = String.append todayStr <$> ss) as Hlang.
  { intros lang. unfold checkShortLang.
    exists ((λ hour, shortKeySuffix lang hour (offsets lang))
             <$> filter (λ hour, isSlotDue lastRuns
                           (jobKeyShort todayStr lang hour (offsets lang))
                           h m hour (offsets lang))
                   (slice0 (shortVideoCadence cfg) (schedules lang short))).
    split; [|rewrite <-!list_fmap_compose; reflexivity].
    apply fmap_sublist. etrans; [apply sublist_filter | apply slice0_sublist]. }
  assert (∃ ss, ss `sublist_of` ([pt; en; es] ≫= λ lang,
              (λ hour, shortKeySuffix lang hour (offsets lang)) <$> schedules lang short)
            ∧ launch_key <$> checkShort cfg todayStr h m lastRuns
              = String.append todayStr <$> ss) as (ss & Hss & Hs).
  { unfold checkShort. destruct (isAgentShortActive cfg).
    - destruct (Hlang pt) as (s1 & Hs1 & E1), (Hlang en) as (s2 & Hs2 & E2),
        (Hlang es) as (s3 & Hs3 & E3).
      exists (s1 ++ s2 ++ s3). split.
      + cbn [mbind list_bind]. rewrite app_nil_r.
        repeat apply sublist_app; done.
      + cbn [mbind list_bind]. rewrite app_nil_r, !fmap_app.
        by rewrite E1, E2, E3.
    - exists []. split; [apply sublist_nil_l | done]. }
  exists (sl ++ ss). split.
  - by apply sublist_app.
  - by rewrite !fmap_app, Hl, Hs.
Qed.

Lemma checkSchedule_keys_NoDup (cfg : Config) (tz now : Z) (lastRuns : Store) :
  NoDup (launch_key <$> checkSchedule cfg tz now lastRuns).
Proof.
  destruct (checkSchedule_keys cfg tz now lastRuns) as (ss & Hss & ->).
  apply NoDup_fmap_2; [apply _|].
  eapply sublist_NoDup; [apply allSuffixes_NoDup | done].
Qed.

(** The ledger after the queued updates of a check. *)
Lemma applyLaunches_lookup_in (dateNow : string → Z) (ls : list Launch)
    (prev : Store) (k : string) :
  k ∈ launch_key <$> ls → applyLaunches dateNow ls prev !! k = Some (dateNow k).
Proof.
  unfold applyLaunches. revert prev.
  induction ls as [|l ls IH] using rev_ind; intros prev Hin.
  - by apply elem_of_nil in Hin.
  - rewrite foldl_snoc. unfold markConsumed at 1.
    destruct (decide (launch_key l = k)) as [<-|Hne].
    + apply lookup_insert_eq.
    + rewrite lookup_insert_ne by done. apply IH.
      rewrite fmap_app, elem_of_app in Hin. destruct Hin as [?|Hin]; [done|].
      apply list_elem_of_singleton in Hin. congruence.
Qed.

Lemma applyLaunches_lookup_notin (dateNow : string → Z) (ls : list Launch)
    (prev : Store) (k : string) :
  k ∉ launch_key <$> ls → applyLaunches dateNow ls prev !! k = prev !! k.
Proof.
  unfold applyLaunches. revert prev.
  induction ls as [|l ls IH]; intros prev Hin; [done|].
  rewrite fmap_cons, not_elem_of_cons in Hin. destruct Hin as [Hne Hin].
  cbn [foldl]. rewrite IH by done.
  unfold markConsumed. by apply lookup_insert_ne.
Qed.

Lemma markLaunch_foldl (dateNow : string → Z) (ls : list Launch) (st : AgentState) :
  lastRuns (foldl (markLaunch dateNow) st ls) = applyLaunches dateNow ls (lastRuns st)
  ∧ (coherent st → coherent (foldl (markLaunch dateNow) st ls)).
Proof.
  revert st. induction ls as [|l ls IH]; intros st; [done|].
  cbn [foldl]. destruct (IH (markLaunch dateNow st l)) as [IH1 IH2].
  split; [by rewrite IH1|]. intros _. by apply IH2.
Qed.

Lemma step_coherent (st : AgentState) (ev : Event) :
  coherent st → coherent (step st ev).1.
Proof.
  destruct ev as [t| |]; simpl; [|done..].
  apply markLaunch_foldl.
Qed.

Lemma step_launch_falsy (st : AgentState) (ev : Event) (l : Launch) :
  l ∈ (step st ev).2 → truthy (lastRuns st !! launch_key l) = false.
Proof.
  destruct ev as [t| |]; simpl; [|by intros ?%elem_of_nil..].
  apply checkSchedule_launch_falsy.
Qed.

Lemma step_launch_marked (st : AgentState) (ev : Event) (l : Launch) :
  clockOk ev → l ∈ (step st ev).2 →
  truthy (lastRuns (step st ev).1 !! launch_key l) = true.
Proof.
  destruct ev as [t| |]; simpl; [|by intros _ ?%elem_of_nil..].
  intros Hclock Hl. rewrite (proj1 (markLaunch_foldl _ _ _)).
  rewrite applyLaunches_lookup_in by (by apply list_elem_of_fmap_2).
  simpl. apply negb_true_iff, Z.eqb_neq, Hclock.
Qed.

Lemma step_truthy_mono (st : AgentState) (ev : Event) (k : string) :
  coherent st → clockOk ev →
  truthy (lastRuns st !! k) = true → truthy (lastRuns (step st ev).1 !! k) = true.
Proof.
  intros Hco Hclock Ht. destruct ev as [t| |]; simpl; [|done|by rewrite <-Hco].
  rewrite (proj1 (markLaunch_foldl _ _ _)).
  destruct (decide (k ∈ launch_key <$> launchesOf t st)) as [Hin|Hin].
  - rewrite applyLaunches_lookup_in by done.
    simpl. apply negb_true_iff, Z.eqb_neq, Hclock.
  - by rewrite applyLaunches_lookup_notin.
Qed.

Lemma step_keys_NoDup (st : AgentState) (ev : Event) :
  NoDup (launch_key <$> (step st ev).2).
Proof.
  destruct ev as [t| |]; simpl; [|constructor..].
  apply checkSchedule_keys_NoDup.
Qed.

Lemma run_cons (st : AgentState) (ev : Event) (evs : list Event) :
  run st (ev :: evs)
  = ((run (step st ev).1 evs).1, (step st ev).2 ++ (run (step st ev).1 evs).2).
Proof.
  simpl. destruct (step st ev) as [st1 ls1]. simpl.
  by destruct (run st1 evs).
Qed.

Lemma run_launch_falsy (st : AgentState) (evs : list Event) (l : Launch) :
  coherent st → Forall clockOk evs →
  l ∈ (run st evs).2 → truthy (lastRuns st !! launch_key l) = false.
Proof.
  revert st. induction evs as [|ev evs IH]; intros st Hco Hclock Hl.
  - by apply elem_of_nil in Hl.
  - rewrite run_cons in Hl. simpl in Hl. apply Forall_cons in Hclock as [Hev Hevs].
    apply elem_of_app in Hl as [Hl|Hl].
    + by eapply step_launch_falsy.
    + apply IH in Hl; [|by apply step_coherent|done].
      apply not_true_is_false. intros Ht.
      apply (step_truthy_mono st ev) in Ht; [congruence|done..].
Qed.

Lemma run_coherent (st : AgentState) (evs : list Event) :
  coherent st → coherent (run st evs).1.
Proof.
  revert st. induction evs as [|ev evs IH]; intros st Hco; [done|].
  rewrite run_cons. simpl. by apply IH, step_coherent.
Qed.

Lemma run_truthy_mono (st : AgentState) (evs : list Event) (k : string) :
  coherent st → Forall clockOk evs →
  truthy (lastRuns st !! k) = true → truthy (lastRuns (run st evs).1 !! k) = true.
Proof.
  revert st. induction evs as [|ev evs IH]; intros st Hco Hclock Ht; [done|].
  rewrite run_cons. simpl. apply Forall_cons in Hclock as [Hev Hevs].
  apply IH; [by apply step_coherent | done | by apply step_truthy_mono].
Qed.

(** Every launch leaves its key in the ledger, for good. *)
Lemma run_launch_marked (st : AgentState) (evs : list Event) (l : Launch) :
  coherent st → Forall clockOk evs →
  l ∈ (run st evs).2 → truthy (lastRuns (run st evs).1 !! launch_key l) = true.
Proof.
  revert st. induction evs as [|ev evs IH]; intros st Hco Hclock Hl.
  - by apply elem_of_nil in Hl.
  - rewrite run_cons in Hl |- *. simpl in *. apply Forall_cons in Hclock as [Hev Hevs].
    apply elem_of_app in Hl as [Hl|Hl].
    + apply run_truthy_mono; [by apply step_coherent | done |].
      by apply step_launch_marked.
    + apply IH; [by apply step_coherent | done..].
Qed.

(** The ledger guards keys.  Over any history of schedule checks, restarts
    and status changes, started from any ledger the process finds in
    storage, no key is launched twice, no key recorded as launched in that
    ledger is launched at all, and every launch leaves its key in the ledger.
    The history is one in which the process state starts in step with
    storage and the clock never reads exactly the epoch instant. *)
Lemma each_key_launched_at_most_once (st : AgentState) (evs : list Event) :
  coherent st → Forall clockOk evs →
  NoDup (launch_key <$> (run st evs).2)
  ∧ (∀ l, l ∈ (run st evs).2 → truthy (lastRuns st !! launch_key l) = false)
  ∧ (∀ l, l ∈ (run st evs).2 →
       truthy (lastRuns (run st evs).1 !! launch_key l) = true).
Proof.
  intros Hco Hclock.
  split; [|split; intros l; [by apply run_launch_falsy|by apply run_launch_marked]].
  revert st Hco. induction Hclock as [|ev evs Hev Hevs IH]; intros st Hco.
  - simpl. constructor.
  - rewrite run_cons. simpl. rewrite fmap_app. apply NoDup_app. split_and!.
    + apply step_keys_NoDup.
    + intros k (l1 & -> & Hl1)%list_elem_of_fmap (l2 & Hk & Hl2)%list_elem_of_fmap.
      apply (step_launch_marked st ev l1 Hev) in Hl1.
      apply run_launch_falsy in Hl2; [|by apply step_coherent|done].
      congruence.
    + apply IH. by apply step_coherent.
Qed.

(** The launches of a morning with a restart in between: the 6:00 batch
    (caught up) and the Portuguese 9:00 short at the first check, nothing at
    the repeated check after the restart, the English 9:20 short at the last
    one. *)
Example newYear_history :
  (run freshAgent [Check newYear0905; Restart; Check newYear0905; Check newYear0935]).2
  = [ {| launch_key := "2024-01-01_pt_long_batch_6:0"; launch_job := LongBatch |};
      {| launch_key := "2024-01-01_pt_short_9:0"; launch_job := ShortJob pt |};
      {| launch_key := "2024-01-01_en_short_9:20"; launch_job := ShortJob en |} ].
Proof. by vm_compute. Qed.

(** Keys carry the UTC date of the instant of the check, hours are local.  At
    UTC-3 the catch-up window of the 18:00 slots runs past midnight UTC, so
    the check of 21:05 looks the slots of that evening up under the keys of
    the next date and launches them again. *)
Example evening_checks_across_utc_midnight :
  (run freshAgent [Check evening1805; Check evening2105]).2
  = [ {| launch_key := "2024-01-01_pt_long_batch_18:0"; launch_job := LongBatch |};
      {| launch_key := "2024-01-01_pt_short_18:0"; launch_job := ShortJob pt |};
      {| launch_key := "2024-01-02_pt_long_batch_18:0"; launch_job := LongBatch |};
      {| launch_key := "2024-01-02_pt_short_18:0"; launch_job := ShortJob pt |};
      {| launch_key := "2024-01-02_en_short_18:20"; launch_job := ShortJob en |};
      {| launch_key := "2024-01-02_es_short_18:40"; launch_job := ShortJob es |} ].
Proof. by vm_compute. Qed.

(** C1: one slot occurrence that is launched twice.  At UTC-3, from an empty
    ledger, the checks of 18:05 and of 21:05 on 2024-01-01 fall on the same
    local date, the first in the scheduled hour of the 18:00 batch of that
    date and the second inside its catch-up window.  The first launches the
    batch under the key of 2024-01-01; the second, past midnight UTC, looks
    the batch up under the key of 2024-01-02, finds no entry, and launches
    the batch of that evening a second time.  The same happens to the
    Portuguese short video of 18:00. *)
Theorem evening_slot_launched_twice :
  let launches := (run freshAgent [Check evening1805; Check evening2105]).2 in
  localDate (tick_tz evening1805) (tick_now evening1805) = "2024-01-01"
  ∧ localDate (tick_tz evening2105) (tick_now evening2105) = "2024-01-01"
  ∧ JsDate.getHours (tick_tz evening1805) (tick_now evening1805) = 18
  ∧ JsDate.getHours (tick_tz evening2105) (tick_now evening2105) = 21
  ∧ launchesFor LongBatch launches
    = [ {| launch_key := "2024-01-01_pt_long_batch_18:0"; launch_job := LongBatch |};
        {| launch_key := "2024-01-02_pt_long_batch_18:0"; launch_job := LongBatch |} ]
  ∧ launch_key <$> launchesFor (ShortJob pt) launches
    = ["2024-01-01_pt_short_18:0"; "2024-01-02_pt_short_18:0"].
Proof. by vm_compute. Qed.

(** ** C6: the slot shown as next *)

Lemma consider_cases (now : Z) (lastRuns : Store) (acc : option Slot) (s : Slot) :
  (consider now lastRuns acc s = Some s
   ∧ now < slot_time s ∧ truthy (lastRuns !! slot_key s) = false
   ∧ ∀ a, acc = Some a → slot_time s < slot_time a)
  ∨ (consider now lastRuns acc s = acc
     ∧ (now < slot_time s → truthy (lastRuns !! slot_key s) = false →
        ∃ a, acc = Some a ∧ slot_time a ≤ slot_time s)).
Proof.
  unfold consider.
  destruct (Z.ltb_spec now (slot_time s)) as [Hfut|Hpast]; simpl; [|right; split; [done|lia]].
  destruct (truthy (lastRuns !! slot_key s)) eqn:Ht; simpl;
    [rewrite andb_false_r; right; split; [done|congruence]|].
  rewrite andb_true_r. destruct acc as [a|]; simpl.
  - destruct (Z.ltb_spec (slot_time s) (slot_time a)) as [Hlt|Hge].
    + left. split_and!; try done. by intros ? [= <-].
    + right. split; [done|]. intros _ _. by exists a.
  - left. by split_and!.
Qed.

(** What the innermost loop computes over the slots [cands], entered with
    [acc]: the earliest slot among [acc] and the future slots of [cands]
    with a falsy ledger entry. *)
Lemma consider_foldl (now : Z) (lastRuns : Store) (cands : list Slot)
    (acc : option Slot) :
  let r := foldl (consider now lastRuns) acc cands in
  (∀ f, r = Some f →
     acc = Some f
     ∨ (f ∈ cands ∧ now < slot_time f ∧ truthy (lastRuns !! slot_key f) = false))
  ∧ (∀ a, acc = Some a → ∃ f, r = Some f ∧ slot_time f ≤ slot_time a)
  ∧ (∀ s, s ∈ cands → now < slot_time s → truthy (lastRuns !! slot_key s) = false →
       ∃ f, r = Some f ∧ slot_time f ≤ slot_time s).
Proof.
  revert acc. induction cands as [|c cands IH]; intros acc; simpl.
  - split_and!.
    + intros f ->. by left.
    + intros a ->. by exists a.
    + by intros s ?%elem_of_nil.
  - destruct (IH (consider now lastRuns acc c)) as (IH1 & IH2 & IH3).
    destruct (consider_cases now lastRuns acc c)
      as [(Hc & Hfut & Hfalsy & Hbeat) | (Hc & Hkeep)].
    + split_and!.
      * intros f Hf. destruct (IH1 f Hf) as [Hacc|(Hin & ? & ?)].
        -- rewrite Hc in Hacc. injection Hacc as <-. right.
           split_and!; [apply list_elem_of_here | done..].
        -- right. split_and!; [by apply list_elem_of_further | done..].
      * intros a Ha. destruct (IH2 c Hc) as (f & Hf & Hle).
        exists f. split; [done|]. specialize (Hbeat a Ha). lia.
      * intros s [->|Hin]%elem_of_cons Hs Hsf.
        -- destruct (IH2 c Hc) as (f & Hf & Hle). by exists f.
        -- by apply IH3.
    + rewrite Hc in IH1, IH2, IH3 |- *. split_and!.
      * intros f Hf. destruct (IH1 f Hf) as [Hacc|(Hin & ? & ?)]; [by left|].
        right. split_and!; [by apply list_elem_of_further | done..].
      * done.
      * intros s [->|Hin]%elem_of_cons Hs Hsf.
        -- destruct (Hkeep Hs Hsf) as (a & Ha & Hle).
           destruct (IH2 a Ha) as (f & Hf & Hle'). exists f. split; [done|lia].
        -- by apply IH3.
Qed.

(** At 09:05 at UTC-3 with the 12:00 batch already in the ledger, the next
    batch shown is the one of 18:00 today (21:00 UTC). *)
Example next_long_batch_skips_consumed :
  closestLongBatchJob (JsDate.fixedZone (-180)) 1704110700000 3
    (markConsumed "2024-01-01_pt_long_batch_12:0" 1704110700003 ∅)
  = Some {| slot_time := 1704142800000;
            slot_key := "2024-01-01_pt_long_batch_18:0";
            slot_job := LongBatch; slot_hour := 18; slot_day := 0 |}.
Proof. by vm_compute. Qed.

(** At 09:05 at UTC-3 with an empty ledger, the next short video shown is
    the English one of 09:20: the Portuguese one of 09:00 is past. *)
Example next_short_job_at_0905 :
  closestShortJob (JsDate.fixedZone (-180)) 1704110700000 3 ∅
  = Some {| slot_time := 1704111600000;
            slot_key := "2024-01-01_en_short_9:20";
            slot_job := ShortJob en; slot_hour := 9; slot_day := 0 |}.
Proof. by vm_compute. Qed.


(** For a cadence that is a count, [slice0] keeps the leading [cadence]
    entries of the schedule. *)
Lemma slice0_take {A} (cadence : Z) (arr : list A) :
  0 ≤ cadence → slice0 cadence arr = take (Z.to_nat cadence) arr.
Proof.
  intros Hc. unfold slice0.
  destruct (Z.ltb_spec cadence 0); [lia | done].
Qed.

(** * Properties of the retry wrapper *)

Lemma isRateLimit_spec (error : JsError) :
  isRateLimit error = true ↔ RateLimitError error.
Proof.
  unfold isRateLimit, RateLimitError, strictEq.
  rewrite !orb_true_iff, !bool_decide_eq_true. tauto.
Qed.

Lemma isRateLimit_false (error : JsError) :
  isRateLimit error = false ↔ ¬ RateLimitError error.
Proof. rewrite <-isRateLimit_spec. by destruct (isRateLimit error). Qed.

Section Retry.

Context {W T : Type}.
Implicit Types (fn : Async W T) (b : Bench W).

(** One round of the wrapper, by the result of the invocation it starts with. *)
Lemma callWithRetry_fulfilled fn retries delay b v w' :
  fn (bench_world b) = (Ok v, w') →
  callWithRetry benchSleep (benchInvoke fn) retries delay b
  = (Ok v, {| bench_world := w';
              bench_invocations := S (bench_invocations b);
              bench_waits := bench_waits b |}).
Proof.
  intros Hfn. destruct retries; simpl; unfold tryCatch, benchInvoke; by rewrite Hfn.
Qed.

Lemma callWithRetry_retry fn retries delay b error w' :
  fn (bench_world b) = (Throw error, w') → RateLimitError error →
  callWithRetry benchSleep (benchInvoke fn) (S retries) delay b
  = callWithRetry benchSleep (benchInvoke fn) retries (delay * 2)
      {| bench_world := w';
         bench_invocations := S (bench_invocations b);
         bench_waits := bench_waits b ++ [delay] |}.
Proof.
  intros Hfn Hrl%isRateLimit_spec. simpl. unfold tryCatch at 1, benchInvoke at 1.
  rewrite Hfn, Hrl. reflexivity.
Qed.

Lemma callWithRetry_fatal fn retries delay b error w' :
  fn (bench_world b) = (Throw error, w') → ¬ RateLimitError error →
  callWithRetry benchSleep (benchInvoke fn) retries delay b
  = (Throw error, {| bench_world := w';
                     bench_invocations := S (bench_invocations b);
                     bench_waits := bench_waits b |}).
Proof.
  intros Hfn Hrl%isRateLimit_false.
  destruct retries; simpl; unfold tryCatch, benchInvoke; rewrite Hfn; [done|].
  by rewrite Hrl.
Qed.

Lemma callWithRetry_exhausted fn delay b error w' :
  fn (bench_world b) = (Throw error, w') →
  callWithRetry benchSleep (benchInvoke fn) 0 delay b
  = (Throw error, {| bench_world := w';
                     bench_invocations := S (bench_invocations b);
                     bench_waits := bench_waits b |}).
Proof. intros Hfn. simpl. unfold tryCatch, benchInvoke. by rewrite Hfn. Qed.

(** C3: under the default policy (3 retries, first delay 2000 ms, doubling),
    an operation rejected with a rate-limit-class error on its first two
    invocations and fulfilled on the third is invoked exactly three times,
    the waits made are 2000 ms and then 4000 ms, and its value is returned;
    an operation rejected with an error outside that class is invoked exactly
    once and the wrapper rejects with that error without waiting. *)
Theorem callWithRetry_default_policy fn b :
  (∀ e1 w1 e2 w2 v w3,
     fn (bench_world b) = (Throw e1, w1) → RateLimitError e1 →
     fn w1 = (Throw e2, w2) → RateLimitError e2 →
     fn w2 = (Ok v, w3) →
     ∃ b', callWithRetry benchSleep (benchInvoke fn) defaultRetries defaultDelay b
           = (Ok v, b')
       ∧ bench_world b' = w3
       ∧ bench_invocations b' = (bench_invocations b + 3)%nat
       ∧ bench_waits b' = bench_waits b ++ [2000; 4000]
       ∧ totalWait b' = totalWait b + (2000 + 4000))
  ∧ (∀ e w1,
       fn (bench_world b) = (Throw e, w1) → ¬ RateLimitError e →
       ∃ b', callWithRetry benchSleep (benchInvoke fn) defaultRetries defaultDelay b
             = (Throw e, b')
         ∧ bench_world b' = w1
         ∧ bench_invocations b' = (bench_invocations b + 1)%nat
         ∧ bench_waits b' = bench_waits b).
Proof.
  unfold defaultRetries, defaultDelay. split.
  - intros e1 w1 e2 w2 v w3 H1 R1 H2 R2 H3.
    eexists. split.
    { erewrite callWithRetry_retry by eassumption.
      erewrite callWithRetry_retry by eassumption.
      by erewrite callWithRetry_fulfilled by eassumption. }
    simpl. split_and!; [done | lia | by rewrite <-app_assoc |].
    unfold totalWait. simpl. rewrite <-app_assoc. simpl.
    induction (bench_waits b) as [|x l IH]; simpl; lia.
  - intros e w1 H1 R1. eexists. split.
    { by erewrite callWithRetry_fatal by eassumption. }
    simpl. split_and!; [done | lia | done].
Qed.

End Retry.

Lemma callWithRetry_default_policy_witness :
  ∃ b', callWithRetry benchSleep
          (benchInvoke (failsThen [quotaError; tooManyRequests] "amen"))
          defaultRetries defaultDelay freshBench = (Ok "amen", b')
    ∧ bench_world b' = 3%nat
    ∧ bench_invocations b' = 3%nat
    ∧ bench_waits b' = [2000; 4000]
    ∧ totalWait b' = 6000.
Proof.
  refine (proj1 (callWithRetry_default_policy
                   (failsThen [quotaError; tooManyRequests] "amen") freshBench)
            quotaError 1%nat tooManyRequests 2%nat "amen" 3%nat _ _ _ _ _).
  - reflexivity.
  - right. left. reflexivity.
  - reflexivity.
  - left. reflexivity.
  - reflexivity.
Defined.

(** With the retries used up the wrapper gives up, rate limit or not: four
    rejections in a row mean four invocations, waits of 2, 4 and 8 seconds,
    and the last error rejected. *)
Example callWithRetry_gives_up :
  callWithRetry benchSleep
    (benchInvoke (failsThen [quotaError; quotaError; quotaError; tooManyRequests] "amen"))
    defaultRetries defaultDelay freshBench
  = (Throw tooManyRequests,
     {| bench_world := 4%nat; bench_invocations := 4;
        bench_waits := [2000; 4000; 8000] |}).
Proof. reflexivity. Qed.

(** * Properties of the pipeline *)

(** ** Running async code step by step *)

Lemma bind_inv {Σ A B} (m : Async Σ A) (k : A → Async Σ B) (s : Σ)
    (r : outcome B) (s' : Σ) :
  (m ≫= k) s = (r, s') →
  (∃ error, m s = (Throw error, s') ∧ r = Throw error)
  ∨ (∃ a s1, m s = (Ok a, s1) ∧ k a s1 = (r, s')).
Proof.
  unfold mbind, Async_bind. destruct (m s) as [[a|error] s1].
  - intros Hk. right. by exists a, s1.
  - intros [= <- <-]. left. by exists error.
Qed.

Lemma ret_inv {Σ A} (a : A) (s : Σ) (r : outcome A) (s' : Σ) :
  (mret a : Async Σ A) s = (r, s') → r = Ok a ∧ s' = s.
Proof. by intros [= <- <-]. Qed.

Lemma throw_inv {Σ A} (error : JsError) (s : Σ) (r : outcome A) (s' : Σ) :
  throw error s = (r, s') → r = Throw error ∧ s' = s.
Proof. by intros [= <- <-]. Qed.

Section PipelineFacts.

Context {W : Type} (svc : Services W).
Implicit Types (s : Sys W) (new : list Call).

Lemma remote_inv {A} (c : Call) (op : Async W A) s (r : outcome A) s' :
  remote c op s = (r, s') →
  ∃ w', op (world s) = (r, w') ∧ s' = withWorld w' (logCall c s).
Proof.
  unfold remote. destruct (op (world s)) as [r0 w'].
  intros [= <- <-]. by exists w'.
Qed.

Lemma sleep_inv (delay : Z) s (r : outcome ()) s' :
  sleep delay s = (r, s') → r = Ok () ∧ s' = logSleep delay s.
Proof. by intros [= <- <-]. Qed.

Lemma now_inv s (r : outcome Z) s' :
  now svc s = (r, s') → ∃ t w', r = Ok t ∧ s' = withWorld w' s.
Proof.
  unfold now. destruct (dateNow svc (world s)) as [t w'].
  intros [= <- <-]. by exists t, w'.
Qed.

(** ** Stretches that only generate *)

Lemma generates_refl s : generates s s [].
Proof. unfold generates. by rewrite app_nil_r. Qed.

Lemma generates_trans s s1 s2 new1 new2 :
  generates s s1 new1 → generates s1 s2 new2 → generates s s2 (new1 ++ new2).
Proof.
  unfold generates. intros (-> & -> & -> & -> & -> & ->) (-> & -> & -> & -> & -> & ->).
  by rewrite app_assoc.
Qed.

Lemma generates_remote (c : Call) (w' : W) s :
  generates s (withWorld w' (logCall c s)) [c].
Proof. done. Qed.

Lemma generates_sleep (delay : Z) s : generates s (logSleep delay s) [].
Proof. unfold generates. simpl. by rewrite app_nil_r. Qed.

(** *** 1. The text assets *)

Lemma generateTextAssets_spec (jobLang : string) (jobType : JobType)
    (theme : string) (subthemes : list string) s r s' :
  generateTextAssets svc jobLang jobType theme subthemes s = (r, s') →
  ∃ new, generates s s' new ∧ Forall plainCall new
    ∧ guidedPrayerCalls new
      = match jobType with
        | long => [GenerateGuidedPrayer theme jobLang]
        | short => []
        end
    ∧ (∀ prayer post, r = Ok (prayer, post) → jobType = long →
         ∃ w1 rest, generateGuidedPrayer svc theme jobLang (world s) = (Ok prayer, w1)
           ∧ new = GenerateGuidedPrayer theme jobLang :: rest).
Proof.
  unfold generateTextAssets. intros H.
  match type of H with (?m ≫= _) s = _ => set (texts := m) in H end.
  (* the two text calls *)
  assert (∀ r0 s1, texts s = (r0, s1) →
            ∃ new, generates s s1 new ∧ Forall plainCall new
              ∧ guidedPrayerCalls new
                = match jobType with
                  | long => [GenerateGuidedPrayer theme jobLang]
                  | short => []
                  end
              ∧ (∀ prayer post, r0 = Ok (prayer, post) → jobType = long →
                   ∃ w1 rest,
                     generateGuidedPrayer svc theme jobLang (world s) = (Ok prayer, w1)
                     ∧ new = GenerateGuidedPrayer theme jobLang :: rest)) as Htexts.
  { intros r0 s1 Ht. subst texts. destruct jobType.
    - apply bind_inv in Ht as [(? & (w1 & _ & ->)%remote_inv & ->)
                              | (p & ? & (w1 & Hp & ->)%remote_inv & Ht)].
      { exists [GenerateGuidedPrayer theme jobLang].
        by split_and!; [apply generates_remote|repeat constructor|..]. }
      apply bind_inv in Ht as [(? & [? _]%sleep_inv & _) | (? & ? & [_ ->]%sleep_inv & Ht)];
        [done|].
      exists [GenerateGuidedPrayer theme jobLang;
              GenerateYouTubeLongPost theme subthemes jobLang].
      apply bind_inv in Ht as [(? & (w2 & _ & ->)%remote_inv & ->)
                              | (q & ? & (w2 & _ & ->)%remote_inv & [-> ->]%ret_inv)].
      + split_and!; [|by repeat constructor|done..].
        unfold generates. simpl. by rewrite <-app_assoc.
      + split_and!; [|by repeat constructor|done|].
        * unfold generates. simpl. by rewrite <-app_assoc.
        * intros prayer post [= <- _] _. by eauto.
    - apply bind_inv in Ht as [(? & (w1 & _ & ->)%remote_inv & ->)
                              | (p & ? & (w1 & Hp & ->)%remote_inv & Ht)].
      { exists [GenerateShortPrayer theme jobLang].
        by split_and!; [apply generates_remote|repeat constructor|..]. }
      apply bind_inv in Ht as [(? & [? _]%sleep_inv & _) | (? & ? & [_ ->]%sleep_inv & Ht)];
        [done|].
      exists [GenerateShortPrayer theme jobLang; GenerateSocialMediaPost p jobLang].
      apply bind_inv in Ht as [(? & (w2 & _ & ->)%remote_inv & ->)
                              | (q & ? & (w2 & _ & ->)%remote_inv & [-> ->]%ret_inv)];
        (split_and!; [|by repeat constructor|done..]);
        unfold generates; simpl; by rewrite <-app_assoc. }
  (* the check on what came back *)
  apply bind_inv in H as [(error & H & ->) | ([prayer post] & s1 & H & Hcheck)].
  - destruct (Htexts _ _ H) as (new & ? & ? & ? & _). exists new. by split_and!.
  - destruct (Htexts _ _ H) as (new & Hgen & Hplain & Hcalls & Hprov).
    exists new.
    destruct post as [post0|]; [destruct (isEmpty prayer)|];
      first [apply throw_inv in Hcheck as [-> ->] | apply ret_inv in Hcheck as [-> ->]];
      (split_and!; [done..|]); try done.
    intros prayer' post' [= <- <-] Hlong. by apply (Hprov prayer (Some post0)).
Qed.

(** *** 2. The media assets *)

Lemma generateAudio_spec (jobType : JobType) (prayer : string) s r s' :
  generateAudio svc jobType prayer s = (r, s') →
  ∃ new, generates s s' new ∧ Forall plainCall new ∧ guidedPrayerCalls new = [].
Proof.
  unfold generateAudio. intros H.
  exists [GenerateSpeech prayer
            match jobType with long => Some dialogueSpeakers | short => None end].
  split_and!; [|by repeat constructor|done].
  apply bind_inv in H as [(? & (w1 & _ & ->)%remote_inv & _)
                         | (audioB64 & s1 & (w1 & _ & ->)%remote_inv & H)]; [done|].
  destruct (isEmpty audioB64); [by apply throw_inv in H as [_ ->]|].
  apply bind_inv in H as [(? & H & _) | (pcm & s2 & H & [_ ->]%ret_inv)].
  - unfold liftOutcome in H. by injection H as _ <-.
  - unfold liftOutcome in H. by injection H as _ <-.
Qed.

(** The image calls a stretch of calls may hold when no image is shared:
    none, or one call with the aspect ratio of the job type. *)
Lemma resolveImage_spec (jobLang : string) (jobType : JobType)
    (prayer : string) (post : Post) (sharedImageBlob : option Blob) s r s' :
  resolveImage svc jobLang jobType prayer post sharedImageBlob s = (r, s') →
  ∃ new, generates s s' new ∧ Forall (λ c, isRecordingCall c = false) new
    ∧ guidedPrayerCalls new = []
    ∧ match sharedImageBlob with
      | Some blob => new = [] ∧ r = Ok blob
      | None =>
          (imageCalls new = [] ∧ ∃ error, r = Throw error)
          ∨ (∃ prompt, imageCalls new
               = [GenerateImageFromPrayer prompt (aspectRatioOf jobType) imageModel])
      end.
Proof.
  unfold resolveImage. intros H. destruct sharedImageBlob as [blob|].
  - apply ret_inv in H as [-> ->]. exists []. by split_and!; [apply generates_refl|..].
  - apply bind_inv in H as [(error & (w1 & _ & ->)%remote_inv & ->)
                           | (visualPrompt & s1 & (w1 & _ & ->)%remote_inv & H)].
    { exists [CreateThumbnailPromptFromPost (post_title post) (post_description post)
                prayer jobLang].
      split_and!; [apply generates_remote|by repeat constructor|done|].
      left. split; [done|by eexists]. }
    apply bind_inv in H as [(error & (w2 & _ & ->)%remote_inv & ->)
                           | (imageB64 & s2 & (w2 & _ & ->)%remote_inv & H)].
    { exists [CreateThumbnailPromptFromPost (post_title post) (post_description post)
                prayer jobLang;
              GenerateImageFromPrayer visualPrompt (aspectRatioOf jobType) imageModel].
      split_and!; [|by repeat constructor|done|right; by eexists].
      unfold generates. simpl. by rewrite <-app_assoc. }
    destruct (isEmpty imageB64).
    + apply throw_inv in H as [-> ->].
      exists [CreateThumbnailPromptFromPost (post_title post) (post_description post)
                prayer jobLang;
              GenerateImageFromPrayer visualPrompt (aspectRatioOf jobType) imageModel].
      split_and!; [|by repeat constructor|done|right; by eexists].
      unfold generates. simpl. by rewrite <-app_assoc.
    + apply remote_inv in H as (w3 & _ & ->).
      exists [CreateThumbnailPromptFromPost (post_title post) (post_description post)
                prayer jobLang;
              GenerateImageFromPrayer visualPrompt (aspectRatioOf jobType) imageModel;
              Fetch (dataUrl imageB64)].
      split_and!; [|by repeat constructor|done|right; by eexists].
      unfold generates. simpl. by rewrite <-!app_assoc.
Qed.

Lemma imageCalls_app (l k : list Call) : imageCalls (l ++ k) = imageCalls l ++ imageCalls k.
Proof. apply List.filter_app. Qed.

Lemma imageCalls_plain (l : list Call) : Forall plainCall l → imageCalls l = [].
Proof.
  induction 1 as [|c l [_ Hc] _ IH]; [done|].
  unfold imageCalls in *. simpl. by rewrite Hc.
Qed.

Lemma guidedPrayerCalls_app (l k : list Call) :
  guidedPrayerCalls (l ++ k) = guidedPrayerCalls l ++ guidedPrayerCalls k.
Proof. apply List.filter_app. Qed.

Lemma recordedItems_app (l k : list Call) :
  recordedItems (l ++ k) = recordedItems l ++ recordedItems k.
Proof. apply omap_app. Qed.

Lemma recordedItems_none (l : list Call) :
  Forall (λ c, isRecordingCall c = false) l → recordedItems l = [].
Proof.
  induction 1 as [|c l Hc _ IH]; [done|].
  unfold recordedItems in *. by destruct c; simpl in *.
Qed.

Lemma plainCall_not_recording (l : list Call) :
  Forall plainCall l → Forall (λ c, isRecordingCall c = false) l.
Proof. intros H. eapply Forall_impl; [exact H|]. by intros c [? _]. Qed.

(** *** The generation stages together *)

Lemma generateAssets_spec (jobLang : string) (jobType : JobType)
    (theme : string) (subthemes : list string) (sharedImageBlob : option Blob) s r s' :
  generateAssets svc jobLang jobType theme subthemes sharedImageBlob s = (r, s') →
  ∃ new, generates s s' new ∧ Forall (λ c, isRecordingCall c = false) new
    ∧ guidedPrayerCalls new
      = match jobType with
        | long => [GenerateGuidedPrayer theme jobLang]
        | short => []
        end
    ∧ match sharedImageBlob with
      | Some _ => imageCalls new = []
      | None =>
          (imageCalls new = [] ∧ ∃ error, r = Throw error)
          ∨ (∃ prompt, imageCalls new
               = [GenerateImageFromPrayer prompt (aspectRatioOf jobType) imageModel])
      end
    ∧ (∀ prayer post audioBlob imageBlob,
         r = Ok (prayer, post, audioBlob, imageBlob) → jobType = long →
         ∃ w1 rest, generateGuidedPrayer svc theme jobLang (world s) = (Ok prayer, w1)
           ∧ new = GenerateGuidedPrayer theme jobLang :: rest).
Proof.
  unfold generateAssets. intros H.
  apply bind_inv in H as [(error & H & ->) | ([prayer post] & s1 & Htext & H)].
  { apply generateTextAssets_spec in H as (new & Hgen & Hplain & Hgp & _).
    exists new. split_and!; [done|by apply plainCall_not_recording|done| |done].
    rewrite (imageCalls_plain _ Hplain). destruct sharedImageBlob; [done|].
    left. split; [done|by eexists]. }
  apply generateTextAssets_spec in Htext as (new1 & Hgen1 & Hplain1 & Hgp1 & Hprov).
  apply bind_inv in H as [(error & H & ->) | (audioBlob & s2 & Haudio & H)].
  { apply generateAudio_spec in H as (new2 & Hgen2 & Hplain2 & Hgp2).
    exists (new1 ++ new2).
    split_and!; [by eapply generates_trans| | | |done].
    - apply Forall_app. split; by apply plainCall_not_recording.
    - by rewrite guidedPrayerCalls_app, Hgp1, Hgp2, app_nil_r.
    - rewrite imageCalls_app, !imageCalls_plain by done.
      destruct sharedImageBlob; [done|]. left. split; [done|by eexists]. }
  apply generateAudio_spec in Haudio as (new2 & Hgen2 & Hplain2 & Hgp2).
  assert (guidedPrayerCalls (new1 ++ new2)
          = match jobType with
            | long => [GenerateGuidedPrayer theme jobLang]
            | short => []
            end) as Hgp12
    by by rewrite guidedPrayerCalls_app, Hgp1, Hgp2, app_nil_r.
  apply bind_inv in H as [(error & H & ->) | (imageBlob & s3 & Himage & H)].
  { apply resolveImage_spec in H as (new3 & Hgen3 & Hrec3 & Hgp3 & Himg).
    exists (new1 ++ new2 ++ new3).
    split_and!; [by eapply generates_trans, generates_trans| | | |done].
    - rewrite !Forall_app. split_and!; [by apply plainCall_not_recording..|done].
    - by rewrite app_assoc, guidedPrayerCalls_app, Hgp12, Hgp3, app_nil_r.
    - rewrite !imageCalls_app, !imageCalls_plain by done. simpl.
      destruct sharedImageBlob; [by destruct Himg as [-> _]|].
      destruct Himg as [[? _]|?]; [left; split; [done|by eexists] | by right]. }
  apply resolveImage_spec in Himage as (new3 & Hgen3 & Hrec3 & Hgp3 & Himg).
  apply ret_inv in H as [-> ->].
  exists (new1 ++ new2 ++ new3).
  split_and!; [by eapply generates_trans, generates_trans| | | |].
  - rewrite !Forall_app. split_and!; [by apply plainCall_not_recording..|done].
  - by rewrite app_assoc, guidedPrayerCalls_app, Hgp12, Hgp3, app_nil_r.
  - rewrite !imageCalls_app, !imageCalls_plain by done. simpl.
    destruct sharedImageBlob; [by destruct Himg as [-> _]|].
    destruct Himg as [[_ [? ?]]|?]; [done|by right].
  - intros prayer' post' a' i' [= <- <- <- <-] Hlong.
    destruct (Hprov prayer post eq_refl Hlong) as (w1 & rest & Hcall & ->).
    exists w1, (rest ++ new2 ++ new3). by split.
Qed.

(** *** 3. Saving to the history *)

Lemma saveToHistory_spec (jobLang : string) (jobType : JobType)
    (theme : string) (subthemes : list string)
    (prayer : string) (post : Post) (audioBlob imageBlob : Blob) s r s' :
  saveToHistory svc jobLang jobType theme subthemes prayer post audioBlob imageBlob s
  = (r, s') →
  inProgress s' = inProgress s ∧ ledger s' = ledger s
  ∧ consoleErrors s' = consoleErrors s
  ∧ ∃ new, calls s' = calls s ++ new ∧ imageCalls new = []
    ∧ guidedPrayerCalls new = []
    ∧ match r with
      | Ok _ =>
          ∃ item, recordedItems new = [item]
            ∧ history s' = jsSort byTimestampDesc (item :: history s)
            ∧ item_prayer item = prayer ∧ item_language item = jobLang
            ∧ item_type item = jobType
      | Throw _ => recordedItems new = [] ∧ history s' = history s
      end.
Proof.
  unfold saveToHistory, now, promiseAll2, idbSet, remote, modify, mbind, Async_bind.
  destruct (dateNow svc (world s)) as [t w1]. cbn.
  set (id := pretty t +:+ "-" +:+ jobLang +:+ "-" +:+ jobTypeCode jobType).
  destruct (idbWrite svc ("history_audio_" +:+ id) audioBlob w1) as [[[]|e1] w2]; cbn;
    destruct (idbWrite svc ("history_image_" +:+ id) imageBlob w2) as [[[]|e2] w3]; cbn;
    try (intros [= <- <-]; cbn; split_and!; try done;
         exists [IdbSet ("history_audio_" +:+ id); IdbSet ("history_image_" +:+ id)];
         by rewrite <-app_assoc).
  destruct (dateNow svc w3) as [timestamp w4]. cbn.
  intros [= <- <-]. cbn. split_and!; try done.
  eexists [IdbSet ("history_audio_" +:+ id); IdbSet ("history_image_" +:+ id);
           SetHistory _].
  split_and!; [by rewrite <-!app_assoc|done|done|].
  eexists. by split_and!.
Qed.

(** *** The whole run *)

Lemma generateAndSaveKit_spec (jobLang : string) (jobType : JobType)
    (theme : string) (subthemes : list string) (sharedImageBlob : option Blob) s r s' :
  generateAndSaveKit svc jobLang jobType theme subthemes sharedImageBlob s = (r, s') →
  inProgress s' = inProgress s ∧ ledger s' = ledger s
  ∧ consoleErrors s' = consoleErrors s
  ∧ ∃ new, calls s' = calls s ++ new
    ∧ guidedPrayerCalls new
      = match jobType with
        | long => [GenerateGuidedPrayer theme jobLang]
        | short => []
        end
    ∧ match sharedImageBlob with
      | Some _ => imageCalls new = []
      | None =>
          (imageCalls new = [] ∧ ∃ error, r = Throw error)
          ∨ (∃ prompt, imageCalls new
               = [GenerateImageFromPrayer prompt (aspectRatioOf jobType) imageModel])
      end
    ∧ match r with
      | Ok _ =>
          ∃ item, recordedItems new = [item]
            ∧ history s' = jsSort byTimestampDesc (item :: history s)
            ∧ item_language item = jobLang ∧ item_type item = jobType
            ∧ (jobType = long →
                 ∃ w1 rest,
                   generateGuidedPrayer svc theme jobLang (world s)
                   = (Ok (item_prayer item), w1)
                   ∧ new = GenerateGuidedPrayer theme jobLang :: rest)
      | Throw _ => recordedItems new = [] ∧ history s' = history s
      end.
Proof.
  unfold generateAndSaveKit. intros H.
  apply bind_inv in H
    as [(error & H & ->) | ([[[prayer post] audioBlob] imageBlob] & s1 & Hgen & H)].
  - apply generateAssets_spec in H
      as (new & (Hcalls & Hidb & Hhist & Hjobs & Hledger & Hcons) & Hrec & Hgp & Himg & _).
    split_and!; [done..|]. exists new.
    split_and!; [done|done| |by apply recordedItems_none|done].
    destruct sharedImageBlob; [done|].
    destruct Himg as [[? _]|?]; [left; split; [done|by eexists] | by right].
  - apply generateAssets_spec in Hgen
      as (new1 & (Hcalls & Hidb & Hhist & Hjobs & Hledger & Hcons) & Hrec & Hgp & Himg
          & Hprov).
    apply saveToHistory_spec in H
      as (Hjobs2 & Hledger2 & Hcons2 & new2 & Hcalls2 & Himg2 & Hgp2 & Hres).
    split_and!; [congruence..|].
    exists (new1 ++ new2). split_and!.
    + rewrite Hcalls2, Hcalls. by rewrite app_assoc.
    + by rewrite guidedPrayerCalls_app, Hgp, Hgp2, app_nil_r.
    + rewrite imageCalls_app, Himg2, app_nil_r.
      destruct sharedImageBlob; [done|].
      destruct Himg as [[_ [? ?]]|?]; [done|by right].
    + rewrite recordedItems_app, (recordedItems_none _ Hrec). simpl.
      destruct r as [[]|error].
      * destruct Hres as (item & Hitem & Hh & Hp & Hl & Hty).
        exists item. split_and!; [done|by rewrite Hh, Hhist|done|done|].
        intros Hlong.
        destruct (Hprov prayer post audioBlob imageBlob eq_refl Hlong)
          as (w1 & rest & Hcall & ->).
        exists w1, (rest ++ new2). rewrite Hp. by split.
      * destruct Hres as [? ?]. split; [done|congruence].
Qed.


(** What a long-form run with a shared image records: at most one item, in
    its own language, whose text is the answer to the call that opens the
    run, the only call for a guided prayer the run makes. *)
Lemma generateAndSaveKit_long_items (jobLang theme : string) (subthemes : list string)
    (imageBlob : Blob) s r s' :
  generateAndSaveKit svc jobLang long theme subthemes (Some imageBlob) s = (r, s') →
  inProgress s' = inProgress s ∧ ledger s' = ledger s
  ∧ consoleErrors s' = consoleErrors s
  ∧ ∃ new, calls s' = calls s ++ new
    ∧ guidedPrayerCalls new = [GenerateGuidedPrayer theme jobLang]
    ∧ ∀ item, item ∈ recordedItems new →
        item_language item = jobLang
        ∧ ∃ w1 rest,
            generateGuidedPrayer svc theme jobLang (world s) = (Ok (item_prayer item), w1)
            ∧ new = GenerateGuidedPrayer theme jobLang :: rest.
Proof.
  intros (Hj & Hl & Hc & new & Hcalls & Hgp & _ & Hres)%generateAndSaveKit_spec.
  split_and!; [done..|]. exists new. split_and!; [done..|].
  intros item Hin. destruct r as [[]|error].
  - destruct Hres as (item0 & Hitems & _ & Hlang & _ & Hprov).
    rewrite Hitems in Hin. apply list_elem_of_singleton in Hin as ->.
    split; [done|]. by apply Hprov.
  - destruct Hres as [Hnone _]. rewrite Hnone in Hin. by apply elem_of_nil in Hin.
Qed.

(** ** The long-form batch *)

(** The items a stretch of calls [kits] records, each with the call in
    [kits] that produced its text; the Portuguese one opens the stretch, from
    the world [w0]. *)
Lemma batch_items_first (theme jobLang : string) (w0 : W) (new : list Call) :
  (∀ item, item ∈ recordedItems new →
     item_language item = jobLang
     ∧ ∃ w1 rest, generateGuidedPrayer svc theme jobLang w0 = (Ok (item_prayer item), w1)
         ∧ new = GenerateGuidedPrayer theme jobLang :: rest) →
  ∀ item, item ∈ recordedItems new →
    ∃ before after w w',
      new = before ++ GenerateGuidedPrayer theme (item_language item) :: after
      ∧ generateGuidedPrayer svc theme (item_language item) w = (Ok (item_prayer item), w')
      ∧ (item_language item = jobLang → before = [] ∧ w = w0).
Proof.
  intros Hnew item Hin. destruct (Hnew item Hin) as (Hlang & w1 & rest & Hcall & ->).
  exists [], rest, w0, w1. rewrite Hlang. by split_and!.
Qed.

Lemma batch_items_app (theme first jobLang : string) (w0 wk : W) (kits new : list Call) :
  jobLang ≠ first →
  (∀ item, item ∈ recordedItems kits →
     ∃ before after w w',
       kits = before ++ GenerateGuidedPrayer theme (item_language item) :: after
       ∧ generateGuidedPrayer svc theme (item_language item) w = (Ok (item_prayer item), w')
       ∧ (item_language item = first → before = [] ∧ w = w0)) →
  (∀ item, item ∈ recordedItems new →
     item_language item = jobLang
     ∧ ∃ w1 rest, generateGuidedPrayer svc theme jobLang wk = (Ok (item_prayer item), w1)
         ∧ new = GenerateGuidedPrayer theme jobLang :: rest) →
  ∀ item, item ∈ recordedItems (kits ++ new) →
    ∃ before after w w',
      kits ++ new = before ++ GenerateGuidedPrayer theme (item_language item) :: after
      ∧ generateGuidedPrayer svc theme (item_language item) w = (Ok (item_prayer item), w')
      ∧ (item_language item = first → before = [] ∧ w = w0).
Proof.
  intros Hne Hkits Hnew item. rewrite recordedItems_app, elem_of_app. intros [Hin|Hin].
  - destruct (Hkits item Hin) as (before & after & w & w' & -> & Hcall & Hfirst).
    exists before, (after ++ new), w, w'. split_and!; [|done..].
    by rewrite <-app_assoc.
  - destruct (Hnew item Hin) as (Hlang & w1 & rest & Hcall & ->).
    exists kits, rest, wk, w1. rewrite Hlang. split_and!; [done..|].
    intros ?. by destruct Hne.
Qed.

Lemma batch_runs_spec (theme : string) (subthemes : list string) (imageBlob : Blob)
    s r s' :
  (_ ← generateAndSaveKit svc "pt" long theme subthemes (Some imageBlob);
   _ ← sleep 2000;
   _ ← generateAndSaveKit svc "en" long theme subthemes (Some imageBlob);
   _ ← sleep 2000;
   generateAndSaveKit svc "es" long theme subthemes (Some imageBlob)) s = (r, s') →
  inProgress s' = inProgress s ∧ ledger s' = ledger s
  ∧ consoleErrors s' = consoleErrors s
  ∧ ∃ kits, calls s' = calls s ++ kits
    ∧ (∃ n, (1 ≤ n)%nat
         ∧ guidedPrayerCalls kits
           = take n [GenerateGuidedPrayer theme "pt";
                     GenerateGuidedPrayer theme "en";
                     GenerateGuidedPrayer theme "es"])
    ∧ ∀ item, item ∈ recordedItems kits →
        ∃ before after w w',
          kits = before ++ GenerateGuidedPrayer theme (item_language item) :: after
          ∧ generateGuidedPrayer svc theme (item_language item) w
            = (Ok (item_prayer item), w')
          ∧ (item_language item = "pt" → before = [] ∧ w = world s).
Proof.
  intros H.
  apply bind_inv in H as [(? & H & _) | ([] & s1 & Hpt & H)].
  { apply generateAndSaveKit_long_items in H as (? & ? & ? & new1 & ? & Hgp1 & Hitems1).
    split_and!; [done..|]. exists new1. split_and!; [done| |by apply batch_items_first].
    exists 1%nat. by split. }
  apply generateAndSaveKit_long_items in Hpt
    as (Hj1 & Hl1 & Hc1 & new1 & Hcalls1 & Hgp1 & Hitems1).
  pose proof (batch_items_first theme "pt" _ _ Hitems1) as Hfirst1. clear Hitems1.
  apply bind_inv in H as [(? & [? _]%sleep_inv & _) | ([] & ? & [_ ->]%sleep_inv & H)];
    [done|].
  apply bind_inv in H as [(? & H & _) | ([] & s2 & Hen & H)].
  { apply generateAndSaveKit_long_items in H
      as (Hj2 & Hl2 & Hc2 & new2 & Hcalls2 & Hgp2 & Hitems2).
    simpl in *. split_and!; [congruence..|]. exists (new1 ++ new2).
    split_and!; [by rewrite Hcalls2, Hcalls1, app_assoc| |].
    - exists 2%nat. split; [lia|]. by rewrite guidedPrayerCalls_app, Hgp1, Hgp2.
    - by eapply (batch_items_app theme "pt" "en"). }
  apply generateAndSaveKit_long_items in Hen
    as (Hj2 & Hl2 & Hc2 & new2 & Hcalls2 & Hgp2 & Hitems2).
  simpl in Hj2, Hl2, Hc2, Hcalls2.
  pose proof (batch_items_app theme "pt" "en" _ _ new1 new2 ltac:(done) Hfirst1 Hitems2)
    as Hitems12.
  apply bind_inv in H as [(? & [? _]%sleep_inv & _) | ([] & ? & [_ ->]%sleep_inv & H)];
    [done|].
  apply generateAndSaveKit_long_items in H
    as (Hj3 & Hl3 & Hc3 & new3 & Hcalls3 & Hgp3 & Hitems3).
  simpl in *. split_and!; [congruence..|]. exists ((new1 ++ new2) ++ new3).
  split_and!; [by rewrite Hcalls3, Hcalls2, Hcalls1, !app_assoc| |].
  - exists 3%nat. split; [lia|]. by rewrite !guidedPrayerCalls_app, Hgp1, Hgp2, Hgp3.
  - by eapply (batch_items_app theme "pt" "es").
Qed.

Lemma longVideoBatchBody_spec s r s' :
  longVideoBatchBody svc s = (r, s') →
  inProgress s' = inProgress s ∧ ledger s' = ledger s
  ∧ consoleErrors s' = consoleErrors s
  ∧ ∃ new, calls s' = calls s ++ new
    ∧ batchPrayerCalls new
    ∧ ∀ item, item ∈ recordedItems new → generatedApart svc (world s) new item.
Proof.
  unfold longVideoBatchBody. intros H.
  (* the shared-image stage: five calls, none of which records anything *)
  apply bind_inv in H as [(? & (w1 & _ & ->)%remote_inv & _)
                         | ([theme subthemes] & ? & (w1 & Htopic & ->)%remote_inv & H)].
  { split_and!; [done..|]. eexists [_].
    split_and!; [done|by left|by intros ? ?%elem_of_nil]. }
  apply bind_inv in H as [(? & (w2 & _ & ->)%remote_inv & _)
                         | (p1 & ? & (w2 & Hp1 & ->)%remote_inv & H)].
  { split_and!; [done..|]. eexists [_; _].
    split_and!; [simpl; by rewrite <-app_assoc| |by intros ? ?%elem_of_nil].
    right. by exists theme, 0%nat. }
  apply bind_inv in H as [(? & (w3 & _ & ->)%remote_inv & _)
                         | (visualPrompt & ? & (w3 & Hvp & ->)%remote_inv & H)].
  { split_and!; [done..|]. eexists [_; _; _].
    split_and!; [simpl; by rewrite <-!app_assoc| |by intros ? ?%elem_of_nil].
    right. by exists theme, 0%nat. }
  apply bind_inv in H as [(? & (w4 & _ & ->)%remote_inv & _)
                         | (imageB64 & ? & (w4 & Himg & ->)%remote_inv & H)].
  { split_and!; [done..|]. eexists [_; _; _; _].
    split_and!; [simpl; by rewrite <-!app_assoc| |by intros ? ?%elem_of_nil].
    right. by exists theme, 0%nat. }
  destruct (isEmpty imageB64).
  { apply throw_inv in H as [_ ->]. split_and!; [done..|]. eexists [_; _; _; _].
    split_and!; [simpl; by rewrite <-!app_assoc| |by intros ? ?%elem_of_nil].
    right. by exists theme, 0%nat. }
  apply bind_inv in H as [(? & (w5 & _ & ->)%remote_inv & _)
                         | (imageBlob & ? & (w5 & Hblob & ->)%remote_inv & H)].
  { split_and!; [done..|]. eexists [_; _; _; _; _].
    split_and!; [simpl; by rewrite <-!app_assoc| |by intros ? ?%elem_of_nil].
    right. by exists theme, 0%nat. }
  set (s5 := withWorld w5 _) in H.
  assert (calls s5 = calls s ++ [GetTrendingTopic "pt" long;
                       GenerateGuidedPrayer theme "pt";
                       CreateMediaPromptFromPrayer p1;
                       GenerateImageFromPrayer visualPrompt "16:9" imageModel;
                       Fetch (dataUrl imageB64)]) as Hcalls5
    by (simpl; by rewrite <-!app_assoc).
  assert (inProgress s5 = inProgress s ∧ ledger s5 = ledger s
          ∧ consoleErrors s5 = consoleErrors s ∧ world s5 = w5) as (Hj5 & Hl5 & Hc5 & Hw5)
    by done.
  clearbody s5.
  (* the three runs, each entered only if the one before was fulfilled *)
  apply batch_runs_spec in H as (Hj & Hl & Hc & kits & Hcalls & (n & Hn & Hgp) & Hitems).
  split_and!; [congruence..|].
  eexists. split_and!; [by rewrite Hcalls, Hcalls5, <-app_assoc| |].
  { right. exists theme, n. by rewrite guidedPrayerCalls_app, Hgp. }
  intros item Hin. rewrite recordedItems_app in Hin. simpl in Hin.
  exists theme, subthemes, w1, p1, w2, visualPrompt, w3, imageB64, w4, imageBlob,
    w5, kits.
  rewrite Hw5 in Hitems. split_and!; [done..| |by apply Hitems].
  exists n. split; [done|]. rewrite guidedPrayerCalls_app, Hgp. done.
Qed.

(** ** The shared-image stage of a batch *)

(** The stage is a sequence of calls on the world: what it yields is
    determined by the world it starts in. *)
Lemma sharedImageReady_unique (w0 : W) theme subthemes p1 visualPrompt imageB64 imageBlob w5
    theme' subthemes' p1' visualPrompt' imageB64' imageBlob' w5' :
  sharedImageReady svc w0 theme subthemes p1 visualPrompt imageB64 imageBlob w5 →
  sharedImageReady svc w0 theme' subthemes' p1' visualPrompt' imageB64' imageBlob' w5' →
  theme' = theme ∧ p1' = p1 ∧ visualPrompt' = visualPrompt ∧ imageB64' = imageB64.
Proof.
  intros (w1 & w2 & w3 & w4 & H1 & H2 & H3 & H4 & _ & _)
         (v1 & v2 & v3 & v4 & G1 & G2 & G3 & G4 & _ & _).
  rewrite H1 in G1. injection G1 as <- <- <-.
  rewrite H2 in G2. injection G2 as <- <-.
  rewrite H3 in G3. injection G3 as <- <-.
  rewrite H4 in G4. by injection G4 as <- <-.
Qed.

(** A batch either gets through its shared-image stage, and then starts the
    Portuguese run, or it is rejected in that stage, and then it has asked
    for a guided prayer once at most and has recorded nothing. *)
Lemma longVideoBatchBody_stage s r s' :
  longVideoBatchBody svc s = (r, s') →
  ∃ new, calls s' = calls s ++ new
    ∧ ((∃ theme subthemes p1 visualPrompt imageB64 imageBlob w5 kits n,
          sharedImageReady svc (world s) theme subthemes p1 visualPrompt imageB64
            imageBlob w5
          ∧ new = sharedImageCalls theme p1 visualPrompt imageB64 ++ kits
          ∧ (1 ≤ n)%nat
          ∧ guidedPrayerCalls kits
            = take n [GenerateGuidedPrayer theme "pt";
                      GenerateGuidedPrayer theme "en";
                      GenerateGuidedPrayer theme "es"])
       ∨ ((∀ theme subthemes p1 visualPrompt imageB64 imageBlob w5,
             ¬ sharedImageReady svc (world s) theme subthemes p1 visualPrompt imageB64
                 imageBlob w5)
          ∧ recordedItems new = []
          ∧ (length (guidedPrayerCalls new) ≤ 1)%nat)).
Proof.
  unfold longVideoBatchBody. intros H.
  apply bind_inv in H as [(? & (w1 & Htopic & ->)%remote_inv & _)
                         | ([theme subthemes] & ? & (w1 & Htopic & ->)%remote_inv & H)].
  { eexists [_]. split; [done|]. right. split_and!; [|done|simpl; lia].
    intros ??????? (? & ? & ? & ? & G1 & _). rewrite Htopic in G1. discriminate. }
  apply bind_inv in H as [(? & (w2 & Hp1 & ->)%remote_inv & _)
                         | (p1 & ? & (w2 & Hp1 & ->)%remote_inv & H)].
  { eexists [_; _]. split; [simpl; by rewrite <-app_assoc|].
    right. split_and!; [|done|simpl; lia].
    intros ??????? (? & ? & ? & ? & G1 & G2 & _).
    rewrite Htopic in G1. injection G1 as <- <- <-.
    simpl in Hp1. rewrite Hp1 in G2. discriminate. }
  apply bind_inv in H as [(? & (w3 & Hvp & ->)%remote_inv & _)
                         | (visualPrompt & ? & (w3 & Hvp & ->)%remote_inv & H)].
  { eexists [_; _; _]. split; [simpl; by rewrite <-!app_assoc|].
    right. split_and!; [|done|simpl; lia].
    intros ??????? (? & ? & ? & ? & G1 & G2 & G3 & _).
    rewrite Htopic in G1. injection G1 as <- <- <-.
    simpl in Hp1. rewrite Hp1 in G2. injection G2 as <- <-.
    simpl in Hvp. rewrite Hvp in G3. discriminate. }
  apply bind_inv in H as [(? & (w4 & Himg & ->)%remote_inv & _)
                         | (imageB64 & ? & (w4 & Himg & ->)%remote_inv & H)].
  { eexists [_; _; _; _]. split; [simpl; by rewrite <-!app_assoc|].
    right. split_and!; [|done|simpl; lia].
    intros ??????? (? & ? & ? & ? & G1 & G2 & G3 & G4 & _).
    rewrite Htopic in G1. injection G1 as <- <- <-.
    simpl in Hp1. rewrite Hp1 in G2. injection G2 as <- <-.
    simpl in Hvp. rewrite Hvp in G3. injection G3 as <- <-.
    simpl in Himg. rewrite Himg in G4. discriminate. }
  simpl in Hp1, Hvp, Himg.
  destruct (isEmpty imageB64) eqn:Hempty.
  { apply throw_inv in H as [_ ->].
    eexists [_; _; _; _]. split; [simpl; by rewrite <-!app_assoc|].
    right. split_and!; [|done|simpl; lia].
    intros ??????? (? & ? & ? & ? & G1 & G2 & G3 & G4 & Hne & _).
    rewrite Htopic in G1. injection G1 as <- <- <-.
    rewrite Hp1 in G2. injection G2 as <- <-.
    rewrite Hvp in G3. injection G3 as <- <-.
    rewrite Himg in G4. injection G4 as <- <-.
    apply Hne. unfold isEmpty in Hempty. by apply bool_decide_eq_true in Hempty. }
  apply bind_inv in H as [(? & (w5 & Hblob & ->)%remote_inv & _)
                         | (imageBlob & ? & (w5 & Hblob & ->)%remote_inv & H)].
  { eexists [_; _; _; _; _]. split; [simpl; by rewrite <-!app_assoc|].
    right. split_and!; [|done|simpl; lia].
    intros ??????? (? & ? & ? & ? & G1 & G2 & G3 & G4 & _ & G5).
    rewrite Htopic in G1. injection G1 as <- <- <-.
    rewrite Hp1 in G2. injection G2 as <- <-.
    rewrite Hvp in G3. injection G3 as <- <-.
    rewrite Himg in G4. injection G4 as <- <-.
    simpl in Hblob. rewrite Hblob in G5. discriminate. }
  simpl in Hblob.
  set (s5 := withWorld w5 _) in H.
  assert (calls s5 = calls s ++ sharedImageCalls theme p1 visualPrompt imageB64) as Hcalls5
    by (simpl; by rewrite <-!app_assoc).
  clearbody s5.
  apply batch_runs_spec in H as (_ & _ & _ & kits & Hcalls & (n & Hn & Hgp) & _).
  eexists. split; [by rewrite Hcalls, Hcalls5, <-app_assoc|].
  left. exists theme, subthemes, p1, visualPrompt, imageB64, imageBlob, w5, kits, n.
  split_and!; [|done..].
  exists w1, w2, w3, w4. split_and!; [done..| |done].
  unfold isEmpty in Hempty. by apply bool_decide_eq_false in Hempty.
Qed.

(** ** The launching jobs never reject *)

Lemma runAutomatedLongVideoBatch_spec s :
  ∃ s', runAutomatedLongVideoBatch svc s = (Ok (), s')
    ∧ ledger s' = ledger s
    ∧ inProgress s'
      = filter (λ job, job ∉ longJobIdentifiers) (inProgress s ++ longJobIdentifiers)
    ∧ (consoleErrors s' = consoleErrors s
       ∨ ∃ error, consoleErrors s'
           = consoleErrors s ++ [("Autonomous agent long video batch failed:", error)])
    ∧ ∃ new, calls s' = calls s ++ new
        ∧ batchPrayerCalls new
        ∧ ∀ item, item ∈ recordedItems new → generatedApart svc (world s) new item.
Proof.
  unfold runAutomatedLongVideoBatch, tryFinally, tryCatch, modify, mbind, Async_bind.
  set (s0 := setJobsInProgress _ s).
  destruct (longVideoBatchBody svc s0) as [[[]|error] s1] eqn:Hbody;
    apply longVideoBatchBody_spec in Hbody
      as (Hj & Hl & Hc & new & Hcalls & Hgp & Hitems);
    eexists; (split; [reflexivity|]); simpl; rewrite Hj, Hl, Hc;
    (split_and!; [done|done| |by exists new]).
  - by left.
  - right. by exists error.
Qed.

Lemma runAutomatedLongVideoBatch_stage s :
  ∃ new, calls (runAutomatedLongVideoBatch svc s).2 = calls s ++ new
    ∧ ((∃ theme subthemes p1 visualPrompt imageB64 imageBlob w5 kits n,
          sharedImageReady svc (world s) theme subthemes p1 visualPrompt imageB64
            imageBlob w5
          ∧ new = sharedImageCalls theme p1 visualPrompt imageB64 ++ kits
          ∧ (1 ≤ n)%nat
          ∧ guidedPrayerCalls kits
            = take n [GenerateGuidedPrayer theme "pt";
                      GenerateGuidedPrayer theme "en";
                      GenerateGuidedPrayer theme "es"])
       ∨ ((∀ theme subthemes p1 visualPrompt imageB64 imageBlob w5,
             ¬ sharedImageReady svc (world s) theme subthemes p1 visualPrompt imageB64
                 imageBlob w5)
          ∧ recordedItems new = []
          ∧ (length (guidedPrayerCalls new) ≤ 1)%nat)).
Proof.
  unfold runAutomatedLongVideoBatch, tryFinally, tryCatch, modify, mbind, Async_bind.
  set (s0 := setJobsInProgress _ s).
  destruct (longVideoBatchBody svc s0) as [[[]|error] s1] eqn:Hbody;
    apply longVideoBatchBody_stage in Hbody as (new & Hcalls & Hstage);
    by exists new.
Qed.


(** ** Sorting the history *)

Lemma sortInsert_perm {A} (compare : A → A → Z) (x : A) (l : list A) :
  sortInsert compare x l ≡ₚ x :: l.
Proof.
  induction l as [|y l IH]; simpl; [done|].
  destruct (compare x y <=? 0); [done|].
  rewrite IH. apply Permutation_swap.
Qed.

Lemma jsSort_perm {A} (compare : A → A → Z) (l : list A) : jsSort compare l ≡ₚ l.
Proof.
  induction l as [|x l IH]; simpl; [done|].
  unfold jsSort in *. simpl. by rewrite sortInsert_perm, IH.
Qed.

Lemma sortInsert_HdRel (a x : MarketingHistoryItem) (l : list MarketingHistoryItem) :
  item_timestamp x ≤ item_timestamp a →
  HdRel (λ a b, item_timestamp b ≤ item_timestamp a) a l →
  HdRel (λ a b, item_timestamp b ≤ item_timestamp a) a (sortInsert byTimestampDesc x l).
Proof.
  intros Hx Hl. destruct l as [|y l]; simpl; [by constructor|].
  destruct (byTimestampDesc x y <=? 0); constructor; [done|].
  by apply HdRel_inv in Hl.
Qed.

Lemma sortInsert_sorted (x : MarketingHistoryItem) (l : list MarketingHistoryItem) :
  timestampDescending l → timestampDescending (sortInsert byTimestampDesc x l).
Proof.
  unfold timestampDescending. induction 1 as [|y l Hsorted IH Hhd]; simpl.
  - by repeat constructor.
  - unfold byTimestampDesc at 1.
    destruct (Z.leb_spec (item_timestamp y - item_timestamp x) 0) as [Hle|Hgt].
    + constructor; [by constructor|]. constructor. lia.
    + constructor; [done|]. apply sortInsert_HdRel; [lia|done].
Qed.

(** Whatever order the collection was in, sorting it leaves it latest first. *)
Lemma jsSort_sorted (l : list MarketingHistoryItem) :
  timestampDescending (jsSort byTimestampDesc l).
Proof.
  induction l as [|x l IH]; [constructor|].
  unfold jsSort in *. simpl. by apply sortInsert_sorted.
Qed.

End PipelineFacts.

(** ** C7: the image-generation call *)

(** C7, as the text has it, fails for a run that is rejected before it gets
    to the image: with no shared image and the first text call rejected, no
    image-generation call is made at all. *)
Lemma rejected_run_makes_no_image_call :
  (generateAndSaveKit (scriptedServices (failsAt 0 malformedResponse))
     "en" short "hope" [] None freshSys).1 = Throw malformedResponse
  ∧ length (imageCalls (calls (generateAndSaveKit
              (scriptedServices (failsAt 0 malformedResponse))
              "en" short "hope" [] None freshSys).2)) ≠ 1%nat.
Proof. split; [by vm_compute | vm_compute; lia]. Qed.

(** C7 (amended): a run that is given a shared image never makes the
    image-generation call.  A run without one makes it at most once, with
    aspect ratio 9:16 for a short job and 16:9 for a long one, and makes it
    exactly once whenever the run is fulfilled. *)
Theorem image_generation_calls {W} (svc : Services W) (jobLang : string)
    (jobType : JobType) (theme : string) (subthemes : list string)
    (sharedImageBlob : option Blob) (s : Sys W) :
  let run := generateAndSaveKit svc jobLang jobType theme subthemes sharedImageBlob s in
  let aspectRatio := match jobType with short => "9:16" | long => "16:9" end in
  ∃ new, calls run.2 = calls s ++ new
    ∧ (is_Some sharedImageBlob → imageCalls new = [])
    ∧ (sharedImageBlob = None →
         (imageCalls new = []
          ∨ ∃ prompt, imageCalls new = [GenerateImageFromPrayer prompt aspectRatio imageModel])
         ∧ (run.1 = Ok () →
              ∃ prompt, imageCalls new
                = [GenerateImageFromPrayer prompt aspectRatio imageModel])).
Proof.
  intros run aspectRatio.
  destruct (generateAndSaveKit_spec svc jobLang jobType theme subthemes sharedImageBlob
              s run.1 run.2 (surjective_pairing _))
    as (_ & _ & _ & new & Hcalls & _ & Himg & _).
  exists new. split; [done|]. split.
  - intros [blob ->]. done.
  - intros ->. fold aspectRatio in Himg.
    assert (aspectRatioOf jobType = aspectRatio) as Hratio by by destruct jobType.
    rewrite Hratio in Himg. split.
    + destruct Himg as [[? _]|?]; [by left|by right].
    + intros Hok. destruct Himg as [[_ [error Hr]]|?]; [congruence|done].
Qed.

(** A fulfilled short run of the scripted world: one image call, at 9:16. *)
Example short_run_image_call :
  imageCalls (calls (generateAndSaveKit (scriptedServices neverFails)
                       "en" short "hope" [] None freshSys).2)
  = [GenerateImageFromPrayer "thumbnail prompt#3" "9:16" "imagen-4.0-generate-001"].
Proof. by vm_compute. Qed.

(** ** C8: a failed run records nothing and stops nothing else *)



(** A short job whose speech call is rejected: the job is fulfilled all the
    same, the error is on the console, the history is as it was and the
    identifier of the job is off the in-flight list again. *)
Example short_job_catches :
  let run := runAutomatedShortVideoJob (scriptedServices (failsAt 3 quotaError))
               "es" oldestFirstSys in
  run.1 = Ok ()
  ∧ consoleErrors run.2 = [("Autonomous agent job failed for es/short:", quotaError)]
  ∧ history run.2 = history oldestFirstSys
  ∧ inProgress run.2 = ["pt-short"].
Proof. by vm_compute. Qed.

(** Inside a batch the runs follow one another in one [try] block: when the
    Portuguese run is rejected, the English and the Spanish run of that batch
    are not started. *)
Example batch_stops_at_rejected_run :
  let run := runAutomatedLongVideoBatch (scriptedServices (failsAt 6 quotaError))
               freshSys in
  run.1 = Ok ()
  ∧ calls run.2
    = [GetTrendingTopic "pt" long; GenerateGuidedPrayer "hope" "pt";
       CreateMediaPromptFromPrayer "guided prayer pt#1";
       GenerateImageFromPrayer "media prompt#2" "16:9" "imagen-4.0-generate-001";
       Fetch "data:image/png;base64,image#3";
       GenerateGuidedPrayer "hope" "pt";
       GenerateYouTubeLongPost "hope" ["faith"; "trust"; "rest"] "pt"]
  ∧ history run.2 = [].
Proof. by vm_compute. Qed.

(** ** C9: the history stays latest first *)

(** C9: after a fulfilled run the history collection is the earlier
    collection with the new item, and it is ordered by timestamp, latest
    first, whatever order the earlier collection was in. *)
Theorem history_sorted_after_run {W} (svc : Services W) (jobLang : string)
    (jobType : JobType) (theme : string) (subthemes : list string)
    (sharedImageBlob : option Blob) (s : Sys W) :
  let run := generateAndSaveKit svc jobLang jobType theme subthemes sharedImageBlob s in
  run.1 = Ok () →
  ∃ item, history run.2 = jsSort byTimestampDesc (item :: history s)
    ∧ history run.2 ≡ₚ item :: history s
    ∧ timestampDescending (history run.2).
Proof.
  intros run Hok.
  destruct (generateAndSaveKit_spec svc jobLang jobType theme subthemes sharedImageBlob
              s run.1 run.2 (surjective_pairing _))
    as (_ & _ & _ & new & _ & _ & _ & Hres).
  rewrite Hok in Hres. destruct Hres as (item & _ & Hhist & _).
  exists item. rewrite Hhist. split_and!; [done|apply jsSort_perm|apply jsSort_sorted].
Qed.

Lemma history_sorted_after_run_witness :
  timestampDescending
    (history (generateAndSaveKit (scriptedServices neverFails)
                "en" short "hope" [] None oldestFirstSys).2).
Proof.
  destruct (history_sorted_after_run (scriptedServices neverFails)
              "en" short "hope" [] None oldestFirstSys eq_refl)
    as (item & _ & _ & Hsorted).
  exact Hsorted.
Defined.

Example history_after_run_timestamps :
  item_timestamp <$>
    history (generateAndSaveKit (scriptedServices neverFails)
               "en" short "hope" [] None oldestFirstSys).2
  = [1704110700009; 1704100000000; 1704000000000].
Proof. by vm_compute. Qed.

(** ** C10: the text behind the shared image is not the text that is kept *)

(** A batch that is rejected while the topic is researched asks for no
    guided prayer at all, and one that is rejected while the visual prompt is
    made has asked for the Portuguese text once; neither records an item. *)
Lemma batch_rejected_early_asks_once :
  let atTopic := calls (runAutomatedLongVideoBatch
                          (scriptedServices (failsAt 0 malformedResponse)) freshSys).2 in
  let atPrompt := calls (runAutomatedLongVideoBatch
                           (scriptedServices (failsAt 2 malformedResponse)) freshSys).2 in
  guidedPrayerCalls atTopic = [] ∧ recordedItems atTopic = []
  ∧ guidedPrayerCalls atPrompt = [GenerateGuidedPrayer "hope" "pt"]
  ∧ recordedItems atPrompt = [].
Proof. by vm_compute. Qed.

(** C10: in every long-form batch whose shared-image stage is fulfilled (the
    topic, the first Portuguese prayer, the visual prompt, the image and its
    blob), the Portuguese guided prayer is asked for by two separate calls:
    the second call of the stage, whose answer goes into the visual prompt of
    the shared image, and the first guided-prayer call of the language runs
    that follow the stage; after it come the calls for English and Spanish,
    as far as the runs get.  A batch that is rejected inside the stage has
    asked for a guided prayer once at most and records nothing.  Each item a
    batch records holds the answer to the call of its own run, made after the
    shared image was produced, so the answer that shaped the image is kept in
    no item. *)
Theorem batch_prayer_generated_apart {W} (svc : Services W) (s : Sys W) :
  ∃ new, calls (runAutomatedLongVideoBatch svc s).2 = calls s ++ new
    ∧ (∀ theme subthemes p1 visualPrompt imageB64 imageBlob w5,
         sharedImageReady svc (world s) theme subthemes p1 visualPrompt imageB64
           imageBlob w5 →
         ∃ kits m, (m ≤ 2)%nat
           ∧ new = sharedImageCalls theme p1 visualPrompt imageB64 ++ kits
           ∧ guidedPrayerCalls kits
             = GenerateGuidedPrayer theme "pt"
               :: take m [GenerateGuidedPrayer theme "en";
                          GenerateGuidedPrayer theme "es"])
    ∧ ((∀ theme subthemes p1 visualPrompt imageB64 imageBlob w5,
          ¬ sharedImageReady svc (world s) theme subthemes p1 visualPrompt imageB64
              imageBlob w5) →
       recordedItems new = [] ∧ (length (guidedPrayerCalls new) ≤ 1)%nat)
    ∧ (∀ item, item ∈ recordedItems new → generatedApart svc (world s) new item).
Proof.
  destruct (runAutomatedLongVideoBatch_spec svc s)
    as (s' & Hrun & _ & _ & _ & new & Hcalls & _ & Hitems).
  destruct (runAutomatedLongVideoBatch_stage svc s) as (new' & Hcalls' & Hstage).
  rewrite Hrun in Hcalls' |- *. simpl in Hcalls' |- *. rewrite Hcalls in Hcalls'.
  apply app_inv_head in Hcalls' as <-.
  exists new. split_and!; [done| | |done].
  - intros theme subthemes p1 visualPrompt imageB64 imageBlob w5 Hready.
    destruct Hstage as [(theme' & subthemes' & p1' & visualPrompt' & imageB64' & imageBlob'
                         & w5' & kits & n & Hready' & -> & Hn & Hgp) | [Hnot _]];
      [|by destruct (Hnot _ _ _ _ _ _ _ Hready)].
    destruct (sharedImageReady_unique svc _ _ _ _ _ _ _ _ _ _ _ _ _ _ _ Hready Hready')
      as (-> & -> & -> & ->).
    destruct n as [|n]; [lia|]. exists kits, (2 `min` n)%nat.
    split_and!; [lia|done|]. rewrite Hgp. destruct n as [|[|n]]; simpl; by rewrite ?take_nil.
  - intros Hnot.
    destruct Hstage as [(theme & subthemes & p1 & visualPrompt & imageB64 & imageBlob
                         & w5 & kits & n & Hready & _) | (_ & ? & ?)]; [|done].
    by destruct (Hnot _ _ _ _ _ _ _ Hready).
Qed.

(** In the scripted batch the two Portuguese texts are the answers to
    operations 1 and 5 of the world: the first feeds the visual prompt, the
    second is the one kept. *)
Example scripted_batch_two_texts :
  let new := calls (runAutomatedLongVideoBatch (scriptedServices neverFails) freshSys).2 in
  new !! 2%nat = Some (CreateMediaPromptFromPrayer "guided prayer pt#1")
  ∧ item_prayer <$> recordedItems new
    = ["guided prayer pt#5"; "guided prayer en#12"; "guided prayer es#19"]
  ∧ guidedPrayerCalls new
    = [GenerateGuidedPrayer "hope" "pt"; GenerateGuidedPrayer "hope" "pt";
       GenerateGuidedPrayer "hope" "en"; GenerateGuidedPrayer "hope" "es"].
Proof. by vm_compute. Qed.


(** * Further properties of the scheduler *)

(** ** The due window in wall-clock minutes *)

Lemma getMinutes_range (tz now : Z) : 0 ≤ JsDate.getMinutes tz now ≤ 59.
Proof.
  unfold JsDate.getMinutes, JsDate.msPerHour, JsDate.msPerMinute.
  pose proof (Z.mod_pos_bound (JsDate.localMs tz now) 3600000 ltac:(lia)) as Hm.
  split.
  - apply Z.div_pos; lia.
  - apply Z.lt_succ_r, Z.div_lt_upper_bound; lia.
Qed.

(** With the minute of the hour between 0 and 59 and a scheduled minute
    that is one too, the due test is a window on the minute of the day: from
    the scheduled moment to the last minute of the third hour after the
    scheduled hour. *)
Lemma isTime_window (currentHour currentMinute hour minute : Z) :
  0 ≤ currentMinute ≤ 59 → 0 ≤ minute ≤ 59 →
  isTime currentHour currentMinute hour minute = true
  ↔ 60 * hour + minute ≤ 60 * currentHour + currentMinute ≤ 60 * hour + 239.
Proof. intros Hm Hs. rewrite isTime_spec. lia. Qed.

Lemma offsets_range (lang : Lang) : 0 ≤ offsets lang ≤ 59.
Proof. destruct lang; simpl; lia. Qed.

(** X1: a schedule check launches exactly the slots that are switched on,
    within the cadence, inside their window and not yet in the ledger.  The
    window of a slot opens at its scheduled minute and closes with minute 59
    of the third hour after its scheduled hour, in local time; the ledger is
    looked up under the key with the UTC date of the check. *)
Theorem checkSchedule_launches_due_slots (cfg : Config) (tz now : Z)
    (lastRuns : Store) (l : Launch) :
  let minuteOfDay := 60 * JsDate.getHours tz now + JsDate.getMinutes tz now in
  let todayStr := JsDate.toISODate now in
  l ∈ checkSchedule cfg tz now lastRuns
  ↔ (isAgentLongActive cfg = true
     ∧ ∃ hour, hour ∈ slice0 (longVideoCadence cfg) [6; 12; 18]
         ∧ 60 * hour ≤ minuteOfDay ≤ 60 * hour + 239
         ∧ truthy (lastRuns !! jobKeyLong todayStr hour 0) = false
         ∧ l = {| launch_key := jobKeyLong todayStr hour 0; launch_job := LongBatch |})
    ∨ (isAgentShortActive cfg = true
       ∧ ∃ lang hour, hour ∈ slice0 (shortVideoCadence cfg) [9; 12; 18]
           ∧ 60 * hour + offsets lang ≤ minuteOfDay ≤ 60 * hour + 239
           ∧ truthy (lastRuns !! jobKeyShort todayStr lang hour (offsets lang)) = false
           ∧ l = {| launch_key := jobKeyShort todayStr lang hour (offsets lang);
                    launch_job := ShortJob lang |}).
Proof.
  intros minuteOfDay todayStr. unfold checkSchedule.
  rewrite elem_of_app, elem_of_checkLong, elem_of_checkShort.
  pose proof (getMinutes_range tz now) as Hm.
  assert (∀ hour, isSlotDue lastRuns (jobKeyLong todayStr hour (offsets pt))
                    (JsDate.getHours tz now) (JsDate.getMinutes tz now) hour (offsets pt)
                  = true
                  ↔ 60 * hour ≤ minuteOfDay ≤ 60 * hour + 239
                    ∧ truthy (lastRuns !! jobKeyLong todayStr hour 0) = false) as Hlong.
  { intros hour. rewrite isSlotDue_spec, (isTime_window _ _ hour _ Hm (offsets_range pt)).
    subst minuteOfDay. simpl offsets. rewrite Z.add_0_r. done. }
  assert (∀ lang hour,
            isSlotDue lastRuns (jobKeyShort todayStr lang hour (offsets lang))
              (JsDate.getHours tz now) (JsDate.getMinutes tz now) hour (offsets lang)
            = true
            ↔ 60 * hour + offsets lang ≤ minuteOfDay ≤ 60 * hour + 239
              ∧ truthy (lastRuns !! jobKeyShort todayStr lang hour (offsets lang)) = false)
    as Hshort.
  { intros lang hour.
    by rewrite isSlotDue_spec, (isTime_window _ _ hour _ Hm (offsets_range lang)). }
  fold todayStr. split.
  - intros [(Hon & hour & Hin & Hdue & ->) | (Hon & lang & hour & Hin & Hdue & ->)].
    + left. split; [done|]. exists hour. apply Hlong in Hdue as [? ?].
      split; [exact Hin|]. split_and!; first [lia | done].
    + right. split; [done|]. exists lang, hour. apply Hshort in Hdue as [? ?].
      split; [by destruct lang|]. split_and!; first [lia | done].
  - intros [(Hon & hour & Hin & Hwin & Hfalsy & ->)
           | (Hon & lang & hour & Hin & Hwin & Hfalsy & ->)].
    + left. split; [done|]. exists hour.
      split; [exact Hin|]. split; [by apply Hlong|done].
    + right. split; [done|]. exists lang, hour.
      split; [by destruct lang|]. split; [by apply Hshort|done].
Qed.

(** ** How many jobs one check can start *)

Lemma launchesFor_app (job : Job) (l k : list Launch) :
  launchesFor job (l ++ k) = launchesFor job l ++ launchesFor job k.
Proof. apply filter_app. Qed.

Lemma launchesFor_all (job : Job) (l : list Launch) :
  Forall (λ x, launch_job x = job) l → launchesFor job l = l.
Proof.
  unfold launchesFor. induction 1 as [|x l Hx _ IH]; [done|].
  rewrite filter_cons_True by done. by rewrite IH.
Qed.

Lemma launchesFor_none (job : Job) (l : list Launch) :
  Forall (λ x, launch_job x ≠ job) l → launchesFor job l = [].
Proof.
  unfold launchesFor. induction 1 as [|x l Hx _ IH]; [done|].
  by rewrite filter_cons_False.
Qed.

Lemma checkLong_jobs (cfg : Config) (todayStr : string) (h m : Z) (lastRuns : Store) :
  Forall (λ x, launch_job x = LongBatch) (checkLong cfg todayStr h m lastRuns).
Proof.
  apply Forall_forall. intros l Hl.
  by apply elem_of_checkLong in Hl as (_ & hour & _ & _ & ->).
Qed.

Lemma checkShortLang_jobs (cfg : Config) (todayStr : string) (h m : Z)
    (lastRuns : Store) (lang : Lang) :
  Forall (λ x, launch_job x = ShortJob lang)
    (checkShortLang cfg todayStr h m lastRuns lang).
Proof.
  apply Forall_forall. intros l. unfold checkShortLang.
  by intros (hour & -> & _)%list_elem_of_fmap.
Qed.

Lemma launchesFor_checkShortLang (cfg : Config) (todayStr : string) (h m : Z)
    (lastRuns : Store) (lang lang' : Lang) :
  launchesFor (ShortJob lang) (checkShortLang cfg todayStr h m lastRuns lang')
  = if decide (lang' = lang) then checkShortLang cfg todayStr h m lastRuns lang' else [].
Proof.
  destruct (decide (lang' = lang)) as [->|Hne].
  - apply launchesFor_all, checkShortLang_jobs.
  - apply launchesFor_none.
    eapply Forall_impl; [apply checkShortLang_jobs|].
    intros x -> [= ?]. done.
Qed.

(** The launches of one check, by job. *)
Lemma launchesFor_checkSchedule_long (cfg : Config) (tz now : Z) (lastRuns : Store) :
  launchesFor LongBatch (checkSchedule cfg tz now lastRuns)
  = checkLong cfg (JsDate.toISODate now) (JsDate.getHours tz now)
      (JsDate.getMinutes tz now) lastRuns.
Proof.
  unfold checkSchedule. rewrite launchesFor_app.
  rewrite (launchesFor_all _ _ (checkLong_jobs _ _ _ _ _)).
  rewrite launchesFor_none; [by rewrite app_nil_r|].
  apply Forall_forall. intros l Hl.
  by apply elem_of_checkShort in Hl as (_ & lang & hour & _ & _ & ->).
Qed.

Lemma launchesFor_checkSchedule_short (cfg : Config) (tz now : Z) (lastRuns : Store)
    (lang : Lang) :
  launchesFor (ShortJob lang) (checkSchedule cfg tz now lastRuns)
  = if isAgentShortActive cfg
    then checkShortLang cfg (JsDate.toISODate now) (JsDate.getHours tz now)
           (JsDate.getMinutes tz now) lastRuns lang
    else [].
Proof.
  unfold checkSchedule. rewrite launchesFor_app.
  rewrite launchesFor_none
    by (eapply Forall_impl; [apply checkLong_jobs|]; by intros x ->).
  unfold checkShort. destruct (isAgentShortActive cfg); [|done].
  cbn [mbind list_bind app]. rewrite !launchesFor_app, !launchesFor_checkShortLang.
  by destruct lang; simpl; rewrite ?app_nil_r.
Qed.

(** The hours of a schedule of three kept by a cadence. *)
Lemma slice0_three (cadence a b c : Z) :
  slice0 cadence [a; b; c] = []
  ∨ slice0 cadence [a; b; c] = [a]
  ∨ slice0 cadence [a; b; c] = [a; b]
  ∨ slice0 cadence [a; b; c] = [a; b; c].
Proof.
  unfold slice0.
  destruct (Z.to_nat _) as [|[|[|n]]]; simpl; auto.
  destruct n; auto.
Qed.

(** X2: one schedule check starts at most one long batch, and at most two
    short jobs for each language; two only in hour 12, where the window of
    the 9 o'clock slot is still open when that of the 12 o'clock slot opens.
    So no check starts more than seven jobs. *)
Theorem launches_of_one_check (cfg : Config) (tz now : Z) (lastRuns : Store) :
  let launches := checkSchedule cfg tz now lastRuns in
  (length (launchesFor LongBatch launches) ≤ 1)%nat
  ∧ (∀ lang,
       (length (launchesFor (ShortJob lang) launches) ≤ 2)%nat
       ∧ (JsDate.getHours tz now ≠ 12 →
          (length (launchesFor (ShortJob lang) launches) ≤ 1)%nat))
  ∧ (length launches ≤ 7)%nat.
Proof.
  intros launches.
  assert ((length (launchesFor LongBatch launches) ≤ 1)%nat) as Hlong.
  { subst launches. rewrite launchesFor_checkSchedule_long. unfold checkLong.
    destruct (isAgentLongActive cfg); [|simpl; lia].
    rewrite length_fmap. simpl schedules.
    match goal with |- context [filter ?Q _] => set (P := Q) end.
    assert (∀ hour, P hour → isTime (JsDate.getHours tz now) (JsDate.getMinutes tz now)
                                 hour (offsets pt) = true) as HP.
    { intros hour HPh. subst P. simpl in HPh. apply Is_true_true in HPh.
      by apply isSlotDue_spec in HPh as [? _]. }
    destruct (slice0_three (longVideoCadence cfg) 6 12 18) as [-> | [-> | [-> | ->]]];
      rewrite ?filter_cons, ?filter_nil;
      repeat match goal with
      | |- context [decide (P ?h)] =>
          let H := fresh in
          destruct (decide (P h)) as [H|_]; [apply HP, isTime_spec in H|]
      end; simpl; lia. }
  assert (∀ lang,
       (length (launchesFor (ShortJob lang) launches) ≤ 2)%nat
       ∧ (JsDate.getHours tz now ≠ 12 →
          (length (launchesFor (ShortJob lang) launches) ≤ 1)%nat)) as Hshort.
  { intros lang. subst launches. rewrite launchesFor_checkSchedule_short.
    destruct (isAgentShortActive cfg); [|simpl; lia].
    unfold checkShortLang. rewrite length_fmap.
    assert (schedules lang short = [9; 12; 18]) as -> by by destruct lang.
    match goal with |- context [filter ?Q _] => set (P := Q) end.
    assert (∀ hour, P hour → isTime (JsDate.getHours tz now) (JsDate.getMinutes tz now)
                                 hour (offsets lang) = true) as HP.
    { intros hour HPh. subst P. simpl in HPh. apply Is_true_true in HPh.
      by apply isSlotDue_spec in HPh as [? _]. }
    destruct (slice0_three (shortVideoCadence cfg) 9 12 18) as [-> | [-> | [-> | ->]]];
      rewrite ?filter_cons, ?filter_nil;
      repeat match goal with
      | |- context [decide (P ?h)] =>
          let H := fresh in
          destruct (decide (P h)) as [H|_]; [apply HP, isTime_spec in H|]
      end; simpl; lia. }
  split_and!; [done..|].
  assert (length launches
          = (length (launchesFor LongBatch launches)
             + (length (launchesFor (ShortJob pt) launches)
                + (length (launchesFor (ShortJob en) launches)
                   + length (launchesFor (ShortJob es) launches))))%nat) as ->.
  { subst launches.
    rewrite launchesFor_checkSchedule_long, !launchesFor_checkSchedule_short.
    unfold checkSchedule, checkShort. rewrite length_app.
    destruct (isAgentShortActive cfg); [|done].
    cbn [mbind list_bind]. rewrite ?app_nil_r, ?length_app. lia. }
  pose proof (proj1 (Hshort pt)). pose proof (proj1 (Hshort en)).
  pose proof (proj1 (Hshort es)). lia.
Qed.

(** At 12:05 with nothing in the ledger, the 9 o'clock and the 12 o'clock
    short slots for Portuguese are both due: two jobs for one language are
    started by the same check. *)
Example two_short_jobs_at_noon :
  launchesFor (ShortJob pt) (launchesOf newYear1205 freshAgent)
  = [ {| launch_key := "2024-01-01_pt_short_9:0"; launch_job := ShortJob pt |};
      {| launch_key := "2024-01-01_pt_short_12:0"; launch_job := ShortJob pt |} ].
Proof. by vm_compute. Qed.

(** ** The ledger is never pruned *)

Lemma applyLaunches_dom (dateNow : string → Z) (ls : list Launch) (prev : Store) :
  dom (applyLaunches dateNow ls prev)
  = dom prev ∪ (list_to_set (launch_key <$> ls) : gset string).
Proof.
  unfold applyLaunches. revert prev.
  induction ls as [|l ls IH]; intros prev; simpl.
  - by rewrite (right_id_L ∅ (∪)).
  - rewrite IH. unfold markConsumed. rewrite dom_insert_L.
    by rewrite (comm_L (∪) {[launch_key l]} (dom prev)), <-(assoc_L (∪)).
Qed.

Lemma step_dom (st : AgentState) (ev : Event) :
  coherent st →
  dom (lastRuns (step st ev).1)
  = dom (lastRuns st) ∪ (list_to_set (launch_key <$> (step st ev).2) : gset string).
Proof.
  intros Hco. destruct ev as [t| |]; simpl.
  - rewrite (proj1 (markLaunch_foldl _ _ _)). apply applyLaunches_dom.
  - by rewrite (right_id_L ∅ (∪)).
  - rewrite <-Hco. by rewrite (right_id_L ∅ (∪)).
Qed.

(** X3: over any history of checks, restarts and status changes, the keys
    of the ledger at the end are the keys it started with together with the
    keys of the launches made.  No event removes a key: the entries of past
    days stay in the ledger, and in storage, for good. *)
Theorem ledger_keys_after_run (st : AgentState) (evs : list Event) :
  coherent st →
  dom (lastRuns (run st evs).1)
  = dom (lastRuns st) ∪ (list_to_set (launch_key <$> (run st evs).2) : gset string)
  ∧ persisted (run st evs).1 = lastRuns (run st evs).1.
Proof.
  intros Hco. split; [|symmetry; by apply run_coherent].
  revert st Hco. induction evs as [|ev evs IH]; intros st Hco.
  - simpl. by rewrite (right_id_L ∅ (∪)).
  - rewrite run_cons. simpl. rewrite IH by by apply step_coherent.
    rewrite step_dom by done. by rewrite fmap_app, list_to_set_app_L, (assoc_L (∪)).
Qed.

Lemma ledger_keys_after_run_witness :
  dom (lastRuns (run freshAgent [Check newYear0905; Restart; Check newYear1205]).1)
  = dom (lastRuns freshAgent)
    ∪ (list_to_set (launch_key <$>
         (run freshAgent [Check newYear0905; Restart; Check newYear1205]).2)
       : gset string).
Proof.
  refine (proj1 (ledger_keys_after_run freshAgent
                   [Check newYear0905; Restart; Check newYear1205] _)).
  reflexivity.
Defined.

(** ** The status line always has a next job to show *)

Lemma slice0_head {A} (cadence : Z) (x : A) (arr : list A) :
  1 ≤ cadence → x ∈ slice0 cadence (x :: arr).
Proof.
  intros Hc. rewrite slice0_take by lia.
  destruct (Z.to_nat cadence) as [|n] eqn:Hn; [lia|]. simpl. apply list_elem_of_here.
Qed.

(** Where a slot of the scan lies, seen from the moment of the scan: day
    [d] of the scan at [h]:[m] is between [d] days less one and [d] days
    ahead, plus [h] hours and [m] minutes, give or take twice the spread of
    the zone. *)
Lemma setHours_addDays_bounds (zone : JsDate.Zone) (spread now d h m : Z) :
  steadyWithin spread zone →
  now + (d - 1) * JsDate.msPerDay + h * JsDate.msPerHour + m * JsDate.msPerMinute
    - 2 * spread
  < JsDate.setHours zone (JsDate.addDays zone now d) h m
  ≤ now + d * JsDate.msPerDay + h * JsDate.msPerHour + m * JsDate.msPerMinute
    + 2 * spread.
Proof.
  intros Hsteady.
  unfold JsDate.setHours, JsDate.addDays, JsDate.utcOfLocal, JsDate.localTime.
  set (local := now + JsDate.offsetAt zone now).
  set (moved := local + d * JsDate.msPerDay).
  set (checkDate := moved - JsDate.offsetOfLocal zone moved).
  set (back := checkDate + JsDate.offsetAt zone checkDate).
  set (rest := back mod JsDate.msPerDay).
  set (wall := back - rest + h * JsDate.msPerHour + m * JsDate.msPerMinute).
  pose proof (Hsteady checkDate moved) as H1.
  pose proof (Hsteady now wall) as H2.
  assert (0 ≤ rest < JsDate.msPerDay) as Hrest by by apply Z.mod_pos_bound.
  assert (local = now + JsDate.offsetAt zone now) as Hlocal by done.
  assert (moved = local + d * JsDate.msPerDay) as Hmoved by done.
  assert (checkDate = moved - JsDate.offsetOfLocal zone moved) as HcheckDate by done.
  assert (back = checkDate + JsDate.offsetAt zone checkDate) as Hback by done.
  assert (wall = back - rest + h * JsDate.msPerHour + m * JsDate.msPerMinute)
    as Hwall by done.
  clearbody wall rest back checkDate moved local.
  unfold JsDate.msPerDay, JsDate.msPerHour, JsDate.msPerMinute in *. lia.
Qed.

Lemma longSlots_time (zone : JsDate.Zone) (now cadence d : Z) (s : Slot) :
  s ∈ longSlots zone now cadence d →
  slot_job s = LongBatch
  ∧ ∃ hour, 6 ≤ hour ≤ 18
      ∧ slot_time s = JsDate.setHours zone (JsDate.addDays zone now d) hour 0.
Proof.
  unfold longSlots. intros (hour & -> & Hh)%list_elem_of_fmap.
  split; [done|]. exists hour. split; [|done].
  apply (sublist_subseteq _ _ (slice0_sublist _ _)) in Hh.
  simpl in Hh. rewrite !elem_of_cons, elem_of_nil in Hh. lia.
Qed.

(** X4: in a zone whose clock changes shift local time by less than three
    hours, with a cadence of one or more, and as long as the ledger holds
    nothing under the key the helper builds for tomorrow's 6 o'clock batch,
    the long-video status always has a next batch to show: the helper
    returns the status text of a batch that lies in the future, at most 30
    hours ahead and twice the spread of the zone on top of that; 30 hours
    where the clock never changes.  With a cadence of zero it returns the
    empty text. *)
Theorem next_long_batch_shown (statusIdle : Job → Z → string)
    (zone : JsDate.Zone) (spread now cadence : Z) (lastRuns : Store) :
  1 ≤ cadence → spread < 3 * JsDate.msPerHour → steadyWithin spread zone →
  truthy (lastRuns !! jobKeyLong (JsDate.toISODate (JsDate.addDays zone now 1)) 6 0)
  = false →
  (∃ f, closestLongBatchJob zone now cadence lastRuns = Some f
     ∧ now < slot_time f ≤ now + 30 * JsDate.msPerHour + 2 * spread
     ∧ findNextLongBatchJob statusIdle zone now cadence lastRuns
       = statusIdle LongBatch (slot_time f))
  ∧ findNextLongBatchJob statusIdle zone now 0 lastRuns = "".
Proof.
  intros Hc Hspread Hsteady Hfalsy. split; [|done].
  unfold JsDate.msPerHour in Hspread.
  set (tomorrow6 :=
         {| slot_time := JsDate.setHours zone (JsDate.addDays zone now 1) 6 0;
            slot_key := jobKeyLong (JsDate.toISODate (JsDate.addDays zone now 1)) 6 0;
            slot_job := LongBatch; slot_hour := 6; slot_day := 1 |}).
  assert (tomorrow6 ∈ longSlots zone now cadence 1) as Hin.
  { unfold longSlots. apply list_elem_of_fmap. exists 6. split; [done|].
    by apply slice0_head. }
  pose proof (setHours_addDays_bounds zone spread now 1 6 0 Hsteady) as Hb.
  unfold JsDate.msPerDay, JsDate.msPerHour, JsDate.msPerMinute in Hb.
  assert (∃ f d, closestLongBatchJob zone now cadence lastRuns = Some f
            ∧ f ∈ longSlots zone now cadence d
            ∧ now < slot_time f
            ∧ (d = 0 ∨ slot_time f ≤ slot_time tomorrow6))
    as (f & d & Hf & Hslot & Hfut & Hday).
  { unfold closestLongBatchJob.
    destruct (consider_foldl now lastRuns (longSlots zone now cadence 0) None)
      as (T1 & _ & _).
    destruct (consider_foldl now lastRuns (longSlots zone now cadence 1) None)
      as (M1 & _ & M3).
    destruct (foldl (consider now lastRuns) None (longSlots zone now cadence 0))
      as [f0|] eqn:Htoday.
    - destruct (T1 f0 eq_refl) as [?|(Hin0 & Hfut & _)]; [done|].
      exists f0, 0. split_and!; [done..|by left].
    - destruct (M3 tomorrow6 Hin) as (f & Hf & Hle); [simpl; lia|done|].
      destruct (M1 f Hf) as [?|(Hin1 & Hfut & _)]; [done|].
      exists f, 1. split_and!; [done..|by right]. }
  apply longSlots_time in Hslot as (Hjob & hour & Hhour & Htime).
  exists f. split_and!; [done|done| |].
  - destruct Hday as [->|Hle].
    + pose proof (setHours_addDays_bounds zone spread now 0 hour 0 Hsteady) as Hb0.
      rewrite <-Htime in Hb0.
      unfold JsDate.msPerDay, JsDate.msPerHour, JsDate.msPerMinute in *. lia.
    + simpl in Hle. unfold JsDate.msPerHour. lia.
  - unfold findNextLongBatchJob. rewrite Hf. simpl. by rewrite Hjob.
Qed.

Lemma berlinAutumn2024_steady : steadyWithin JsDate.msPerHour berlinAutumn2024.
Proof.
  intros t local. unfold JsDate.msPerHour. simpl.
  destruct (t <? 1729990800000), (local <? 1729998000000); lia.
Qed.

Lemma next_long_batch_shown_witness :
  ∃ f, closestLongBatchJob berlinAutumn2024 1729981800000 3 ∅ = Some f
     ∧ 1729981800000 < slot_time f
       ≤ 1729981800000 + 30 * JsDate.msPerHour + 2 * JsDate.msPerHour
     ∧ findNextLongBatchJob (λ _ _, "idle") berlinAutumn2024 1729981800000 3 ∅ = "idle".
Proof.
  refine (proj1 (next_long_batch_shown (λ _ _, "idle") berlinAutumn2024 JsDate.msPerHour
                   1729981800000 3 ∅ _ _ berlinAutumn2024_steady _)).
  - lia.
  - unfold JsDate.msPerHour. lia.
  - reflexivity.
Defined.

(** The night the clocks go back in Central Europe, at 00:30 on 2024-10-27,
    which is 22:30 UTC of the day before, with the three batches of
    2024-10-26 in the ledger.  The helper looks the slots of the coming day
    up under the UTC date of the moment, finds those three entries, and shows
    the batch of 06:00 on 2024-10-28, thirty hours and a half ahead: the day
    in between has 25 hours. *)
Example next_long_batch_on_a_long_day :
  let now := 1729981800000 in
  let ledger : Store := {[ "2024-10-26_pt_long_batch_6:0" := 1729915200004;
                           "2024-10-26_pt_long_batch_12:0" := 1729936800004;
                           "2024-10-26_pt_long_batch_18:0" := 1729958400004 ]} in
  slot_time <$> closestLongBatchJob berlinAutumn2024 now 3 ledger
  = Some (now + 30 * JsDate.msPerHour + 30 * JsDate.msPerMinute)
  ∧ slot_key <$> closestLongBatchJob berlinAutumn2024 now 3 ledger
    = Some "2024-10-27_pt_long_batch_6:0".
Proof. by vm_compute. Qed.

(** ** The in-flight list after a launching job *)



(** A second short job for Portuguese is in flight when the first one ends:
    the first one takes both marks off the list. *)
Example overlapping_short_jobs :
  inProgress (runAutomatedShortVideoJob (scriptedServices neverFails) "pt"
                (setJobsInProgress (λ _, ["pt-short"; "en-short"]) freshSys)).2
  = ["en-short"].
Proof. by vm_compute. Qed.

(** * Further properties of the retry wrapper *)

Lemma backoff_total (k : nat) (delay : Z) :
  foldr Z.add 0 (backoff k delay) = delay * (2 ^ Z.of_nat k - 1).
Proof.
  revert delay. induction k as [|k IH]; intros delay; simpl backoff; simpl foldr.
  - simpl. lia.
  - rewrite IH, Nat2Z.inj_succ, Z.pow_succ_r by lia. lia.
Qed.

Lemma totalWait_app {W} (b : Bench W) (waits more : list Z) :
  bench_waits b = waits ++ more →
  totalWait b = foldr Z.add 0 waits + foldr Z.add 0 more.
Proof.
  unfold totalWait. intros ->. induction waits as [|x l IH]; simpl; lia.
Qed.

(** Within the safe integers the delays stay exact however often they are
    doubled. *)
Lemma backoff_safe (k retries : nat) (delay : Z) :
  (k ≤ retries)%nat → isSafeInteger (delay * 2 ^ Z.of_nat retries) →
  Forall isSafeInteger (backoff k delay).
Proof.
  unfold isSafeInteger.
  revert retries delay. induction k as [|k IH]; intros retries delay Hk Hsafe;
    simpl; [constructor|].
  destruct retries as [|retries]; [lia|].
  rewrite Nat2Z.inj_succ, Z.pow_succ_r in Hsafe by lia.
  assert (1 ≤ 2 ^ Z.of_nat retries) as Hpow by (apply Z.pow_le_mono_r with (b := 0); lia).
  constructor.
  - rewrite Z.abs_mul in Hsafe. nia.
  - apply (IH retries); [lia|]. by replace (delay * 2 * 2 ^ Z.of_nat retries)
      with (delay * (2 * 2 ^ Z.of_nat retries)) by lia.
Qed.

(** X6: for a whole number of retries and a whole number of milliseconds of
    delay, as long as the count and the delay doubled that many times are
    safe integers, so that the numbers of the source are exact: whatever the
    operation does, the wrapper invokes it once more than it waits, waits at
    most [retries] times, the waits being [delay], [2 * delay],
    [4 * delay], ..., each of them a safe integer again, and settles exactly
    as the last invocation did.  It gives up on an error only when that error
    is outside the rate-limit class or the retries are used up. *)
Theorem callWithRetry_trace {W T} (fn : Async W T) (retries : nat) (delay : Z)
    (b : Bench W) :
  isSafeInteger (Z.of_nat retries) →
  isSafeInteger (delay * 2 ^ Z.of_nat retries) →
  let run := callWithRetry benchSleep (benchInvoke fn) retries delay b in
  ∃ k, (k ≤ retries)%nat
    ∧ bench_invocations run.2 = (bench_invocations b + k + 1)%nat
    ∧ bench_waits run.2 = bench_waits b ++ backoff k delay
    ∧ totalWait run.2 = totalWait b + delay * (2 ^ Z.of_nat k - 1)
    ∧ (∃ w, fn w = (run.1, bench_world run.2))
    ∧ (∀ error, run.1 = Throw error → k = retries ∨ ¬ RateLimitError error)
    ∧ Forall isSafeInteger (backoff k delay).
Proof.
  intros _ Hsafe. simpl.
  assert (∃ k, (k ≤ retries)%nat
    ∧ bench_invocations (callWithRetry benchSleep (benchInvoke fn) retries delay b).2
      = (bench_invocations b + k + 1)%nat
    ∧ bench_waits (callWithRetry benchSleep (benchInvoke fn) retries delay b).2
      = bench_waits b ++ backoff k delay
    ∧ (∃ w, fn w = ((callWithRetry benchSleep (benchInvoke fn) retries delay b).1,
                    bench_world (callWithRetry benchSleep (benchInvoke fn) retries delay b).2))
    ∧ (∀ error, (callWithRetry benchSleep (benchInvoke fn) retries delay b).1 = Throw error →
         k = retries ∨ ¬ RateLimitError error)) as (k & Hk & Hinv & Hwaits & Hlast & Hgive).
  { clear Hsafe. revert delay b. induction retries as [|retries IH]; intros delay b.
    - destruct (fn (bench_world b)) as [[v|error] w'] eqn:Hfn.
      + rewrite (callWithRetry_fulfilled fn 0 delay b v w' Hfn). exists 0%nat. simpl.
        split_and!; [lia|lia|by rewrite app_nil_r|by exists (bench_world b)|done].
      + rewrite (callWithRetry_exhausted fn delay b error w' Hfn). exists 0%nat. simpl.
        split_and!; [lia|lia|by rewrite app_nil_r|by exists (bench_world b)|by left].
    - destruct (fn (bench_world b)) as [[v|error] w'] eqn:Hfn.
      + rewrite (callWithRetry_fulfilled fn _ delay b v w' Hfn). exists 0%nat. simpl.
        split_and!; [lia|lia|by rewrite app_nil_r|by exists (bench_world b)|done].
      + destruct (isRateLimit error) eqn:Hrl.
        * apply isRateLimit_spec in Hrl.
          rewrite (callWithRetry_retry fn retries delay b error w' Hfn Hrl).
          destruct (IH (delay * 2)
                      {| bench_world := w';
                         bench_invocations := S (bench_invocations b);
                         bench_waits := bench_waits b ++ [delay] |})
            as (k & Hk & Hinv & Hwaits & Hlast & Hgive).
          exists (S k). simpl in *.
          split_and!; [lia|lia|by rewrite Hwaits, <-app_assoc|done|].
          intros e He. destruct (Hgive e He); [left; lia|by right].
        * apply isRateLimit_false in Hrl.
          rewrite (callWithRetry_fatal fn _ delay b error w' Hfn Hrl). exists 0%nat. simpl.
          split_and!; [lia|lia|by rewrite app_nil_r|by exists (bench_world b)|].
          intros e [= <-]. by right. }
  exists k. split_and!; [done..| |done|done|by apply (backoff_safe k retries)].
  rewrite (totalWait_app _ _ _ Hwaits), backoff_total. done.
Qed.

Lemma callWithRetry_trace_witness :
  ∃ k, (k ≤ 5)%nat
    ∧ bench_waits
        (callWithRetry benchSleep
           (benchInvoke (failsThen [tooManyRequests; quotaError] "amen"))
           5 500 freshBench).2
      = backoff k 500.
Proof.
  destruct (callWithRetry_trace (failsThen [tooManyRequests; quotaError] "amen")
              5 500 freshBench)
    as (k & Hk & _ & Hwaits & _); [unfold isSafeInteger; simpl; lia..|].
  by exists k.
Defined.

(** Rejected twice for the rate limit, the operation is invoked a third
    time after waits of half a second and of a second. *)
Example scripted_retry_waits :
  bench_waits
    (callWithRetry benchSleep
       (benchInvoke (failsThen [tooManyRequests; quotaError] "amen"))
       5 500 freshBench).2
  = [500; 1000].
Proof. by vm_compute. Qed.


(** * Further properties of the pipeline *)

Lemma bind_ok_inv {Σ A B} (m : Async Σ A) (k : A → Async Σ B) (s : Σ) (b : B) (s' : Σ) :
  (m ≫= k) s = (Ok b, s') → ∃ a s1, m s = (Ok a, s1) ∧ k a s1 = (Ok b, s').
Proof. by intros [(e & _ & ?) | ?]%bind_inv. Qed.

Lemma isEmpty_false (x : string) : isEmpty x = false ↔ x ≠ "".
Proof. unfold isEmpty. by rewrite bool_decide_eq_false. Qed.

Section PipelineMore.

Context {W : Type} (svc : Services W).
Implicit Types (s : Sys W) (new : list Call).

(** ** Stretches that only ask and wait *)

Lemma advances_trans s s1 s2 (c1 c2 : list Call) (z1 z2 : list Z) :
  advances s s1 c1 z1 → advances s1 s2 c2 z2 → advances s s2 (c1 ++ c2) (z1 ++ z2).
Proof.
  unfold advances.
  intros (-> & -> & -> & -> & -> & -> & ->) (-> & -> & -> & -> & -> & -> & ->).
  by rewrite !app_assoc.
Qed.

(** ** A fulfilled run, stage by stage *)

Lemma generateTextAssets_fulfilled (jobLang : string) (jobType : JobType)
    (theme : string) (subthemes : list string) s (prayer : string) (post : Post) s1 :
  generateTextAssets svc jobLang jobType theme subthemes s = (Ok (prayer, post), s1) →
  prayer ≠ "" ∧ postOfType jobType post
  ∧ advances s s1 (textCalls jobLang jobType theme subthemes prayer) [1000].
Proof.
  unfold generateTextAssets, remote, sleep, modify, throw, mbind, Async_bind, mret,
    Async_ret.
  destruct jobType; cbn.
  - destruct (generateGuidedPrayer svc theme jobLang (world s)) as [[p|e] w1]; cbn; [|done].
    destruct (generateYouTubeLongPost svc theme subthemes jobLang w1)
      as [[[q|]|e] w2]; cbn; [|done..].
    destruct (isEmpty p) eqn:Hp; cbn; [done|]. apply isEmpty_false in Hp.
    intros [= <- <- <-]. split_and!; [done..|].
    unfold advances. cbn. by rewrite <-app_assoc.
  - destruct (generateShortPrayer svc theme jobLang (world s)) as [[p|e] w1]; cbn; [|done].
    destruct (generateSocialMediaPost svc p jobLang w1) as [[[q|]|e] w2]; cbn; [|done..].
    destruct (isEmpty p) eqn:Hp; cbn; [done|]. apply isEmpty_false in Hp.
    intros [= <- <- <-]. split_and!; [done..|].
    unfold advances. cbn. by rewrite <-app_assoc.
Qed.

Lemma generateAudio_fulfilled (jobType : JobType) (prayer : string) s
    (audioBlob : Blob) s1 :
  generateAudio svc jobType prayer s = (Ok audioBlob, s1) →
  ∃ audioB64 pcmData w',
    generateSpeech svc prayer
      match jobType with long => Some dialogueSpeakers | short => None end (world s)
    = (Ok audioB64, w')
    ∧ audioB64 ≠ "" ∧ decode svc audioB64 = Ok pcmData
    ∧ audioBlob = createWavFile svc pcmData 1 24000 16
    ∧ advances s s1 [speechCall jobType prayer] [].
Proof.
  unfold generateAudio, remote, liftOutcome, throw, mbind, Async_bind, mret, Async_ret.
  destruct (generateSpeech svc prayer _ (world s)) as [[audioB64|e] w1]; cbn; [|done].
  destruct (isEmpty audioB64) eqn:Ha; cbn; [done|]. apply isEmpty_false in Ha.
  destruct (decode svc audioB64) as [pcmData|e] eqn:Hd; cbn; [|done].
  intros [= <- <-]. exists audioB64, pcmData, w1. split_and!; [done..|].
  unfold advances, speechCall. cbn. by rewrite app_nil_r.
Qed.

Lemma resolveImage_fulfilled (jobLang : string) (jobType : JobType) (prayer : string)
    (post : Post) (sharedImageBlob : option Blob) s (imageBlob : Blob) s1 :
  resolveImage svc jobLang jobType prayer post sharedImageBlob s = (Ok imageBlob, s1) →
  match sharedImageBlob with
  | Some blob => imageBlob = blob ∧ s1 = s
  | None =>
      ∃ visualPrompt imageB64, imageB64 ≠ ""
        ∧ advances s s1 (imageStageCalls jobLang jobType prayer post visualPrompt imageB64) []
        ∧ imageMadeFor svc jobLang jobType prayer post visualPrompt imageB64 imageBlob
  end.
Proof.
  unfold resolveImage, remote, throw, mbind, Async_bind, mret, Async_ret.
  destruct sharedImageBlob as [blob|]; [by intros [= <- <-]|].
  destruct (createThumbnailPromptFromPost svc _ _ _ _ (world s)) as [[vp|e] w1] eqn:Hvp;
    cbn; [|done].
  destruct (generateImageFromPrayer svc vp _ _ w1) as [[img|e] w2] eqn:Himg; cbn; [|done].
  destruct (isEmpty img) eqn:Hi; cbn; [done|]. apply isEmpty_false in Hi.
  destruct (fetchBlob svc (dataUrl img) w2) as [[blob|e] w3] eqn:Hblob; cbn; [|done].
  intros [= <- <-]. exists vp, img. split_and!; [done| |by exists (world s), w1, w2, w3].
  unfold advances, imageStageCalls. cbn. by rewrite <-!app_assoc, app_nil_r.
Qed.

Lemma saveToHistory_fulfilled (jobLang : string) (jobType : JobType)
    (theme : string) (subthemes : list string)
    (prayer : string) (post : Post) (audioBlob imageBlob : Blob) s s' :
  saveToHistory svc jobLang jobType theme subthemes prayer post audioBlob imageBlob s
  = (Ok (), s') →
  ∃ t timestamp,
    let item := historyItemOf jobLang jobType theme subthemes prayer post t timestamp in
    calls s' = calls s ++ [IdbSet (item_audioBlobKey item);
                           IdbSet (item_imageBlobKey item); SetHistory item]
    ∧ sleeps s' = sleeps s
    ∧ idb s' = <[item_imageBlobKey item := imageBlob]>
                 (<[item_audioBlobKey item := audioBlob]> (idb s))
    ∧ history s' = jsSort byTimestampDesc (item :: history s)
    ∧ inProgress s' = inProgress s ∧ ledger s' = ledger s
    ∧ consoleErrors s' = consoleErrors s.
Proof.
  unfold saveToHistory, now, promiseAll2, idbSet, remote, modify, mbind, Async_bind.
  destruct (dateNow svc (world s)) as [t w1]. cbn.
  set (id := pretty t +:+ "-" +:+ jobLang +:+ "-" +:+ jobTypeCode jobType).
  destruct (idbWrite svc ("history_audio_" +:+ id) audioBlob w1) as [[[]|e1] w2]; cbn;
    destruct (idbWrite svc ("history_image_" +:+ id) imageBlob w2) as [[[]|e2] w3]; cbn;
    [|done..].
  destruct (dateNow svc w3) as [timestamp w4]. cbn.
  intros [= <-]. exists t, timestamp. cbn. fold id.
  split_and!; [|done..]. by rewrite <-!app_assoc.
Qed.

(** Everything a fulfilled run did. *)
Lemma generateAndSaveKit_fulfilled (jobLang : string) (jobType : JobType)
    (theme : string) (subthemes : list string) (sharedImageBlob : option Blob) s s' :
  generateAndSaveKit svc jobLang jobType theme subthemes sharedImageBlob s = (Ok (), s') →
  ∃ prayer post audioB64 pcmData imageBlob imageStage t timestamp w w',
    let item := historyItemOf jobLang jobType theme subthemes prayer post t timestamp in
    prayer ≠ "" ∧ postOfType jobType post
    ∧ generateSpeech svc prayer
        match jobType with long => Some dialogueSpeakers | short => None end w
      = (Ok audioB64, w')
    ∧ audioB64 ≠ "" ∧ decode svc audioB64 = Ok pcmData
    ∧ match sharedImageBlob with
      | Some blob => imageBlob = blob ∧ imageStage = []
      | None =>
          ∃ visualPrompt imageB64, imageB64 ≠ ""
            ∧ imageStage
              = imageStageCalls jobLang jobType prayer post visualPrompt imageB64
            ∧ imageMadeFor svc jobLang jobType prayer post visualPrompt imageB64
                imageBlob
      end
    ∧ calls s' = calls s ++ textCalls jobLang jobType theme subthemes prayer
                   ++ [speechCall jobType prayer] ++ imageStage
                   ++ [IdbSet (item_audioBlobKey item);
                       IdbSet (item_imageBlobKey item); SetHistory item]
    ∧ sleeps s' = sleeps s ++ [1000]
    ∧ idb s' = <[item_imageBlobKey item := imageBlob]>
                 (<[item_audioBlobKey item := createWavFile svc pcmData 1 24000 16]>
                    (idb s))
    ∧ history s' = jsSort byTimestampDesc (item :: history s).
Proof.
  unfold generateAndSaveKit, generateAssets. intros H.
  apply bind_ok_inv in H as ([[[prayer post] audioBlob] imageBlob] & s3 & H & Hsave).
  apply bind_ok_inv in H as ([prayer' post'] & s1 & Htext & H).
  apply bind_ok_inv in H as (audioBlob' & s2 & Haudio & H).
  apply bind_ok_inv in H as (imageBlob' & s3' & Himage & [= -> -> -> -> ->]).
  apply generateTextAssets_fulfilled in Htext as (Hp & Hkind & Hadv1).
  apply generateAudio_fulfilled in Haudio
    as (audioB64 & pcmData & w' & Hspeech & Ha & Hd & -> & Hadv2).
  apply resolveImage_fulfilled in Himage.
  apply saveToHistory_fulfilled in Hsave
    as (t & timestamp & Hcalls & Hsleeps & Hidb & Hhist & _).
  assert (∃ imageStage, advances s2 s3 imageStage []
            ∧ match sharedImageBlob with
              | Some blob => imageBlob = blob ∧ imageStage = []
              | None =>
                  ∃ visualPrompt imageB64, imageB64 ≠ ""
                    ∧ imageStage
                      = imageStageCalls jobLang jobType prayer post visualPrompt imageB64
                    ∧ imageMadeFor svc jobLang jobType prayer post visualPrompt imageB64
                        imageBlob
              end) as (imageStage & Hadv3 & Hstage).
  { destruct sharedImageBlob as [blob|].
    - destruct Himage as [-> ->]. exists []. split; [|done].
      unfold advances. by rewrite !app_nil_r.
    - destruct Himage as (vp & img & Hi & Hadv & Hmade). eexists. split; [done|].
      by exists vp, img. }
  pose proof (advances_trans _ _ _ _ _ _ _ Hadv1 (advances_trans _ _ _ _ _ _ _ Hadv2 Hadv3))
    as (Hc & Hz & Hi & Hh & _).
  exists prayer, post, audioB64, pcmData, imageBlob, imageStage, t, timestamp, (world s1), w'.
  cbn zeta in *. split_and!; [done..| | | |].
  - by rewrite Hcalls, Hc, <-!app_assoc.
  - by rewrite Hsleeps, Hz.
  - by rewrite Hidb, Hi.
  - by rewrite Hhist, Hh.
Qed.

End PipelineMore.

(** X7: a run that is fulfilled has made its calls in one fixed order: the
    two text calls with a wait of one second between them, the speech call,
    the three calls of the image stage unless an image was shared, the two
    writes to the blob store and the update of the history.  One and the same
    prayer text, which is not empty, goes to the speech call, to the post of
    a short job, to the thumbnail prompt and into the item; the post of a
    long job is asked for with the theme and the sub-themes.  The item
    recorded is the one built from these values. *)
Theorem fulfilled_run_calls {W} (svc : Services W) (jobLang : string)
    (jobType : JobType) (theme : string) (subthemes : list string)
    (sharedImageBlob : option Blob) (s : Sys W) :
  let run := generateAndSaveKit svc jobLang jobType theme subthemes sharedImageBlob s in
  run.1 = Ok () →
  ∃ prayer post imageStage t timestamp,
    let item := historyItemOf jobLang jobType theme subthemes prayer post t timestamp in
    calls run.2
    = calls s ++ textCalls jobLang jobType theme subthemes prayer
        ++ [speechCall jobType prayer] ++ imageStage
        ++ [IdbSet (item_audioBlobKey item); IdbSet (item_imageBlobKey item);
            SetHistory item]
    ∧ sleeps run.2 = sleeps s ++ [1000]
    ∧ prayer ≠ "" ∧ postOfType jobType post
    ∧ match sharedImageBlob with
      | Some _ => imageStage = []
      | None =>
          ∃ visualPrompt imageB64, imageB64 ≠ ""
            ∧ imageStage
              = imageStageCalls jobLang jobType prayer post visualPrompt imageB64
      end.
Proof.
  intros run Hok.
  destruct (generateAndSaveKit_fulfilled svc jobLang jobType theme subthemes
              sharedImageBlob s run.2)
    as (prayer & post & audioB64 & pcmData & imageBlob & imageStage & t & timestamp
        & w & w' & Hp & Hkind & _ & _ & _ & Hstage & Hcalls & Hsleeps & _).
  { rewrite <-Hok. apply surjective_pairing. }
  exists prayer, post, imageStage, t, timestamp. cbn zeta in *.
  split_and!; [done..|].
  destruct sharedImageBlob; [by destruct Hstage|].
  destruct Hstage as (visualPrompt & imageB64 & ? & ? & _). by exists visualPrompt, imageB64.
Qed.

Lemma fulfilled_run_calls_witness :
  ∃ prayer post imageStage t timestamp,
    let item := historyItemOf "en" short "hope" [] prayer post t timestamp in
    calls (generateAndSaveKit (scriptedServices neverFails)
             "en" short "hope" [] None freshSys).2
    = calls freshSys ++ textCalls "en" short "hope" [] prayer
        ++ [speechCall short prayer] ++ imageStage
        ++ [IdbSet (item_audioBlobKey item); IdbSet (item_imageBlobKey item);
            SetHistory item]
    ∧ sleeps (generateAndSaveKit (scriptedServices neverFails)
                "en" short "hope" [] None freshSys).2 = sleeps freshSys ++ [1000]
    ∧ prayer ≠ "" ∧ postOfType short post
    ∧ ∃ visualPrompt imageB64, imageB64 ≠ ""
        ∧ imageStage = imageStageCalls "en" short prayer post visualPrompt imageB64.
Proof.
  exact (fulfilled_run_calls (scriptedServices neverFails) "en" short "hope" [] None
           freshSys eq_refl).
Defined.

(** The calls of that run, in full. *)
Example scripted_short_run_calls :
  calls (generateAndSaveKit (scriptedServices neverFails)
           "en" short "hope" [] None freshSys).2
  = [GenerateShortPrayer "hope" "en";
     GenerateSocialMediaPost "short prayer en#0" "en";
     GenerateSpeech "short prayer en#0" None;
     CreateThumbnailPromptFromPost "title#1" "description" "short prayer en#0" "en";
     GenerateImageFromPrayer "thumbnail prompt#3" "9:16" "imagen-4.0-generate-001";
     Fetch "data:image/png;base64,image#4";
     IdbSet "history_audio_1704110700006-en-short";
     IdbSet "history_image_1704110700006-en-short";
     SetHistory (historyItemOf "en" short "hope" [] "short prayer en#0"
                   (ShortPost {| sm_title := "title#1"; sm_description := "description";
                                 sm_hashtags := ["#prayer"] |})
                   1704110700006 1704110700009)].
Proof. by vm_compute. Qed.

Lemma blob_keys_differ (id : string) : "history_audio_" +:+ id ≠ "history_image_" +:+ id.
Proof. intros Heq. by injection Heq. Qed.

(** X8: after a fulfilled run the blob store holds, under the two keys
    named in the new history item, the audio made from the decoded answer of
    the speech call and the image of the run.  That image is the shared image
    when one was given; otherwise it is the blob fetched from the data URL
    of the image that was generated, at the aspect ratio of the job type,
    from the thumbnail prompt made for the post and the prayer the item
    keeps.  The two keys differ, the item is in the history, and every other
    key of the store holds what it held before. *)
Theorem fulfilled_run_blobs {W} (svc : Services W) (jobLang : string)
    (jobType : JobType) (theme : string) (subthemes : list string)
    (sharedImageBlob : option Blob) (s : Sys W) :
  let run := generateAndSaveKit svc jobLang jobType theme subthemes sharedImageBlob s in
  run.1 = Ok () →
  ∃ item audioB64 pcmData imageBlob w w',
    item ∈ history run.2
    ∧ generateSpeech svc (item_prayer item)
        match jobType with long => Some dialogueSpeakers | short => None end w
      = (Ok audioB64, w')
    ∧ decode svc audioB64 = Ok pcmData
    ∧ idb run.2 !! item_audioBlobKey item = Some (createWavFile svc pcmData 1 24000 16)
    ∧ idb run.2 !! item_imageBlobKey item = Some imageBlob
    ∧ match sharedImageBlob with
      | Some blob => imageBlob = blob
      | None =>
          ∃ post visualPrompt imageB64,
            postOfItem item = Some post ∧ imageB64 ≠ ""
            ∧ imageMadeFor svc jobLang jobType (item_prayer item) post
                visualPrompt imageB64 imageBlob
      end
    ∧ item_audioBlobKey item ≠ item_imageBlobKey item
    ∧ item_isDownloaded item = false
    ∧ ∀ key, key ≠ item_audioBlobKey item → key ≠ item_imageBlobKey item →
        idb run.2 !! key = idb s !! key.
Proof.
  intros run Hok.
  destruct (generateAndSaveKit_fulfilled svc jobLang jobType theme subthemes
              sharedImageBlob s run.2)
    as (prayer & post & audioB64 & pcmData & imageBlob & imageStage & t & timestamp
        & w & w' & _ & Hkind & Hspeech & _ & Hd & Hstage & _ & _ & Hidb & Hhist).
  { rewrite <-Hok. apply surjective_pairing. }
  cbn zeta in *.
  set (item := historyItemOf jobLang jobType theme subthemes prayer post t timestamp) in *.
  exists item, audioB64, pcmData, imageBlob, w, w'.
  assert (item_audioBlobKey item ≠ item_imageBlobKey item) as Hne
    by apply blob_keys_differ.
  split_and!; [|done|done| | | |done|done|].
  - rewrite Hhist. rewrite (jsSort_perm byTimestampDesc). apply list_elem_of_here.
  - rewrite Hidb, lookup_insert_ne by done. apply lookup_insert_eq.
  - rewrite Hidb. apply lookup_insert_eq.
  - destruct sharedImageBlob as [blob|]; [by destruct Hstage|].
    destruct Hstage as (visualPrompt & imageB64 & Himg & _ & Hmade).
    exists post, visualPrompt, imageB64. split_and!; [|done..].
    unfold postOfItem. simpl. by destruct jobType, post.
  - intros key Ha Hi. by rewrite Hidb, !lookup_insert_ne.
Qed.

Lemma fulfilled_run_blobs_witness :
  ∃ item imageBlob post visualPrompt imageB64,
    item ∈ history (generateAndSaveKit (scriptedServices neverFails)
                      "en" short "hope" [] None freshSys).2
    ∧ idb (generateAndSaveKit (scriptedServices neverFails)
             "en" short "hope" [] None freshSys).2 !! item_imageBlobKey item
      = Some imageBlob
    ∧ postOfItem item = Some post
    ∧ imageMadeFor (scriptedServices neverFails) "en" short (item_prayer item) post
        visualPrompt imageB64 imageBlob.
Proof.
  destruct (fulfilled_run_blobs (scriptedServices neverFails) "en" short "hope" []
              None freshSys eq_refl)
    as (item & _ & _ & imageBlob & _ & _ & Hin & _ & _ & _ & Himage
        & (post & visualPrompt & imageB64 & Hpost & _ & Hmade) & _).
  by exists item, imageBlob, post, visualPrompt, imageB64.
Defined.

(** In the scripted world the image of a short run comes out of operations
    3 to 5: the thumbnail prompt, the image at 9:16 and the fetch. *)
Example scripted_short_run_image :
  let run := generateAndSaveKit (scriptedServices neverFails)
               "en" short "hope" [] None freshSys in
  imageCalls (calls run.2)
  = [GenerateImageFromPrayer "thumbnail prompt#3" "9:16" "imagen-4.0-generate-001"]
  ∧ idb run.2 !! "history_image_1704110700006-en-short"
    = Some {| blob_type := "image/png"; blob_bytes := [5] |}.
Proof. by vm_compute. Qed.

(** X9: when the write of the image blob is rejected after the write of
    the audio blob went through, the save is rejected with that error and no
    item is added to the history, but the audio blob stays in the store:
    the item that would have named its key is never recorded. *)
Theorem rejected_image_write_keeps_audio_blob {W} (svc : Services W)
    (jobLang : string) (jobType : JobType) (theme : string) (subthemes : list string)
    (prayer : string) (post : Post) (audioBlob imageBlob : Blob) (s : Sys W)
    (t : Z) (w1 w2 w3 : W) (error : JsError) :
  let id := pretty t +:+ "-" +:+ jobLang +:+ "-" +:+ jobTypeCode jobType in
  let run := saveToHistory svc jobLang jobType theme subthemes prayer post
               audioBlob imageBlob s in
  dateNow svc (world s) = (t, w1) →
  idbWrite svc ("history_audio_" +:+ id) audioBlob w1 = (Ok (), w2) →
  idbWrite svc ("history_image_" +:+ id) imageBlob w2 = (Throw error, w3) →
  run.1 = Throw error
  ∧ history run.2 = history s
  ∧ idb run.2 = <["history_audio_" +:+ id := audioBlob]> (idb s)
  ∧ calls run.2 = calls s ++ [IdbSet ("history_audio_" +:+ id);
                              IdbSet ("history_image_" +:+ id)].
Proof.
  intros id run Hnow Haudio Himage. subst run.
  unfold saveToHistory, now, promiseAll2, idbSet, remote, modify, mbind, Async_bind.
  rewrite Hnow. cbn. fold id. rewrite Haudio. cbn. rewrite Himage. cbn.
  split_and!; [done..|]. by rewrite <-app_assoc.
Qed.

Lemma rejected_image_write_keeps_audio_blob_witness :
  (saveToHistory (scriptedServices (failsAt 2 quotaError)) "pt" short "hope" []
     "a prayer" (ShortPost {| sm_title := "title"; sm_description := "description";
                              sm_hashtags := [] |})
     {| blob_type := "audio/wav"; blob_bytes := [1] |}
     {| blob_type := "image/png"; blob_bytes := [2] |} freshSys).1 = Throw quotaError
  ∧ history (saveToHistory (scriptedServices (failsAt 2 quotaError)) "pt" short "hope" []
     "a prayer" (ShortPost {| sm_title := "title"; sm_description := "description";
                              sm_hashtags := [] |})
     {| blob_type := "audio/wav"; blob_bytes := [1] |}
     {| blob_type := "image/png"; blob_bytes := [2] |} freshSys).2 = history freshSys
  ∧ idb (saveToHistory (scriptedServices (failsAt 2 quotaError)) "pt" short "hope" []
     "a prayer" (ShortPost {| sm_title := "title"; sm_description := "description";
                              sm_hashtags := [] |})
     {| blob_type := "audio/wav"; blob_bytes := [1] |}
     {| blob_type := "image/png"; blob_bytes := [2] |} freshSys).2
    = <["history_audio_" +:+ pretty 1704110700000 +:+ "-" +:+ "pt" +:+ "-"
        +:+ jobTypeCode short
        := {| blob_type := "audio/wav"; blob_bytes := [1] |}]> (idb freshSys)
  ∧ calls (saveToHistory (scriptedServices (failsAt 2 quotaError)) "pt" short "hope" []
     "a prayer" (ShortPost {| sm_title := "title"; sm_description := "description";
                              sm_hashtags := [] |})
     {| blob_type := "audio/wav"; blob_bytes := [1] |}
     {| blob_type := "image/png"; blob_bytes := [2] |} freshSys).2
    = calls freshSys
      ++ [IdbSet ("history_audio_" +:+ pretty 1704110700000 +:+ "-" +:+ "pt" +:+ "-"
                  +:+ jobTypeCode short);
          IdbSet ("history_image_" +:+ pretty 1704110700000 +:+ "-" +:+ "pt" +:+ "-"
                  +:+ jobTypeCode short)].
Proof.
  exact (rejected_image_write_keeps_audio_blob (scriptedServices (failsAt 2 quotaError))
           "pt" short "hope" [] "a prayer"
           (ShortPost {| sm_title := "title"; sm_description := "description";
                         sm_hashtags := [] |})
           {| blob_type := "audio/wav"; blob_bytes := [1] |}
           {| blob_type := "image/png"; blob_bytes := [2] |} freshSys
           1704110700000 1%nat 2%nat 3%nat quotaError eq_refl eq_refl eq_refl).
Defined.

(** ** Where the new item lands in the history *)

Lemma timestampDescending_all (x : MarketingHistoryItem) (l : list MarketingHistoryItem) :
  timestampDescending (x :: l) →
  Forall (λ old, item_timestamp old ≤ item_timestamp x) l.
Proof.
  unfold timestampDescending. intros Hs.
  apply Sorted_StronglySorted in Hs; [|intros a b c; simpl; lia].
  apply StronglySorted_inv in Hs as [_ Hall].
  eapply Forall_impl; [apply Hall|]. done.
Qed.

Lemma jsSort_sorted_id (l : list MarketingHistoryItem) :
  timestampDescending l → jsSort byTimestampDesc l = l.
Proof.
  unfold timestampDescending, jsSort. induction 1 as [|x l Hs IH Hhd]; [done|].
  simpl. rewrite IH. destruct Hhd as [|y l Hxy]; [done|].
  simpl. unfold byTimestampDesc at 1.
  destruct (Z.leb_spec (item_timestamp y - item_timestamp x) 0); [done|lia].
Qed.

Lemma sortInsert_position (x : MarketingHistoryItem) (l : list MarketingHistoryItem) :
  timestampDescending l →
  ∃ before after, l = before ++ after
    ∧ sortInsert byTimestampDesc x l = before ++ x :: after
    ∧ Forall (λ old, item_timestamp x < item_timestamp old) before
    ∧ Forall (λ old, item_timestamp old ≤ item_timestamp x) after.
Proof.
  intros Hs. induction l as [|y l IH]; simpl.
  - exists [], []. by split_and!.
  - unfold byTimestampDesc at 1.
    destruct (Z.leb_spec (item_timestamp y - item_timestamp x) 0) as [Hle|Hgt].
    + exists [], (y :: l). split_and!; [done..|].
      constructor; [lia|].
      eapply Forall_impl; [by apply timestampDescending_all|]. simpl. lia.
    + destruct IH as (before & after & -> & -> & Hb & Ha).
      { unfold timestampDescending in *. by apply Sorted_inv in Hs as [? _]. }
      exists (y :: before), after. split_and!; [done..| |done].
      constructor; [lia|done].
Qed.

(** X10: when the history was ordered latest first, a fulfilled run leaves
    the earlier items in the order they had and puts the new item in front of
    the first earlier item that is not later than it: the items before it are
    strictly later, the items behind it are not.  So an item whose timestamp is
    the latest so far, or equal to it, comes first. *)
Theorem new_item_position {W} (svc : Services W) (jobLang : string)
    (jobType : JobType) (theme : string) (subthemes : list string)
    (sharedImageBlob : option Blob) (s : Sys W) :
  let run := generateAndSaveKit svc jobLang jobType theme subthemes sharedImageBlob s in
  run.1 = Ok () → timestampDescending (history s) →
  ∃ item before after,
    history s = before ++ after
    ∧ history run.2 = before ++ item :: after
    ∧ Forall (λ old, item_timestamp item < item_timestamp old) before
    ∧ Forall (λ old, item_timestamp old ≤ item_timestamp item) after
    ∧ ((∀ old, old ∈ history s → item_timestamp old ≤ item_timestamp item) →
       history run.2 = item :: history s).
Proof.
  intros run Hok Hsorted.
  destruct (generateAndSaveKit_fulfilled svc jobLang jobType theme subthemes
              sharedImageBlob s run.2)
    as (prayer & post & audioB64 & pcmData & imageBlob & imageStage & t & timestamp
        & w & w' & _ & _ & _ & _ & _ & _ & _ & _ & _ & Hhist).
  { rewrite <-Hok. apply surjective_pairing. }
  cbn zeta in Hhist.
  set (item := historyItemOf jobLang jobType theme subthemes prayer post t timestamp) in *.
  assert (history run.2 = sortInsert byTimestampDesc item (history s)) as Hins.
  { rewrite Hhist. unfold jsSort. simpl. f_equal. by apply jsSort_sorted_id. }
  destruct (sortInsert_position item (history s) Hsorted)
    as (before & after & Hsplit & Hpos & Hb & Ha).
  exists item, before, after. split_and!; [done|by rewrite Hins|done|done|].
  intros Hlatest. rewrite Hins, Hpos.
  destruct before as [|old before]; [by rewrite Hsplit|].
  apply Forall_cons in Hb as [Hold _].
  specialize (Hlatest old). rewrite Hsplit in Hlatest.
  specialize (Hlatest (list_elem_of_here _ _)). lia.
Qed.

Lemma new_item_position_witness :
  ∃ item before after,
    history latestFirstSys = before ++ after
    ∧ history (generateAndSaveKit (scriptedServices neverFails) "en" short "hope" [] None
                 latestFirstSys).2
      = before ++ item :: after
    ∧ Forall (λ old, item_timestamp item < item_timestamp old) before
    ∧ Forall (λ old, item_timestamp old ≤ item_timestamp item) after
    ∧ ((∀ old, old ∈ history latestFirstSys →
          item_timestamp old ≤ item_timestamp item) →
       history (generateAndSaveKit (scriptedServices neverFails) "en" short "hope" []
                  None latestFirstSys).2
       = item :: history latestFirstSys).
Proof.
  refine (new_item_position (scriptedServices neverFails) "en" short "hope" [] None
            latestFirstSys eq_refl _).
  repeat constructor; simpl; lia.
Defined.

(** ** What a launching job adds to the history *)

Section BatchHistory.

Context {W : Type} (svc : Services W).
Implicit Types (s : Sys W) (new : list Call).

Lemma records_trans s s1 s2 new1 new2 :
  records s s1 new1 → records s1 s2 new2 → records s s2 (new1 ++ new2).
Proof.
  unfold records. intros (Hc1 & Hp1 & He1 & Hs1) (Hc2 & Hp2 & He2 & Hs2).
  rewrite recordedItems_app. split_and!.
  - by rewrite Hc2, Hc1, app_assoc.
  - rewrite Hp2, Hp1, !app_assoc. apply Permutation_app_tail, Permutation_app_comm.
  - intros [H1 H2]%app_eq_nil. by rewrite He2, He1.
  - intros Hne. destruct (recordedItems new2) as [|item2 items2] eqn:H2; [|by apply Hs2].
    rewrite He2 by done. apply Hs1. by rewrite app_nil_r in Hne.
Qed.

Lemma records_plain s s' new :
  generates s s' new → Forall (λ c, isRecordingCall c = false) new → records s s' new.
Proof.
  intros (Hc & _ & Hh & _) Hplain. unfold records.
  rewrite (recordedItems_none _ Hplain). by split_and!; [|rewrite Hh|..].
Qed.

Lemma records_remote (c : Call) (w' : W) s :
  isRecordingCall c = false → records s (withWorld w' (logCall c s)) [c].
Proof.
  intros Hc. apply records_plain; [apply generates_remote|]. by repeat constructor.
Qed.

Lemma records_sleep (delay : Z) s : records s (logSleep delay s) [].
Proof.
  apply records_plain; [apply generates_sleep|constructor].
Qed.

(** What one run leaves behind, whatever its outcome. *)
Lemma generateAndSaveKit_records (jobLang : string) (jobType : JobType)
    (theme : string) (subthemes : list string) (sharedImageBlob : option Blob) s r s' :
  generateAndSaveKit svc jobLang jobType theme subthemes sharedImageBlob s = (r, s') →
  ∃ new, records s s' new
    ∧ Forall (λ item, item_type item = jobType ∧ item_language item = jobLang)
        (recordedItems new)
    ∧ (is_Some sharedImageBlob → imageCalls new = [])
    ∧ match r with
      | Ok _ => length (recordedItems new) = 1%nat
      | Throw _ => recordedItems new = []
      end.
Proof.
  intros (_ & _ & _ & new & Hcalls & _ & Himg & Hres)%generateAndSaveKit_spec.
  exists new. unfold records. destruct r as [[]|error].
  - destruct Hres as (item & Hitems & Hhist & Hlang & Htype & _).
    rewrite Hitems. split_and!; [done| |done| |by repeat constructor| |done].
    + rewrite Hhist. apply jsSort_perm.
    + intros _. rewrite Hhist. apply jsSort_sorted.
    + intros [blob ->]. done.
  - destruct Hres as [Hitems Hhist]. rewrite Hitems.
    split_and!; [done|by rewrite Hhist|done|done|constructor| |done].
    intros [blob ->]. done.
Qed.

(** The three runs of a batch, each entered only if the one before it was
    fulfilled. *)
Lemma batch_runs_records (theme : string) (subthemes : list string) (imageBlob : Blob)
    s r s' :
  (_ ← generateAndSaveKit svc "pt" long theme subthemes (Some imageBlob);
   _ ← sleep 2000;
   _ ← generateAndSaveKit svc "en" long theme subthemes (Some imageBlob);
   _ ← sleep 2000;
   generateAndSaveKit svc "es" long theme subthemes (Some imageBlob)) s = (r, s') →
  ∃ kits n, records s s' kits
    ∧ item_language <$> recordedItems kits = take n ["pt"; "en"; "es"]
    ∧ Forall (λ item, item_type item = long) (recordedItems kits)
    ∧ imageCalls kits = []
    ∧ (r = Ok () → n = 3%nat).
Proof.
  assert (∀ jobLang new,
            Forall (λ item, item_type item = long ∧ item_language item = jobLang)
              (recordedItems new) →
            length (recordedItems new) = 1%nat →
            item_language <$> recordedItems new = [jobLang]
            ∧ Forall (λ item, item_type item = long) (recordedItems new)) as Hone.
  { intros jobLang new Hall Hlen.
    destruct (recordedItems new) as [|item [|? ?]]; [done| |done].
    apply Forall_cons in Hall as [[? <-] _]. split; [done|]. by repeat constructor. }
  intros H.
  apply bind_inv in H as [(e & H & ->) | ([] & s1 & Hpt & H)].
  { apply generateAndSaveKit_records in H as (new1 & Hrec1 & _ & Himg1 & Hnone).
    exists new1, 0%nat. rewrite Hnone. split_and!; [done|done|constructor|by apply Himg1|done]. }
  apply generateAndSaveKit_records in Hpt as (new1 & Hrec1 & Hall1 & Himg1 & Hlen1).
  destruct (Hone _ _ Hall1 Hlen1) as [Hl1 Ht1]. specialize (Himg1 ltac:(done)).
  apply bind_inv in H as [(? & [? _]%sleep_inv & _) | ([] & ? & [_ ->]%sleep_inv & H)];
    [done|].
  pose proof (records_trans _ _ _ _ _ Hrec1 (records_sleep 2000 s1)) as Hrec1'.
  rewrite app_nil_r in Hrec1'.
  apply bind_inv in H as [(e & H & ->) | ([] & s2 & Hen & H)].
  { apply generateAndSaveKit_records in H as (new2 & Hrec2 & _ & Himg2 & Hnone).
    exists (new1 ++ new2), 1%nat.
    rewrite recordedItems_app, imageCalls_app, Hnone, app_nil_r, Himg1, Himg2 by done.
    split_and!; [by eapply records_trans|done..]. }
  apply generateAndSaveKit_records in Hen as (new2 & Hrec2 & Hall2 & Himg2 & Hlen2).
  destruct (Hone _ _ Hall2 Hlen2) as [Hl2 Ht2]. specialize (Himg2 ltac:(done)).
  pose proof (records_trans _ _ _ _ _ Hrec1' Hrec2) as Hrec12.
  apply bind_inv in H as [(? & [? _]%sleep_inv & _) | ([] & ? & [_ ->]%sleep_inv & H)];
    [done|].
  pose proof (records_trans _ _ _ _ _ Hrec12 (records_sleep 2000 s2)) as Hrec12'.
  rewrite app_nil_r in Hrec12'.
  apply generateAndSaveKit_records in H as (new3 & Hrec3 & Hall3 & Himg3 & Hres).
  specialize (Himg3 ltac:(done)).
  destruct r as [[]|e].
  - destruct (Hone _ _ Hall3 Hres) as [Hl3 Ht3].
    exists ((new1 ++ new2) ++ new3), 3%nat.
    rewrite !recordedItems_app, !imageCalls_app, !fmap_app, Hl1, Hl2, Hl3, Himg1, Himg2,
      Himg3.
    split_and!; [by eapply records_trans|done| |done|done].
    rewrite !Forall_app. by split_and!.
  - exists ((new1 ++ new2) ++ new3), 2%nat.
    rewrite !recordedItems_app, !imageCalls_app, !fmap_app, Hl1, Hl2, Hres, Himg1, Himg2,
      Himg3.
    split_and!; [by eapply records_trans|done| |done|done].
    rewrite !Forall_app. by split_and!.
Qed.

(** The [try] block of the batch. *)
Lemma longVideoBatchBody_records s r s' :
  longVideoBatchBody svc s = (r, s') →
  ∃ new n, records s s' new
    ∧ item_language <$> recordedItems new = take n ["pt"; "en"; "es"]
    ∧ Forall (λ item, item_type item = long) (recordedItems new)
    ∧ (r = Ok () → n = 3%nat)
    ∧ (imageCalls new = []
       ∨ ∃ prompt, imageCalls new = [GenerateImageFromPrayer prompt "16:9" imageModel])
    ∧ (recordedItems new ≠ [] →
       ∃ prompt, imageCalls new = [GenerateImageFromPrayer prompt "16:9" imageModel]).
Proof.
  unfold longVideoBatchBody. intros H.
  apply bind_inv in H as [(? & (w1 & _ & ->)%remote_inv & ->)
                         | ([theme subthemes] & ? & (w1 & _ & ->)%remote_inv & H)].
  { eexists [_], 0%nat.
    split_and!; [by apply records_remote|done|constructor|done|by left|done]. }
  pose proof (records_remote (GetTrendingTopic "pt" long) w1 s eq_refl) as R1.
  apply bind_inv in H as [(? & (w2 & _ & ->)%remote_inv & ->)
                         | (p1 & ? & (w2 & _ & ->)%remote_inv & H)].
  { eexists _, 0%nat.
    split_and!; [eapply records_trans; [exact R1|by apply records_remote]
                |done|constructor|done|by left|done]. }
  pose proof (records_trans _ _ _ _ _ R1
                (records_remote (GenerateGuidedPrayer theme "pt") w2 _ eq_refl)) as R2.
  apply bind_inv in H as [(? & (w3 & _ & ->)%remote_inv & ->)
                         | (visualPrompt & ? & (w3 & _ & ->)%remote_inv & H)].
  { eexists _, 0%nat.
    split_and!; [eapply records_trans; [exact R2|by apply records_remote]
                |done|constructor|done|by left|done]. }
  pose proof (records_trans _ _ _ _ _ R2
                (records_remote (CreateMediaPromptFromPrayer p1) w3 _ eq_refl)) as R3.
  apply bind_inv in H as [(? & (w4 & _ & ->)%remote_inv & ->)
                         | (imageB64 & ? & (w4 & _ & ->)%remote_inv & H)].
  { eexists _, 0%nat.
    split_and!; [eapply records_trans; [exact R3|by apply records_remote]
                |done|constructor|done|right; by eexists|done]. }
  pose proof (records_trans _ _ _ _ _ R3
                (records_remote (GenerateImageFromPrayer visualPrompt "16:9" imageModel)
                   w4 _ eq_refl)) as R4.
  destruct (isEmpty imageB64).
  { apply throw_inv in H as [-> ->]. eexists _, 0%nat.
    split_and!; [exact R4|done|constructor|done|right; by eexists|done]. }
  apply bind_inv in H as [(? & (w5 & _ & ->)%remote_inv & ->)
                         | (imageBlob & ? & (w5 & _ & ->)%remote_inv & H)].
  { eexists _, 0%nat.
    split_and!; [eapply records_trans; [exact R4|by apply records_remote]
                |done|constructor|done|right; by eexists|done]. }
  pose proof (records_trans _ _ _ _ _ R4
                (records_remote (Fetch (dataUrl imageB64)) w5 _ eq_refl)) as R5.
  apply batch_runs_records in H as (kits & n & Rk & Hlang & Htype & Himg & Hn).
  eexists _, n.
  split_and!; [eapply records_trans; [exact R5|exact Rk]| | |done| |].
  - by rewrite recordedItems_app.
  - by rewrite recordedItems_app.
  - right. exists visualPrompt. by rewrite imageCalls_app, Himg.
  - intros _. exists visualPrompt. by rewrite imageCalls_app, Himg.
Qed.

Lemma runAutomatedLongVideoBatch_records s :
  ∃ new n, records s (runAutomatedLongVideoBatch svc s).2 new
    ∧ item_language <$> recordedItems new = take n ["pt"; "en"; "es"]
    ∧ Forall (λ item, item_type item = long) (recordedItems new)
    ∧ (consoleErrors (runAutomatedLongVideoBatch svc s).2 = consoleErrors s → n = 3%nat)
    ∧ (imageCalls new = []
       ∨ ∃ prompt, imageCalls new = [GenerateImageFromPrayer prompt "16:9" imageModel])
    ∧ (recordedItems new ≠ [] →
       ∃ prompt, imageCalls new = [GenerateImageFromPrayer prompt "16:9" imageModel]).
Proof.
  unfold runAutomatedLongVideoBatch, tryFinally, tryCatch, modify, mbind, Async_bind.
  set (s0 := setJobsInProgress _ s).
  destruct (longVideoBatchBody svc s0) as [[[]|error] s1] eqn:Hbody;
    pose proof (longVideoBatchBody_spec svc _ _ _ Hbody) as (_ & _ & Hcons & _);
    apply longVideoBatchBody_records in Hbody
      as (new & n & Hrec & Hlang & Htype & Hn & Himg & Himg');
    exists new, n; (split_and!; [exact Hrec|done|done| |done|done]).
  - intros _. by apply Hn.
  - simpl. rewrite Hcons. simpl. intros Heq.
    apply (f_equal length) in Heq. rewrite length_app in Heq. simpl in Heq. lia.
Qed.

Lemma runAutomatedShortVideoJob_records (jobLang : string) s :
  ∃ new, records s (runAutomatedShortVideoJob svc jobLang s).2 new
    ∧ (length (recordedItems new) ≤ 1)%nat
    ∧ Forall (λ item, item_type item = short ∧ item_language item = jobLang)
        (recordedItems new).
Proof.
  unfold runAutomatedShortVideoJob, tryFinally, tryCatch, modify.
  unfold mbind at 1, Async_bind at 1.
  set (s0 := setJobsInProgress _ s).
  set (body := mbind _ _).
  assert (∀ r s1, body s0 = (r, s1) →
            ∃ new, records s s1 new
              ∧ (length (recordedItems new) ≤ 1)%nat
              ∧ Forall (λ item, item_type item = short ∧ item_language item = jobLang)
                  (recordedItems new)) as Hbody.
  { intros r s1 H. subst body.
    apply bind_inv in H as [(? & (w1 & _ & ->)%remote_inv & _)
                           | ([theme subthemes] & ? & (w1 & _ & ->)%remote_inv & H)].
    { eexists [_]. split_and!; [by apply (records_remote _ _ s0)|simpl; lia|constructor]. }
    pose proof (records_remote (GetTrendingTopic jobLang short) w1 s0 eq_refl) as R1.
    apply generateAndSaveKit_records in H as (new & Hrec & Hall & _ & Hres).
    eexists. split_and!; [eapply (records_trans s0); [exact R1|exact Hrec]|..].
    - rewrite recordedItems_app. simpl. destruct r; [lia|]. rewrite Hres. simpl. lia.
    - by rewrite recordedItems_app. }
  specialize (Hbody (body s0).1 (body s0).2 (surjective_pairing _)).
  destruct (body s0) as [[[]|error] s1]; exact Hbody.
Qed.

End BatchHistory.

(** X11: a launching job never takes anything out of the history.  After a
    long-video batch the history holds the items it held before and the items
    the batch recorded: at most three long-video items, for Portuguese,
    English and Spanish in that order, all three when nothing was reported on
    the console.  After a short-video job it holds at most one item more, a
    short-video item in the language of the job.  As soon as an item was
    recorded the history is ordered latest first; otherwise it is unchanged. *)
Theorem launching_jobs_add_to_history {W} (svc : Services W) :
  (∀ s : Sys W,
     ∃ new n, calls (runAutomatedLongVideoBatch svc s).2 = calls s ++ new
       ∧ history (runAutomatedLongVideoBatch svc s).2 ≡ₚ recordedItems new ++ history s
       ∧ item_language <$> recordedItems new = take n ["pt"; "en"; "es"]
       ∧ Forall (λ item, item_type item = long) (recordedItems new)
       ∧ (consoleErrors (runAutomatedLongVideoBatch svc s).2 = consoleErrors s →
          n = 3%nat)
       ∧ (recordedItems new = [] →
          history (runAutomatedLongVideoBatch svc s).2 = history s)
       ∧ (recordedItems new ≠ [] →
          timestampDescending (history (runAutomatedLongVideoBatch svc s).2)))
  ∧ (∀ jobLang (s : Sys W),
       ∃ new, calls (runAutomatedShortVideoJob svc jobLang s).2 = calls s ++ new
         ∧ history (runAutomatedShortVideoJob svc jobLang s).2
           ≡ₚ recordedItems new ++ history s
         ∧ (length (recordedItems new) ≤ 1)%nat
         ∧ Forall (λ item, item_type item = short ∧ item_language item = jobLang)
             (recordedItems new)
         ∧ (recordedItems new = [] →
            history (runAutomatedShortVideoJob svc jobLang s).2 = history s)
         ∧ (recordedItems new ≠ [] →
            timestampDescending (history (runAutomatedShortVideoJob svc jobLang s).2))).
Proof.
  split.
  - intros s.
    destruct (runAutomatedLongVideoBatch_records svc s)
      as (new & n & (Hc & Hp & He & Hs) & Hlang & Htype & Hn & _).
    exists new, n. by split_and!.
  - intros jobLang s.
    destruct (runAutomatedShortVideoJob_records svc jobLang s)
      as (new & (Hc & Hp & He & Hs) & Hlen & Hall).
    exists new. by split_and!.
Qed.

(** X12: a long-video batch asks for an image at most once, at 16:9 from
    the image model, and every batch that recorded an item asked for exactly
    one: the runs of the three languages share it. *)
Theorem batch_shares_one_image {W} (svc : Services W) (s : Sys W) :
  ∃ new, calls (runAutomatedLongVideoBatch svc s).2 = calls s ++ new
    ∧ (imageCalls new = []
       ∨ ∃ prompt, imageCalls new
           = [GenerateImageFromPrayer prompt "16:9" "imagen-4.0-generate-001"])
    ∧ (recordedItems new ≠ [] →
       ∃ prompt, imageCalls new
         = [GenerateImageFromPrayer prompt "16:9" "imagen-4.0-generate-001"]).
Proof.
  destruct (runAutomatedLongVideoBatch_records svc s)
    as (new & n & (Hc & _) & _ & _ & _ & Himg & Himg').
  exists new. by split_and!.
Qed.

(** The scripted batch in which nothing fails: 23 calls, one of them for an
    image, and three items. *)
Example scripted_batch_counts :
  let new := calls (runAutomatedLongVideoBatch (scriptedServices neverFails) freshSys).2 in
  length new = 23%nat
  ∧ length (imageCalls new) = 1%nat
  ∧ item_language <$> recordedItems new = ["pt"; "en"; "es"]
  ∧ sleeps (runAutomatedLongVideoBatch (scriptedServices neverFails) freshSys).2
    = [1000; 2000; 1000; 2000; 1000].
Proof. by vm_compute. Qed.

(** * Properties of the generation service *)

Section ServiceFacts.

Context {W : Type} (env : geminiService.Env)
  (newGoogleGenAI : string → geminiService.GoogleGenAI W).
Implicit Types (n : geminiService.Net W).

(** An error made with [new Error] or raised by the language is outside the
    rate-limit class. *)
Lemma newError_not_rate_limit (message : string) : isRateLimit (newError message) = false.
Proof. done. Qed.

(** The wrapper around an attempt that is rejected on the spot with such an
    error. *)
Lemma callWithRetry_rejected_at_once {Σ T} (sleep : Z → Async Σ ()) (fn : Async Σ T)
    (retries : nat) (delay : Z) (error : JsError) (σ σ' : Σ) :
  fn σ = (Throw error, σ') → isRateLimit error = false →
  callWithRetry sleep fn retries delay σ = (Throw error, σ').
Proof.
  intros Hfn Hrl. destruct retries; simpl; unfold tryCatch; rewrite Hfn; [done|].
  by rewrite Hrl.
Qed.

Lemma callWithRetry_fulfilled_at_once {Σ T} (sleep : Z → Async Σ ()) (fn : Async Σ T)
    (retries : nat) (delay : Z) (v : T) (σ σ' : Σ) :
  fn σ = (Ok v, σ') → callWithRetry sleep fn retries delay σ = (Ok v, σ').
Proof. intros Hfn. destruct retries; simpl; unfold tryCatch; by rewrite Hfn. Qed.

(** The wrapper around an attempt that sends one request each time it is
    made and does not wait itself. *)
Lemma callWithRetry_net {T} (fn : Async (geminiService.Net W) T)
    (req : geminiService.Request) (retries : nat) (delay : Z) n :
  (∀ n0, geminiService.net_requests (fn n0).2 = geminiService.net_requests n0 ++ [req]
         ∧ geminiService.net_waits (fn n0).2 = geminiService.net_waits n0) →
  ∃ k n0, (k ≤ retries)%nat
    ∧ fn n0 = callWithRetry geminiService.wait fn retries delay n
    ∧ geminiService.net_requests (callWithRetry geminiService.wait fn retries delay n).2
      = geminiService.net_requests n ++ replicate (S k) req
    ∧ geminiService.net_waits (callWithRetry geminiService.wait fn retries delay n).2
      = geminiService.net_waits n ++ backoff k delay
    ∧ (k = 0%nat → n0 = n)
    ∧ (∀ error, (callWithRetry geminiService.wait fn retries delay n).1 = Throw error →
         k = retries ∨ isRateLimit error = false).
Proof.
  intros Hfn. revert delay n. induction retries as [|retries IH]; intros delay n.
  - assert (callWithRetry geminiService.wait fn 0 delay n = fn n) as ->.
    { simpl. unfold tryCatch. by destruct (fn n) as [[v|error] n1]. }
    exists 0%nat, n. destruct (Hfn n) as [Hreq Hwaits].
    split_and!; first [lia | done | by rewrite app_nil_r | by left].
  - set (n2 := λ n1 : geminiService.Net W,
                 {| geminiService.net_world := geminiService.net_world n1;
                    geminiService.net_requests := geminiService.net_requests n1;
                    geminiService.net_waits := geminiService.net_waits n1 ++ [delay] |}).
    assert (callWithRetry geminiService.wait fn (S retries) delay n
            = match fn n with
              | (Ok v, n1) => (Ok v, n1)
              | (Throw error, n1) =>
                  if isRateLimit error
                  then callWithRetry geminiService.wait fn retries (delay * 2) (n2 n1)
                  else (Throw error, n1)
              end) as ->.
    { simpl. unfold tryCatch. destruct (fn n) as [[v|error] n1]; [done|].
      by destruct (isRateLimit error). }
    destruct (Hfn n) as [Hreq Hwaits].
    destruct (fn n) as [[v|error] n1] eqn:Hrun; simpl in Hreq, Hwaits.
    + exists 0%nat, n. simpl.
      split_and!; first [lia | done | by rewrite app_nil_r].
    + destruct (isRateLimit error) eqn:Hrl.
      * destruct (IH (delay * 2) (n2 n1)) as (k & n0 & Hk & Hlast & Hr & Hw & _ & Hgive).
        exists (S k), n0. split_and!.
        -- lia.
        -- exact Hlast.
        -- rewrite Hr. subst n2. simpl. by rewrite Hreq, <-app_assoc.
        -- rewrite Hw. subst n2. simpl. by rewrite Hwaits, <-app_assoc.
        -- lia.
        -- intros e He. destruct (Hgive e He); [left; lia|by right].
      * exists 0%nat, n. simpl.
        split_and!; first [lia | done | by rewrite app_nil_r | idtac].
        intros e [= <-]. by right.
Qed.

(** ** Without a key *)

Lemma getGenAI_missing (error : JsError) :
  geminiService.getApiKey env = Throw error →
  geminiService.getGenAI env newGoogleGenAI = Throw error.
Proof. unfold geminiService.getGenAI. by intros ->. Qed.

Lemma getGenAI_found (key : string) :
  geminiService.getApiKey env = Ok key →
  geminiService.getGenAI env newGoogleGenAI = Ok (newGoogleGenAI key).
Proof. unfold geminiService.getGenAI. by intros ->. Qed.

Lemma getApiKey_missing :
  geminiService.nonEmpty (geminiService.USER_API_KEY env) = None →
  geminiService.nonEmpty (geminiService.API_KEY env) = None →
  geminiService.getApiKey env
  = Throw (newError "API Key not found. Please set it in the app.").
Proof. unfold geminiService.getApiKey. by intros -> ->. Qed.

(** ** One attempt *)

Lemma speechAttempt_sends (key : string) (params : geminiService.GenerateContentParameters)
    n :
  geminiService.getApiKey env = Ok key →
  geminiService.speechAttempt env newGoogleGenAI params n
  = match geminiService.models_generateContent (newGoogleGenAI key) params
            (geminiService.net_world n) with
    | (Ok response, w') =>
        (match geminiService.nonEmpty (geminiService.firstInlineData response) with
         | Some base64Audio => Ok base64Audio
         | None => Throw (newError "No audio data returned from API.")
         end,
         {| geminiService.net_world := w';
            geminiService.net_requests :=
              geminiService.net_requests n ++ [geminiService.GenerateContent params];
            geminiService.net_waits := geminiService.net_waits n |})
    | (Throw error, w') =>
        (Throw error,
         {| geminiService.net_world := w';
            geminiService.net_requests :=
              geminiService.net_requests n ++ [geminiService.GenerateContent params];
            geminiService.net_waits := geminiService.net_waits n |})
    end.
Proof.
  intros Hkey. unfold geminiService.speechAttempt, geminiService.settle,
    geminiService.send, mbind, Async_bind.
  rewrite (getGenAI_found key Hkey).
  destruct (geminiService.models_generateContent _ _ _) as [[response|error] w']; [|done].
  by destruct (geminiService.nonEmpty _).
Qed.

Lemma imageAttempt_sends (key : string) (params : geminiService.GenerateImagesParameters)
    n :
  geminiService.getApiKey env = Ok key →
  geminiService.imageAttempt env newGoogleGenAI params n
  = match geminiService.models_generateImages (newGoogleGenAI key) params
            (geminiService.net_world n) with
    | (Ok response, w') =>
        (match geminiService.firstImageBytes response with
         | Ok imageBytes =>
             match geminiService.nonEmpty imageBytes with
             | Some base64Image => Ok base64Image
             | None => Throw (newError "No image data returned from API.")
             end
         | Throw error => Throw error
         end,
         {| geminiService.net_world := w';
            geminiService.net_requests :=
              geminiService.net_requests n ++ [geminiService.GenerateImages params];
            geminiService.net_waits := geminiService.net_waits n |})
    | (Throw error, w') =>
        (Throw error,
         {| geminiService.net_world := w';
            geminiService.net_requests :=
              geminiService.net_requests n ++ [geminiService.GenerateImages params];
            geminiService.net_waits := geminiService.net_waits n |})
    end.
Proof.
  intros Hkey. unfold geminiService.imageAttempt, geminiService.settle,
    geminiService.send, mbind, Async_bind.
  rewrite (getGenAI_found key Hkey).
  destruct (geminiService.models_generateImages _ _ _) as [[response|error] w']; [|done].
  destruct (geminiService.firstImageBytes response) as [imageBytes|error]; [|done].
  by destruct (geminiService.nonEmpty _).
Qed.

Lemma nonEmpty_Some (v : option string) (x : string) :
  geminiService.nonEmpty v = Some x → v = Some x ∧ x ≠ "".
Proof.
  unfold geminiService.nonEmpty. destruct v as [y|]; [|done].
  destruct (isEmpty y) eqn:Hy; [done|]. intros [= ->]. by apply isEmpty_false in Hy.
Qed.

Lemma firstImageBytes_errors (response : geminiService.GenerateImagesResponse)
    (error : JsError) :
  geminiService.firstImageBytes response = Throw error → isRateLimit error = false.
Proof.
  unfold geminiService.firstImageBytes.
  destruct (geminiService.response_generatedImages response) as [images|];
    [|by intros [= <-]].
  destruct (head images) as [generated|]; [|by intros [= <-]].
  destruct (geminiService.generatedImage_image generated); [done|by intros [= <-]].
Qed.

(** ** What a fulfilled call brought back *)

Lemma generateSpeech_fulfilled (text : string)
    (multiSpeakerConfig : option MultiSpeakerConfig) n (audio : string) n' :
  geminiService.generateSpeech env newGoogleGenAI text multiSpeakerConfig n
  = (Ok audio, n') →
  audio ≠ ""
  ∧ ∃ key w response,
      geminiService.getApiKey env = Ok key
      ∧ geminiService.models_generateContent (newGoogleGenAI key)
          (geminiService.speechParameters text multiSpeakerConfig) w
        = (Ok response, geminiService.net_world n')
      ∧ geminiService.firstInlineData response = Some audio.
Proof.
  unfold geminiService.generateSpeech.
  set (params := geminiService.speechParameters text multiSpeakerConfig).
  intros Hrun.
  destruct (geminiService.getApiKey env) as [key|error] eqn:Hkey.
  - destruct (callWithRetry_net
                (geminiService.speechAttempt env newGoogleGenAI params)
                (geminiService.GenerateContent params) defaultRetries defaultDelay n)
      as (k & n0 & _ & Hlast & _).
    { intros n0. rewrite (speechAttempt_sends key params n0 Hkey).
      by destruct (geminiService.models_generateContent _ _ _) as [[?|?] ?]. }
    rewrite Hrun, (speechAttempt_sends key params n0 Hkey) in Hlast.
    destruct (geminiService.models_generateContent _ _ _) as [[response|error] w'] eqn:Hsend;
      [|done].
    destruct (geminiService.nonEmpty _) as [a|] eqn:Ha; [|done].
    injection Hlast as -> <-. apply nonEmpty_Some in Ha as [Ha ?].
    split; [done|]. by exists key, (geminiService.net_world n0), response.
  - rewrite (callWithRetry_rejected_at_once _ _ _ _ error n n) in Hrun; [done| |].
    + unfold geminiService.speechAttempt, geminiService.settle, mbind, Async_bind.
      by rewrite (getGenAI_missing error Hkey).
    + unfold geminiService.getApiKey in Hkey.
      destruct (geminiService.nonEmpty _); [done|].
      destruct (geminiService.nonEmpty _); [done|]. by injection Hkey as <-.
Qed.

Lemma generateImageFromPrayer_fulfilled (prompt aspectRatio modelName : string) n
    (image : string) n' :
  geminiService.generateImageFromPrayer env newGoogleGenAI prompt aspectRatio modelName n
  = (Ok image, n') →
  image ≠ ""
  ∧ ∃ key w response,
      geminiService.getApiKey env = Ok key
      ∧ geminiService.models_generateImages (newGoogleGenAI key)
          (geminiService.imagesParameters prompt aspectRatio modelName) w
        = (Ok response, geminiService.net_world n')
      ∧ geminiService.firstImageBytes response = Ok (Some image).
Proof.
  unfold geminiService.generateImageFromPrayer.
  set (params := geminiService.imagesParameters prompt aspectRatio modelName).
  intros Hrun.
  destruct (geminiService.getApiKey env) as [key|error] eqn:Hkey.
  - destruct (callWithRetry_net
                (geminiService.imageAttempt env newGoogleGenAI params)
                (geminiService.GenerateImages params) defaultRetries defaultDelay n)
      as (k & n0 & _ & Hlast & _).
    { intros n0. rewrite (imageAttempt_sends key params n0 Hkey).
      by destruct (geminiService.models_generateImages _ _ _) as [[?|?] ?]. }
    rewrite Hrun, (imageAttempt_sends key params n0 Hkey) in Hlast.
    destruct (geminiService.models_generateImages _ _ _) as [[response|error] w'] eqn:Hsend;
      [|done].
    destruct (geminiService.firstImageBytes response) as [imageBytes|error] eqn:Hbytes;
      [|done].
    destruct (geminiService.nonEmpty _) as [a|] eqn:Ha; [|done].
    injection Hlast as -> <-. apply nonEmpty_Some in Ha as [-> ?].
    split; [done|]. by exists key, (geminiService.net_world n0), response.
  - rewrite (callWithRetry_rejected_at_once _ _ _ _ error n n) in Hrun; [done| |].
    + unfold geminiService.imageAttempt, geminiService.settle, mbind, Async_bind.
      by rewrite (getGenAI_missing error Hkey).
    + unfold geminiService.getApiKey in Hkey.
      destruct (geminiService.nonEmpty _); [done|].
      destruct (geminiService.nonEmpty _); [done|]. by injection Hkey as <-.
Qed.

(** ** The polling loop *)

Lemma pollOperation_polls (ai : geminiService.GoogleGenAI W)
    (operation : geminiService.GenerateVideosOperation) (w : W)
    (polled : list geminiService.GenerateVideosOperation)
    (final : geminiService.GenerateVideosOperation) (w' : W) (fuel : nat) n :
  geminiService.pollsTo ai operation w polled final w' →
  geminiService.net_world n = w → (length polled ≤ fuel)%nat →
  geminiService.pollOperation ai fuel operation n
  = (Ok (Some final),
     {| geminiService.net_world := w';
        geminiService.net_requests :=
          geminiService.net_requests n ++ (geminiService.GetVideosOperation <$> polled);
        geminiService.net_waits :=
          geminiService.net_waits n ++ replicate (length polled) 10000 |}).
Proof.
  intros Hpolls. revert fuel n.
  induction Hpolls as [operation w Hdone
                      |operation w operation1 w1 polled final w' Hnot Hpoll _ IH];
    intros fuel n Hw Hfuel.
  - destruct fuel; simpl; rewrite Hdone; simpl; rewrite !app_nil_r;
      destruct n; simpl in *; by subst.
  - destruct fuel as [|fuel]; [simpl in Hfuel; lia|].
    simpl. rewrite Hnot.
    unfold mbind, Async_bind, geminiService.wait, geminiService.send, modify. simpl.
    rewrite Hw, Hpoll. rewrite IH by (simpl in *; done || lia). simpl.
    by rewrite <-!app_assoc.
Qed.

End ServiceFacts.

(** X13: [generateSpeech], when a key is found, sends the same request
    again and again, once more than it waits, at most four times, with waits
    of 2, 4 and 8 seconds.  When it is fulfilled the audio is not empty and
    is the inline data of the answer to its last request.  An answer that
    carries no audio data ends it at once with an error that is not retried.
    The request asks for audio only; it names a voice for each speaker when
    two or more are given, and the one voice Kore otherwise, so that a set-up
    with a single speaker counts for nothing. *)
Theorem generateSpeech_outcome {W} (env : geminiService.Env)
    (newGoogleGenAI : string → geminiService.GoogleGenAI W) (key text : string)
    (multiSpeakerConfig : option MultiSpeakerConfig) (n : geminiService.Net W) :
  let params := geminiService.speechParameters text multiSpeakerConfig in
  let run := geminiService.generateSpeech env newGoogleGenAI text multiSpeakerConfig n in
  geminiService.getApiKey env = Ok key →
  (∃ k, (k ≤ 3)%nat
     ∧ geminiService.net_requests run.2
       = geminiService.net_requests n
         ++ replicate (S k) (geminiService.GenerateContent params)
     ∧ geminiService.net_waits run.2 = geminiService.net_waits n ++ backoff k 2000)
  ∧ (∀ audio, run.1 = Ok audio →
       audio ≠ ""
       ∧ ∃ w response,
           geminiService.models_generateContent (newGoogleGenAI key) params w
           = (Ok response, geminiService.net_world run.2)
           ∧ geminiService.firstInlineData response = Some audio)
  ∧ (∀ response w',
       geminiService.models_generateContent (newGoogleGenAI key) params
         (geminiService.net_world n) = (Ok response, w') →
       geminiService.nonEmpty (geminiService.firstInlineData response) = None →
       run = (Throw (newError "No audio data returned from API."),
              {| geminiService.net_world := w';
                 geminiService.net_requests :=
                   geminiService.net_requests n ++ [geminiService.GenerateContent params];
                 geminiService.net_waits := geminiService.net_waits n |}))
  ∧ geminiService.content_responseModalities params = ["AUDIO"]
  ∧ geminiService.content_speechConfig params
    = match multiSpeakerConfig with
      | Some speakers =>
          if decide (2 ≤ length speakers)%nat
          then geminiService.MultiSpeakerVoiceConfig speakers
          else geminiService.VoiceConfig "Kore"
      | None => geminiService.VoiceConfig "Kore"
      end.
Proof.
  intros params run Hkey.
  pose proof (speechAttempt_sends env newGoogleGenAI key params) as Hattempt.
  destruct (callWithRetry_net
              (geminiService.speechAttempt env newGoogleGenAI params)
              (geminiService.GenerateContent params) defaultRetries defaultDelay n)
    as (k & n0 & Hk & Hlast & Hreq & Hwaits & _).
  { intros n0. rewrite (Hattempt n0 Hkey).
    by destruct (geminiService.models_generateContent _ _ _) as [[?|?] ?]. }
  split_and!.
  - exists k. by split_and!.
  - intros audio Hok.
    destruct (generateSpeech_fulfilled env newGoogleGenAI text multiSpeakerConfig n audio
                run.2) as (Hne & key' & w & response & Hkey' & Hsend & Hdata).
    { rewrite <-Hok. apply surjective_pairing. }
    split; [done|]. exists w, response. split; [|done].
    rewrite Hkey in Hkey'. by injection Hkey' as <-.
  - intros response w' Hsend Hnone. subst run. unfold geminiService.generateSpeech.
    apply callWithRetry_rejected_at_once; [|done].
    fold params. rewrite (Hattempt n Hkey), Hsend. by rewrite Hnone.
  - done.
  - subst params. simpl. unfold geminiService.speechConfigOf.
    destruct multiSpeakerConfig as [speakers|]; [|done].
    assert (∀ l : list (string * string), (λ speaker, (speaker.1, speaker.2)) <$> l = l)
      as Hid.
    { induction l as [|[] ? IH]; [done|]. rewrite fmap_cons. by rewrite IH. }
    rewrite Hid.
    destruct (Nat.ltb_spec 1 (length speakers)); destruct (decide _); try lia; done.
Qed.

Lemma generateSpeech_outcome_witness :
  ∃ k, (k ≤ 3)%nat
    ∧ geminiService.net_requests
        (geminiService.generateSpeech storedKeyEnv
           (scriptedGenAI (failsAt 0 tooManyRequests) 0) "amen" None freshNet).2
      = geminiService.net_requests freshNet
        ++ replicate (S k)
             (geminiService.GenerateContent (geminiService.speechParameters "amen" None))
    ∧ geminiService.net_waits
        (geminiService.generateSpeech storedKeyEnv
           (scriptedGenAI (failsAt 0 tooManyRequests) 0) "amen" None freshNet).2
      = geminiService.net_waits freshNet ++ backoff k 2000.
Proof.
  exact (proj1 (generateSpeech_outcome storedKeyEnv
                  (scriptedGenAI (failsAt 0 tooManyRequests) 0)
                  "stored-key" "amen" None freshNet eq_refl)).
Defined.

(** A first request rejected for too many requests, then an answer with
    audio: two requests, one wait of two seconds. *)
Example scripted_speech_retry :
  let run := geminiService.generateSpeech storedKeyEnv
               (scriptedGenAI (failsAt 0 tooManyRequests) 0) "amen" None freshNet in
  run.1 = Ok "audio#1"
  ∧ length (geminiService.net_requests run.2) = 2%nat
  ∧ geminiService.net_waits run.2 = [2000].
Proof. by vm_compute. Qed.

(** X14: [generateImageFromPrayer], when a key is found, sends the same
    request for one PNG image once more than it waits, at most four times.
    When it is fulfilled the image data is not empty and is the data of the
    first image of the answer to its last request.  An answer without such
    data, be it that the list of images is missing or empty, that its first
    entry has no image, or that the image has no or empty data, ends it at
    once with an error that is not retried. *)
Theorem generateImageFromPrayer_outcome {W} (env : geminiService.Env)
    (newGoogleGenAI : string → geminiService.GoogleGenAI W)
    (key prompt aspectRatio modelName : string) (n : geminiService.Net W) :
  let params := geminiService.imagesParameters prompt aspectRatio modelName in
  let run := geminiService.generateImageFromPrayer env newGoogleGenAI
               prompt aspectRatio modelName n in
  geminiService.getApiKey env = Ok key →
  (∃ k, (k ≤ 3)%nat
     ∧ geminiService.net_requests run.2
       = geminiService.net_requests n
         ++ replicate (S k) (geminiService.GenerateImages params)
     ∧ geminiService.net_waits run.2 = geminiService.net_waits n ++ backoff k 2000)
  ∧ (∀ image, run.1 = Ok image →
       image ≠ ""
       ∧ ∃ w response,
           geminiService.models_generateImages (newGoogleGenAI key) params w
           = (Ok response, geminiService.net_world run.2)
           ∧ geminiService.firstImageBytes response = Ok (Some image))
  ∧ (∀ response w',
       geminiService.models_generateImages (newGoogleGenAI key) params
         (geminiService.net_world n) = (Ok response, w') →
       (∀ image, geminiService.firstImageBytes response = Ok (Some image) → image = "") →
       ∃ error, isRateLimit error = false
         ∧ run = (Throw error,
                  {| geminiService.net_world := w';
                     geminiService.net_requests :=
                       geminiService.net_requests n ++ [geminiService.GenerateImages params];
                     geminiService.net_waits := geminiService.net_waits n |}))
  ∧ geminiService.images_numberOfImages params = 1
  ∧ geminiService.images_outputMimeType params = "image/png"
  ∧ geminiService.images_aspectRatio params = aspectRatio.
Proof.
  intros params run Hkey.
  pose proof (imageAttempt_sends env newGoogleGenAI key params) as Hattempt.
  destruct (callWithRetry_net
              (geminiService.imageAttempt env newGoogleGenAI params)
              (geminiService.GenerateImages params) defaultRetries defaultDelay n)
    as (k & n0 & Hk & Hlast & Hreq & Hwaits & _).
  { intros n0. rewrite (Hattempt n0 Hkey).
    by destruct (geminiService.models_generateImages _ _ _) as [[?|?] ?]. }
  split_and!; [ | | |done..].
  - exists k. by split_and!.
  - intros image Hok.
    destruct (generateImageFromPrayer_fulfilled env newGoogleGenAI prompt aspectRatio
                modelName n image run.2) as (Hne & key' & w & response & Hkey' & Hsend & Hdata).
    { rewrite <-Hok. apply surjective_pairing. }
    split; [done|]. exists w, response. split; [|done].
    rewrite Hkey in Hkey'. by injection Hkey' as <-.
  - intros response w' Hsend Hnone. subst run.
    unfold geminiService.generateImageFromPrayer. fold params.
    pose proof (Hattempt n Hkey) as Hrun. rewrite Hsend in Hrun.
    destruct (geminiService.firstImageBytes response) as [imageBytes|error] eqn:Hbytes.
    + destruct (geminiService.nonEmpty imageBytes) as [image|] eqn:Himage.
      { apply nonEmpty_Some in Himage as [-> Hne]. by destruct (Hne (Hnone image eq_refl)). }
      eexists. split; [|by apply callWithRetry_rejected_at_once]. done.
    + pose proof (firstImageBytes_errors _ _ Hbytes) as Hrl.
      exists error. split; [done|]. by apply callWithRetry_rejected_at_once.
Qed.

Lemma generateImageFromPrayer_outcome_witness :
  ∃ k, (k ≤ 3)%nat
    ∧ geminiService.net_requests
        (geminiService.generateImageFromPrayer storedKeyEnv
           (scriptedGenAI neverFails 0) "a sunrise" "16:9" imageModel freshNet).2
      = geminiService.net_requests freshNet
        ++ replicate (S k)
             (geminiService.GenerateImages
                (geminiService.imagesParameters "a sunrise" "16:9" imageModel))
    ∧ geminiService.net_waits
        (geminiService.generateImageFromPrayer storedKeyEnv
           (scriptedGenAI neverFails 0) "a sunrise" "16:9" imageModel freshNet).2
      = geminiService.net_waits freshNet ++ backoff k 2000.
Proof.
  exact (proj1 (generateImageFromPrayer_outcome storedKeyEnv (scriptedGenAI neverFails 0)
                  "stored-key" "a sunrise" "16:9" imageModel freshNet eq_refl)).
Defined.

(** X15: when neither the stored key nor the key of the environment is a
    text that is not empty, [getApiKey] is rejected, and with it every
    service function at once: with that error, without a request sent and
    without a wait. *)
Theorem missing_api_key_rejects_at_once {W} (env : geminiService.Env)
    (newGoogleGenAI : string → geminiService.GoogleGenAI W) :
  let keyError := newError "API Key not found. Please set it in the app." in
  geminiService.nonEmpty (geminiService.USER_API_KEY env) = None →
  geminiService.nonEmpty (geminiService.API_KEY env) = None →
  geminiService.getApiKey env = Throw keyError
  ∧ ∀ n : geminiService.Net W,
      (∀ text multiSpeakerConfig,
         geminiService.generateSpeech env newGoogleGenAI text multiSpeakerConfig n
         = (Throw keyError, n))
      ∧ (∀ prompt aspectRatio modelName,
           geminiService.generateImageFromPrayer env newGoogleGenAI
             prompt aspectRatio modelName n
           = (Throw keyError, n))
      ∧ (∀ fuel prompt aspectRatio,
           geminiService.generateVideo env newGoogleGenAI fuel prompt aspectRatio n
           = (Throw keyError, n)).
Proof.
  intros keyError Hstored Henv.
  pose proof (getApiKey_missing env Hstored Henv) as Hkey.
  pose proof (getGenAI_missing env newGoogleGenAI _ Hkey) as Hai.
  split; [done|]. intros n. split_and!.
  - intros. apply callWithRetry_rejected_at_once; [|done].
    unfold geminiService.speechAttempt, geminiService.settle, mbind, Async_bind.
    by rewrite Hai.
  - intros. apply callWithRetry_rejected_at_once; [|done].
    unfold geminiService.imageAttempt, geminiService.settle, mbind, Async_bind.
    by rewrite Hai.
  - intros. unfold geminiService.generateVideo, geminiService.settle, mbind, Async_bind.
    by rewrite Hai.
Qed.

Lemma missing_api_key_rejects_at_once_witness :
  geminiService.generateSpeech noKeyEnv (scriptedGenAI neverFails 0) "amen" None freshNet
  = (Throw (newError "API Key not found. Please set it in the app."), freshNet).
Proof.
  exact (proj1 (proj2 (missing_api_key_rejects_at_once noKeyEnv (scriptedGenAI neverFails 0)
                         eq_refl eq_refl) freshNet) "amen" None).
Defined.

(** X16: with the service's own [generateSpeech] and
    [generateImageFromPrayer] behind it, a run is never rejected by its own
    checks for empty audio or empty image data: whenever the audio stage is
    rejected, the error is that of the speech call or of the decoding, and
    whenever the image stage is rejected, it is that of one of its three
    calls. *)
Theorem kit_media_checks_never_fire {W} (env : geminiService.Env)
    (newGoogleGenAI : string → geminiService.GoogleGenAI W)
    (svc : Services (geminiService.Net W)) :
  generateSpeech svc = geminiService.generateSpeech env newGoogleGenAI →
  generateImageFromPrayer svc = geminiService.generateImageFromPrayer env newGoogleGenAI →
  (∀ jobType prayer s error s',
     generateAudio svc jobType prayer s = (Throw error, s') →
     let config := match jobType with long => Some dialogueSpeakers | short => None end in
     (∃ w', generateSpeech svc prayer config (world s) = (Throw error, w'))
     ∨ (∃ audioB64 w', generateSpeech svc prayer config (world s) = (Ok audioB64, w')
          ∧ decode svc audioB64 = Throw error))
  ∧ (∀ jobLang jobType prayer post s error s',
       resolveImage svc jobLang jobType prayer post None s = (Throw error, s') →
       ∃ w w',
         createThumbnailPromptFromPost svc (post_title post) (post_description post)
           prayer jobLang w = (Throw error, w')
         ∨ (∃ visualPrompt,
              generateImageFromPrayer svc visualPrompt (aspectRatioOf jobType) imageModel w
              = (Throw error, w'))
         ∨ (∃ imageB64, fetchBlob svc (dataUrl imageB64) w = (Throw error, w'))).
Proof.
  intros Hspeech Himage. split.
  - intros jobType prayer s error s'.
    unfold generateAudio, remote, liftOutcome, throw, mbind, Async_bind, mret, Async_ret.
    destruct (generateSpeech svc prayer _ (world s)) as [[audioB64|e] w1] eqn:Hrun; cbn.
    + rewrite Hspeech in Hrun.
      apply generateSpeech_fulfilled in Hrun as [Hne%isEmpty_false _]. rewrite Hne.
      cbn. destruct (decode svc audioB64) as [pcmData|e] eqn:Hd; cbn; [done|].
      intros [= <- <-]. right. by exists audioB64, w1.
    + intros [= <- <-]. left. by exists w1.
  - intros jobLang jobType prayer post s error s'.
    unfold resolveImage, remote, throw, mbind, Async_bind, mret, Async_ret.
    destruct (createThumbnailPromptFromPost svc _ _ _ _ (world s)) as [[vp|e] w1] eqn:H1;
      cbn; [|intros [= <- <-]; exists (world s), w1; by left].
    destruct (generateImageFromPrayer svc vp _ _ w1) as [[img|e] w2] eqn:H2; cbn;
      [|intros [= <- <-]; exists w1, w2; right; left; by exists vp].
    rewrite Himage in H2.
    apply generateImageFromPrayer_fulfilled in H2 as [Hne%isEmpty_false _]. rewrite Hne.
    cbn. destruct (fetchBlob svc (dataUrl img) w2) as [[blob|e] w3] eqn:H3; cbn; [done|].
    intros [= <- <-]. exists w2, w3. right. right. by exists img.
Qed.

Lemma kit_media_checks_never_fire_witness :
  (∃ w', generateSpeech (wiredServices storedKeyEnv (failsAt 0 malformedResponse))
           "amen" None (world wiredSys) = (Throw malformedResponse, w'))
  ∨ (∃ audioB64 w',
       generateSpeech (wiredServices storedKeyEnv (failsAt 0 malformedResponse))
         "amen" None (world wiredSys) = (Ok audioB64, w')
       ∧ decode (wiredServices storedKeyEnv (failsAt 0 malformedResponse)) audioB64
         = Throw malformedResponse).
Proof.
  refine (proj1 (kit_media_checks_never_fire storedKeyEnv
                   (scriptedGenAI (failsAt 0 malformedResponse) 0)
                   (wiredServices storedKeyEnv (failsAt 0 malformedResponse))
                   eq_refl eq_refl)
            short "amen" wiredSys malformedResponse
            (generateAudio (wiredServices storedKeyEnv (failsAt 0 malformedResponse))
               short "amen" wiredSys).2 _).
  vm_compute. reflexivity.
Defined.

(** X17: [generateVideo], once its first request is answered with an
    operation, waits ten seconds before each poll, asks each time about the
    operation it was last given, and stops at the first one reported done:
    for an operation done after [m] polls it sends [m] poll requests, waits
    [m] times ten seconds, and then returns the download link of that
    operation, or is rejected when the operation carries none.  A poll that
    is rejected ends it with that error: polls are not retried, whatever the
    error. *)
Theorem generateVideo_polls {W} (env : geminiService.Env)
    (newGoogleGenAI : string → geminiService.GoogleGenAI W)
    (key prompt aspectRatio : string) (n : geminiService.Net W)
    (operation0 : geminiService.GenerateVideosOperation) (w0 : W) :
  let ai := newGoogleGenAI key in
  let params := geminiService.videosParameters prompt aspectRatio in
  geminiService.getApiKey env = Ok key →
  geminiService.models_generateVideos ai params (geminiService.net_world n)
  = (Ok operation0, w0) →
  (∀ polled final w' fuel,
     geminiService.pollsTo ai operation0 w0 polled final w' →
     (length polled ≤ fuel)%nat →
     geminiService.generateVideo env newGoogleGenAI fuel prompt aspectRatio n
     = (match geminiService.nonEmpty (geminiService.downloadLinkOf final) with
        | Some downloadLink => Ok (Some downloadLink)
        | None =>
            Throw (newError "Video generation completed but no download link was found.")
        end,
        {| geminiService.net_world := w';
           geminiService.net_requests :=
             geminiService.net_requests n
             ++ geminiService.GenerateVideos params
                :: (geminiService.GetVideosOperation <$> polled);
           geminiService.net_waits :=
             geminiService.net_waits n ++ replicate (length polled) 10000 |}))
  ∧ (∀ error w1 fuel,
       geminiService.operation_done operation0 = false →
       geminiService.operations_getVideosOperation ai operation0 w0 = (Throw error, w1) →
       geminiService.generateVideo env newGoogleGenAI (S fuel) prompt aspectRatio n
       = (Throw error,
          {| geminiService.net_world := w1;
             geminiService.net_requests :=
               geminiService.net_requests n
               ++ [geminiService.GenerateVideos params;
                   geminiService.GetVideosOperation operation0];
             geminiService.net_waits := geminiService.net_waits n ++ [10000] |})).
Proof.
  intros ai params Hkey Hstart.
  assert (∀ fuel,
            geminiService.generateVideo env newGoogleGenAI fuel prompt aspectRatio n
            = (polled ← geminiService.pollOperation ai fuel operation0;
               match polled with
               | None => mret None
               | Some operation =>
                   match geminiService.nonEmpty (geminiService.downloadLinkOf operation) with
                   | Some downloadLink => mret (Some downloadLink)
                   | None =>
                       throw (newError
                         "Video generation completed but no download link was found.")
                   end
               end)
                {| geminiService.net_world := w0;
                   geminiService.net_requests :=
                     geminiService.net_requests n ++ [geminiService.GenerateVideos params];
                   geminiService.net_waits := geminiService.net_waits n |}) as Hrun.
  { intros fuel. unfold geminiService.generateVideo.
    unfold mbind at 1, Async_bind at 1, geminiService.settle at 1.
    rewrite (getGenAI_found env newGoogleGenAI key Hkey).
    unfold mbind at 1, Async_bind at 1. fold ai params.
    rewrite (callWithRetry_fulfilled_at_once _ _ _ _ operation0 n
               {| geminiService.net_world := w0;
                  geminiService.net_requests :=
                    geminiService.net_requests n ++ [geminiService.GenerateVideos params];
                  geminiService.net_waits := geminiService.net_waits n |}); [done|].
    unfold geminiService.send. by rewrite Hstart. }
  split.
  - intros polled final w' fuel Hpolls Hfuel. rewrite Hrun.
    unfold mbind, Async_bind.
    rewrite (pollOperation_polls ai operation0 w0 polled final w' fuel
               {| geminiService.net_world := w0;
                  geminiService.net_requests :=
                    geminiService.net_requests n ++ [geminiService.GenerateVideos params];
                  geminiService.net_waits := geminiService.net_waits n |}
               Hpolls eq_refl Hfuel).
    simpl. rewrite <-app_assoc. simpl.
    by destruct (geminiService.nonEmpty _).
  - intros error w1 fuel Hnot Hpoll. rewrite Hrun.
    unfold mbind at 1, Async_bind at 1. simpl. rewrite Hnot.
    unfold mbind, Async_bind, geminiService.wait, geminiService.send, modify. simpl.
    rewrite Hpoll. by rewrite <-app_assoc.
Qed.

Lemma generateVideo_polls_witness :
  geminiService.generateVideo storedKeyEnv (scriptedGenAI neverFails 3) 5
    "a sunrise" "16:9" freshNet
  = (Ok (Some "https://video#3"),
     {| geminiService.net_world := 4%nat;
        geminiService.net_requests :=
          geminiService.net_requests freshNet
          ++ geminiService.GenerateVideos (geminiService.videosParameters "a sunrise" "16:9")
             :: (geminiService.GetVideosOperation
                   <$> [videoOperation "operation" None; videoOperation "operation" None;
                        videoOperation "operation" None]);
        geminiService.net_waits := geminiService.net_waits freshNet ++ replicate 3 10000 |}).
Proof.
  refine (proj1 (generateVideo_polls storedKeyEnv (scriptedGenAI neverFails 3)
                   "stored-key" "a sunrise" "16:9" freshNet
                   (videoOperation "operation" None) 1%nat eq_refl eq_refl)
            [videoOperation "operation" None; videoOperation "operation" None;
             videoOperation "operation" None]
            (videoOperation "operation" (Some "https://video#3")) 4%nat 5%nat _ _).
  - eapply geminiService.polls_again; [reflexivity|reflexivity|].
    eapply geminiService.polls_again; [reflexivity|reflexivity|].
    eapply geminiService.polls_again; [reflexivity|reflexivity|].
    by apply geminiService.polls_done.
  - simpl. lia.
Defined.

(** * Properties of the text handling *)

(** ** Texts as lists of code units *)

Lemma chars_ofChars (l : list Ascii.ascii) : JsString.chars (JsString.ofChars l) = l.
Proof. apply String.list_ascii_of_string_of_list_ascii. Qed.

Lemma ofChars_chars (s : string) : JsString.ofChars (JsString.chars s) = s.
Proof. apply String.string_of_list_ascii_of_string. Qed.

Lemma chars_app (s t : string) :
  JsString.chars (s +:+ t) = JsString.chars s ++ JsString.chars t.
Proof. induction s as [|c s IH]; [done|]. simpl. by rewrite IH. Qed.

Lemma chars_inj (s t : string) : JsString.chars s = JsString.chars t → s = t.
Proof. intros H. by rewrite <-(ofChars_chars s), <-(ofChars_chars t), H. Qed.

Lemma length_chars (s : string) : String.length s = length (JsString.chars s).
Proof. induction s as [|c s IH]; [done|]. simpl. by rewrite IH. Qed.

Lemma ofChars_app (l k : list Ascii.ascii) :
  JsString.ofChars (l ++ k) = JsString.ofChars l +:+ JsString.ofChars k.
Proof. apply chars_inj. by rewrite chars_app, !chars_ofChars. Qed.

(** ** Trimming *)

Lemma dropWhile_all {A} (p : A → bool) (l k : list A) :
  Forall (λ c, p c = true) l → JsString.dropWhile p (l ++ k) = JsString.dropWhile p k.
Proof. induction 1 as [|c l Hc _ IH]; [done|]. simpl. by rewrite Hc. Qed.

Lemma dropWhile_split {A} (p : A → bool) (l : list A) :
  ∃ lead, Forall (λ c, p c = true) lead
    ∧ l = lead ++ JsString.dropWhile p l
    ∧ ∀ c rest, JsString.dropWhile p l = c :: rest → p c = false.
Proof.
  induction l as [|x l (lead & Hlead & Hl & Hhead)]; simpl.
  - exists []. by split_and!.
  - destruct (p x) eqn:Hx.
    + exists (x :: lead). split_and!; [by constructor|simpl; by rewrite <-Hl|done].
    + exists []. split_and!; [done|done|]. by intros c rest [= <- _].
Qed.

Lemma trimmed_tight (s : string) :
  JsString.trimmed s ↔ JsString.tight (JsString.chars s).
Proof. done. Qed.

Lemma dropWhile_tight (l k : list Ascii.ascii) :
  JsString.tight l → l ≠ [] →
  JsString.dropWhile JsString.isWhiteSpace (l ++ k) = l ++ k.
Proof.
  intros [Hfirst _] Hne. destruct l as [|c l]; [done|].
  simpl. by rewrite (Hfirst c l eq_refl).
Qed.

Lemma dropWhile_blank (k : list Ascii.ascii) :
  Forall (λ c, JsString.isWhiteSpace c = true) k →
  JsString.dropWhile JsString.isWhiteSpace k = [].
Proof. intros Hk. rewrite <-(app_nil_r k). by rewrite dropWhile_all. Qed.

Lemma tight_reverse (l : list Ascii.ascii) :
  JsString.tight l → JsString.tight (reverse l).
Proof.
  intros [Hfirst Hlast]. split.
  - intros c rest Hrev. apply (Hlast c (reverse rest)).
    rewrite <-(reverse_involutive l), Hrev. by rewrite reverse_cons.
  - intros c front Hrev. apply (Hfirst c (reverse front)).
    rewrite <-(reverse_involutive l), Hrev. by rewrite reverse_app.
Qed.

(** White space around a tight core is what trimming takes away. *)
Lemma trim_sandwich (lead core trail : string) :
  JsString.blank lead → JsString.blank trail → JsString.trimmed core →
  JsString.trim (lead +:+ core +:+ trail) = core.
Proof.
  unfold JsString.blank, JsString.trim, JsString.trimEnd, JsString.trimStart.
  intros Hlead Htrail Hcore%trimmed_tight.
  rewrite chars_ofChars, !chars_app, (dropWhile_all _ _ _ Hlead).
  destruct (decide (JsString.chars core = [])) as [Hnil|Hne].
  - rewrite Hnil, app_nil_l, (dropWhile_blank _ Htrail).
    apply chars_inj. by rewrite Hnil.
  - rewrite (dropWhile_tight _ _ Hcore Hne).
    rewrite reverse_app, (dropWhile_all _ _ _ (proj2 (Forall_reverse _ _) Htrail)).
    assert (reverse (JsString.chars core) ≠ []) as Hrev.
    { intros Hrev. apply Hne.
      by rewrite <-(reverse_involutive (JsString.chars core)), Hrev. }
    pose proof (dropWhile_tight _ [] (tight_reverse _ Hcore) Hrev) as Hid.
    rewrite !app_nil_r in Hid. rewrite Hid.
    by rewrite reverse_involutive, ofChars_chars.
Qed.

Lemma trim_split (s : string) :
  ∃ lead trail, JsString.blank lead ∧ JsString.blank trail
    ∧ s = lead +:+ JsString.trim s +:+ trail
    ∧ JsString.trimmed (JsString.trim s).
Proof.
  unfold JsString.trim, JsString.trimEnd, JsString.trimStart, JsString.blank.
  rewrite chars_ofChars.
  destruct (dropWhile_split JsString.isWhiteSpace (JsString.chars s))
    as (lead & Hlead & Hs & Hhead).
  set (l1 := JsString.dropWhile JsString.isWhiteSpace (JsString.chars s)) in *.
  destruct (dropWhile_split JsString.isWhiteSpace (reverse l1))
    as (rt & Hrt & Hl1 & Hlast).
  set (l2 := JsString.dropWhile JsString.isWhiteSpace (reverse l1)) in *.
  assert (l1 = reverse l2 ++ reverse rt) as Hsplit
    by by rewrite <-reverse_app, <-Hl1, reverse_involutive.
  exists (JsString.ofChars lead), (JsString.ofChars (reverse rt)).
  rewrite !chars_ofChars. split_and!.
  - done.
  - by apply Forall_reverse.
  - apply chars_inj. rewrite !chars_app, !chars_ofChars. by rewrite <-Hsplit.
  - unfold JsString.trimmed. rewrite chars_ofChars. split.
    + intros c rest Hc. apply (Hhead c (rest ++ reverse rt)). by rewrite Hsplit, Hc.
    + intros c front Hc. apply (Hlast c (reverse front)).
      rewrite <-(reverse_involutive l2), Hc. by rewrite reverse_app.
Qed.

Lemma trimmed_empty : JsString.trimmed "".
Proof. split; intros c l Hl; [done|by destruct l]. Qed.

Lemma trim_trimmed (s : string) : JsString.trimmed s → JsString.trim s = s.
Proof.
  intros Hs.
  assert ("" +:+ s +:+ "" = s) as Heq
    by (apply chars_inj; by rewrite !chars_app, app_nil_r).
  transitivity (JsString.trim ("" +:+ s +:+ "")); [by rewrite Heq|].
  by apply trim_sandwich; [constructor|constructor|].
Qed.

Lemma trim_idempotent (s : string) : JsString.trim (JsString.trim s) = JsString.trim s.
Proof. destruct (trim_split s) as (_ & _ & _ & _ & _ & H). by apply trim_trimmed. Qed.

Lemma trim_blank (s : string) : JsString.trim s = "" ↔ JsString.blank s.
Proof.
  split.
  - intros Hs. destruct (trim_split s) as (lead & trail & Hlead & Htrail & Heq & _).
    rewrite Hs in Heq. rewrite Heq. unfold JsString.blank in *.
    rewrite !chars_app. simpl. by apply Forall_app.
  - intros Hs.
    assert (s +:+ "" +:+ "" = s) as Heq
      by (apply chars_inj; by rewrite !chars_app, !app_nil_r).
    transitivity (JsString.trim (s +:+ "" +:+ "")); [by rewrite Heq|].
    apply trim_sandwich; [done|constructor|apply trimmed_empty].
Qed.

(** Trimming only takes code units away. *)
Lemma trim_keeps (P : Ascii.ascii → Prop) (s : string) :
  Forall P (JsString.chars s) → Forall P (JsString.chars (JsString.trim s)).
Proof.
  destruct (trim_split s) as (lead & trail & _ & _ & Heq & _).
  rewrite Heq at 1. rewrite !chars_app, !Forall_app. tauto.
Qed.

(** ** Prefixes and pieces *)

Lemma startsWith_app (p s : string) : JsString.startsWith p (p +:+ s) = true.
Proof.
  induction p as [|c p IH]; [done|]. simpl. rewrite IH.
  by rewrite bool_decide_eq_true_2.
Qed.

Lemma startsWith_cancel (p q s : string) :
  JsString.startsWith (p +:+ q) (p +:+ s) = JsString.startsWith q s.
Proof.
  induction p as [|c p IH]; [done|]. simpl. rewrite IH.
  by rewrite bool_decide_eq_true_2.
Qed.

Lemma substring_middle (front body back : string) :
  JsString.substring (front +:+ body +:+ back)
    (Z.of_nat (String.length front))
    (Z.of_nat (String.length (front +:+ body +:+ back)) - Z.of_nat (String.length back))
  = body.
Proof.
  unfold JsString.substring.
  rewrite !length_chars, !chars_app, !length_app.
  set (a := length (JsString.chars front)). set (b := length (JsString.chars body)).
  set (c := length (JsString.chars back)).
  replace (Z.min (Z.max (Z.of_nat a) 0) (Z.of_nat (a + (b + c)))) with (Z.of_nat a) by lia.
  replace (Z.min (Z.max (Z.of_nat (a + (b + c)) - Z.of_nat c) 0) (Z.of_nat (a + (b + c))))
    with (Z.of_nat (a + b)) by lia.
  replace (Z.to_nat (Z.min (Z.of_nat a) (Z.of_nat (a + b)))) with a by lia.
  replace (Z.to_nat (Z.max (Z.of_nat a) (Z.of_nat (a + b))
                     - Z.min (Z.of_nat a) (Z.of_nat (a + b)))) with b by lia.
  subst a b c. rewrite drop_app_length, take_app_length. apply ofChars_chars.
Qed.

Lemma splitFirst_free (separator : Ascii.ascii) (s : string) :
  Forall (λ c, c ≠ separator) (JsString.chars (JsString.splitFirst separator s)).
Proof.
  induction s as [|c s IH]; simpl; [constructor|].
  destruct (bool_decide_reflect (c = separator)); simpl; [constructor|].
  by constructor.
Qed.

Lemma splitFirst_app (separator : Ascii.ascii) (head rest : string) :
  Forall (λ c, c ≠ separator) (JsString.chars head) →
  JsString.splitFirst separator (head +:+ String separator rest) = head.
Proof.
  induction head as [|c head IH]; simpl.
  - intros _. by rewrite bool_decide_eq_true_2.
  - intros [Hc Hhead]%Forall_cons. rewrite bool_decide_eq_false_2 by done.
    by rewrite IH.
Qed.

Lemma removeAll_free (class : Ascii.ascii → bool) (s : string) :
  JsString.free class (JsString.removeAll class s).
Proof.
  unfold JsString.free. induction s as [|c s IH]; simpl; [constructor|].
  destruct (class c) eqn:Hc; [done|]. simpl. by constructor.
Qed.

Lemma removeAll_keeps (class : Ascii.ascii → bool) (P : Ascii.ascii → Prop) (s : string) :
  Forall P (JsString.chars s) → Forall P (JsString.chars (JsString.removeAll class s)).
Proof.
  induction s as [|c s IH]; simpl; [done|].
  intros [Hc Hs]%Forall_cons. destruct (class c); [by apply IH|].
  simpl. constructor; [done|by apply IH].
Qed.

Lemma removeAll_id (class : Ascii.ascii → bool) (s : string) :
  JsString.free class s → JsString.removeAll class s = s.
Proof.
  unfold JsString.free. induction s as [|c s IH]; simpl; [done|].
  intros [Hc Hs]%Forall_cons. rewrite Hc. by rewrite IH.
Qed.

(** X18: the text [getTrendingTopic] parses.  An answer that does not open
    with a code fence is parsed as it is, trimmed.  An answer that opens with
    a fence, labelled json or not, is cut after the fence and three code units
    before its end, whatever those three are, and what is left is trimmed: a
    fenced payload comes out whole, and an answer whose closing fence is
    missing loses the last three code units of its payload. *)
Theorem jsonStrOf_unwraps (lead body tail trail : string) :
  JsString.blank lead → JsString.blank trail →
  String.length tail = 3%nat →
  (∀ front c, JsString.chars tail = front ++ [c] → JsString.isWhiteSpace c = false) →
  geminiService.jsonStrOf (lead +:+ "```json" +:+ body +:+ tail +:+ trail)
  = JsString.trim body
  ∧ (JsString.startsWith "json" (body +:+ tail) = false →
     geminiService.jsonStrOf (lead +:+ "```" +:+ body +:+ tail +:+ trail)
     = JsString.trim body)
  ∧ (∀ text, JsString.startsWith "```" (JsString.trim text) = false →
       geminiService.jsonStrOf text = JsString.trim text).
Proof.
  intros Hlead Htrail Hlen Hlast.
  assert (∀ fence, fence = "```json" ∨ fence = "```" →
            JsString.trim (lead +:+ fence +:+ body +:+ tail +:+ trail)
            = fence +:+ body +:+ tail) as Htrim.
  { intros fence Hfence.
    assert (lead +:+ fence +:+ body +:+ tail +:+ trail
            = lead +:+ (fence +:+ body +:+ tail) +:+ trail) as ->.
    { apply chars_inj. rewrite !chars_app. by rewrite <-!app_assoc. }
    apply trim_sandwich; [done..|]. split.
    - intros c rest Hc. rewrite !chars_app in Hc.
      destruct Hfence as [-> | ->]; by injection Hc as <- _.
    - intros c front Hc. rewrite !chars_app, !app_assoc in Hc.
      destruct (JsString.chars tail) as [|t1 tl] eqn:Htail using rev_ind.
      { rewrite length_chars, Htail in Hlen. done. }
      rewrite !app_assoc in Hc. apply app_inj_tail in Hc as [_ <-].
      by apply (Hlast tl). }
  assert (∀ fence,
            JsString.substring (fence +:+ body +:+ tail)
              (Z.of_nat (String.length fence))
              (Z.of_nat (String.length (fence +:+ body +:+ tail)) - 3)
            = body) as Hcut.
  { intros fence. pose proof (substring_middle fence body tail) as Hmid.
    rewrite Hlen in Hmid. exact Hmid. }
  split_and!.
  - unfold geminiService.jsonStrOf. rewrite (Htrim "```json") by by left.
    rewrite startsWith_app. f_equal. exact (Hcut "```json").
  - intros Hjson. unfold geminiService.jsonStrOf. rewrite (Htrim "```") by by right.
    assert (JsString.startsWith "```json" ("```" +:+ body +:+ tail) = false) as ->
      by by rewrite (startsWith_cancel "```" "json").
    rewrite startsWith_app. f_equal. exact (Hcut "```").
  - intros text Hplain. unfold geminiService.jsonStrOf.
    assert (JsString.startsWith "```json" (JsString.trim text) = false) as ->; [|by rewrite Hplain].
    destruct (JsString.trim text) as [|c1 [|c2 [|c3 s]]]; try done.
    simpl in *. repeat (destruct (bool_decide _); simpl in *; try done).
Qed.

Lemma jsonStrOf_unwraps_witness :
  geminiService.jsonStrOf
    (geminiService.newline +:+ "```json" +:+ (geminiService.newline +:+ "[1, 2]"
       +:+ geminiService.newline) +:+ "```" +:+ geminiService.newline)
  = JsString.trim (geminiService.newline +:+ "[1, 2]" +:+ geminiService.newline).
Proof.
  refine (proj1 (jsonStrOf_unwraps geminiService.newline
                   (geminiService.newline +:+ "[1, 2]" +:+ geminiService.newline)
                   "```" geminiService.newline _ _ _ _)).
  - by repeat constructor.
  - by repeat constructor.
  - reflexivity.
  - intros [|f1 [|f2 [|f3 front]]] c [= ]; subst; try done.
    by destruct front.
Defined.

(** A payload whose closing fence is missing loses its last three code
    units; a fence with nothing after it gives back three code units of
    itself. *)
Example jsonStrOf_unclosed_fence :
  geminiService.jsonStrOf ("```json" +:+ geminiService.newline +:+ "[1, 2, 3]") = "[1, 2,"
  ∧ geminiService.jsonStrOf "```json" = "son"
  ∧ geminiService.jsonStrOf "```" = "```".
Proof. by vm_compute. Qed.

(** X19: the title that goes into the thumbnail prompt holds none of the
    code units number sign, asterisk and vertical bar, whatever the title of
    the post.  For a title that carries a channel name behind a vertical bar,
    it is the part before the first bar, trimmed and without number signs and
    asterisks; that part itself when it is trimmed and holds none of them. *)
Theorem cleanTitle_strips (title : string) :
  JsString.free geminiService.isHashOrStar (geminiService.cleanTitle title)
  ∧ Forall (λ c, c ≠ JsString.codeUnit 124)
      (JsString.chars (geminiService.cleanTitle title))
  ∧ (∀ head rest,
       Forall (λ c, c ≠ JsString.codeUnit 124) (JsString.chars head) →
       title = head +:+ String (JsString.codeUnit 124) rest →
       geminiService.cleanTitle title
       = JsString.removeAll geminiService.isHashOrStar (JsString.trim head)
       ∧ (JsString.trimmed head → JsString.free geminiService.isHashOrStar head →
          geminiService.cleanTitle title = head)).
Proof.
  unfold geminiService.cleanTitle. split_and!.
  - apply removeAll_free.
  - apply removeAll_keeps, trim_keeps, splitFirst_free.
  - intros head rest Hfree ->. rewrite splitFirst_app by done. split; [done|].
    intros Htrim Hclass. rewrite trim_trimmed by done. by apply removeAll_id.
Qed.

(** The title a long-video post is asked to carry, with its channel name,
    and a title that opens with a number sign: what is left of the second
    starts with a space. *)
Example cleanTitle_examples :
  geminiService.cleanTitle "STOP Scrolling: *God* Has a Word | Faith in 10 Minutes"
  = "STOP Scrolling: God Has a Word"
  ∧ geminiService.cleanTitle "# A Prayer for Today" = " A Prayer for Today".
Proof. by vm_compute. Qed.

(** X20: over any session with the key form, every key handed to
    [onKeySelected] is the trimmed input of that moment: it is not empty, it
    neither starts nor ends with white space, and once stored it is the key
    [getApiKey] returns, whatever the environment holds.  A submit with an
    input of white space only hands over nothing and sets the error text,
    and nothing in the form takes an error text away again. *)
Theorem selected_keys_are_usable (st : ApiKeySelector.State)
    (evs : list ApiKeySelector.Event) :
  (∀ key, key ∈ (ApiKeySelector.run st evs).2 →
     key ≠ "" ∧ JsString.trimmed key
     ∧ ∀ envKey, geminiService.getApiKey
                   {| geminiService.USER_API_KEY := Some key;
                      geminiService.API_KEY := envKey |} = Ok key)
  ∧ (JsString.blank (ApiKeySelector.inputKey st) →
     ApiKeySelector.handleSubmit st
     = ({| ApiKeySelector.inputKey := ApiKeySelector.inputKey st;
           ApiKeySelector.error := "Please enter a valid API Key" |}, None))
  ∧ (ApiKeySelector.error st ≠ "" →
     ApiKeySelector.error (ApiKeySelector.run st evs).1 ≠ "").
Proof.
  split_and!.
  - revert st. induction evs as [|[value|] evs IH]; intros st key; simpl.
    + by intros ?%elem_of_nil.
    + apply IH.
    + unfold ApiKeySelector.handleSubmit.
      destruct (isEmpty (JsString.trim (ApiKeySelector.inputKey st))) eqn:Hempty.
      * specialize (IH {| ApiKeySelector.inputKey := ApiKeySelector.inputKey st;
                          ApiKeySelector.error := "Please enter a valid API Key" |} key).
        destruct (ApiKeySelector.run _ evs) as [st2 keys]. simpl in *. apply IH.
      * specialize (IH st key).
        destruct (ApiKeySelector.run st evs) as [st2 keys]. simpl in *.
        intros [->|Hin]%elem_of_cons; [|by apply IH].
        apply isEmpty_false in Hempty.
        split_and!; [done| |].
        -- by destruct (trim_split (ApiKeySelector.inputKey st)) as (_ & _ & _ & _ & _ & ?).
        -- intros envKey. unfold geminiService.getApiKey. simpl.
           apply isEmpty_false in Hempty. by rewrite Hempty.
  - intros Hblank%trim_blank. unfold ApiKeySelector.handleSubmit. by rewrite Hblank.
  - revert st. induction evs as [|[value|] evs IH]; intros st Herr; simpl.
    + done.
    + by apply IH.
    + unfold ApiKeySelector.handleSubmit.
      destruct (isEmpty (JsString.trim (ApiKeySelector.inputKey st))).
      * specialize (IH {| ApiKeySelector.inputKey := ApiKeySelector.inputKey st;
                          ApiKeySelector.error := "Please enter a valid API Key" |}).
        destruct (ApiKeySelector.run _ evs) as [st2 keys]. simpl in *. by apply IH.
      * specialize (IH st Herr). by destruct (ApiKeySelector.run st evs).
Qed.

(** A blank submit, then a key typed with spaces around it: one key is
    handed over, trimmed, and the error text of the first submit is still
    there. *)
Example key_form_session :
  ApiKeySelector.run ApiKeySelector.initial
    [ApiKeySelector.Change "   "; ApiKeySelector.Submit;
     ApiKeySelector.Change "  my-key "; ApiKeySelector.Submit]
  = ({| ApiKeySelector.inputKey := "  my-key ";
        ApiKeySelector.error := "Please enter a valid API Key" |}, ["my-key"]).
Proof. by vm_compute. Qed.

